(** * POV_Display: a shallow embedding of Core/Src/POV_Display.c

    The driver keeps a column-addressable framebuffer ([PovDisplayData]),
    a text cursor ([CursPos], [PixelPos]) and the counters of two timer
    interrupts.  The C globals become fields of two records: [Display]
    for what the drawing functions touch, [Timing] for what the two
    interrupt callbacks touch (the callbacks only read the framebuffer).

    Machine integers are [Z] with the wrap-around written out; array
    accesses are bounds-checked, an access outside the declared array is
    the outcome [Fault]; loops run on fuel, a loop that does not return
    is the outcome [Timeout]. *)

From Stdlib Require Import ZArith Lia List Bool String Ascii.
From stdpp Require Import base option list.

Local Open Scope Z_scope.

(** ** Machine integers *)

Definition to_u8 (x : Z) : Z := x mod 256.
Definition to_u16 (x : Z) : Z := x mod 65536.
Definition to_u32 (x : Z) : Z := x mod 4294967296.
(** Conversion to [int8_t]: two's complement wrap (what arm-gcc does). *)
Definition to_i8 (x : Z) : Z := (x + 128) mod 256 - 128.

Definition is_u8 (x : Z) : Prop := 0 <= x < 256.
Definition is_u16 (x : Z) : Prop := 0 <= x < 65536.

(** ** Outcomes of running a piece of the driver *)

Inductive outcome (A : Type) : Type :=
| Done (a : A)
| Fault
| Timeout.
Arguments Done {A} a.
Arguments Fault {A}.
Arguments Timeout {A}.

#[global] Instance outcome_ret : MRet outcome := fun A a => Done a.
#[global] Instance outcome_bind : MBind outcome := fun A B f m =>
  match m with
  | Done a => f a
  | Fault => Fault
  | Timeout => Timeout
  end.

(** [for (i = start; cond(i); i++) body(i)] with a [uint8_t] counter.
    One unit of fuel pays for one evaluation of the guard; the counter
    takes at most 256 values, so [u8_fuel] guards suffice whenever the
    loop returns at all. *)
Fixpoint for_u8 {S : Type} (fuel : nat) (cond : Z -> bool)
    (body : Z -> S -> outcome S) (i : Z) (st : S) : outcome S :=
  match fuel with
  | O => Timeout
  | Datatypes.S fuel' =>
      if cond i
      then st' ← body i st; for_u8 fuel' cond body (to_u8 (i + 1)) st'
      else Done st
  end.

Definition u8_fuel : nat := 256.

(** ** Pixel states

    Modelled from the spec: the macros [ON] and [OFF] of POV_Display.h,
    which is not part of the sources ("bit r = row r state, 1=ON/0=OFF"). *)
Definition ON : Z := 1.
Definition OFF : Z := 0.

(** ** The drawing globals *)

Record Display : Type := mkDisplay {
  PovDisplayData : list Z;
  CursPos : Z;
  PixelPos : Z
}.

Definition set_PovDisplayData (fb : list Z) (d : Display) : Display :=
  mkDisplay fb (CursPos d) (PixelPos d).
Definition set_CursPos (c : Z) (d : Display) : Display :=
  mkDisplay (PovDisplayData d) c (PixelPos d).
Definition set_PixelPos (p : Z) (d : Display) : Display :=
  mkDisplay (PovDisplayData d) (CursPos d) p.

(** ** The timing globals and the peripherals the callbacks touch *)

Inductive TIM_Instance : Type := TIM2 | TIM3 | TIM_other.

(** What reaches the GPIO pins, in program order: [HAL_GPIO_WritePin] on
    the line of a pixel row, [HAL_GPIO_TogglePin] on the debug line. *)
Inductive gpio_event : Type :=
| WritePin (line : Z) (level : bool)
| TogglePin_C13.

Record Timing : Type := mkTiming {
  TimeDifference : Z;   (* volatile uint32_t *)
  Capture : Z;          (* volatile uint16_t *)
  ICU_TIM2_OVC : Z;     (* volatile uint16_t *)
  PixelsCounter : Z;    (* volatile uint8_t *)
  sysClockFreq : Z;     (* uint8_t *)
  TIM2_CNT : Z;         (* counter register of TIM2 *)
  TIM2_CCR1 : Z;        (* capture register of TIM2, channel 1 *)
  TIM3_CNT : Z;         (* counter register of TIM3 *)
  TIM3_ARR : Z;         (* auto-reload register of TIM3 *)
  gpio : list gpio_event
}.

Definition set_PixelsCounter (v : Z) (t : Timing) : Timing :=
  mkTiming (TimeDifference t) (Capture t) (ICU_TIM2_OVC t) v (sysClockFreq t)
    (TIM2_CNT t) (TIM2_CCR1 t) (TIM3_CNT t) (TIM3_ARR t) (gpio t).
Definition set_ICU_TIM2_OVC (v : Z) (t : Timing) : Timing :=
  mkTiming (TimeDifference t) (Capture t) v (PixelsCounter t) (sysClockFreq t)
    (TIM2_CNT t) (TIM2_CCR1 t) (TIM3_CNT t) (TIM3_ARR t) (gpio t).
Definition set_Capture (v : Z) (t : Timing) : Timing :=
  mkTiming (TimeDifference t) v (ICU_TIM2_OVC t) (PixelsCounter t) (sysClockFreq t)
    (TIM2_CNT t) (TIM2_CCR1 t) (TIM3_CNT t) (TIM3_ARR t) (gpio t).
Definition set_TimeDifference (v : Z) (t : Timing) : Timing :=
  mkTiming v (Capture t) (ICU_TIM2_OVC t) (PixelsCounter t) (sysClockFreq t)
    (TIM2_CNT t) (TIM2_CCR1 t) (TIM3_CNT t) (TIM3_ARR t) (gpio t).
Definition set_TIM2_CNT (v : Z) (t : Timing) : Timing :=
  mkTiming (TimeDifference t) (Capture t) (ICU_TIM2_OVC t) (PixelsCounter t) (sysClockFreq t)
    v (TIM2_CCR1 t) (TIM3_CNT t) (TIM3_ARR t) (gpio t).
Definition set_TIM3_CNT (v : Z) (t : Timing) : Timing :=
  mkTiming (TimeDifference t) (Capture t) (ICU_TIM2_OVC t) (PixelsCounter t) (sysClockFreq t)
    (TIM2_CNT t) (TIM2_CCR1 t) v (TIM3_ARR t) (gpio t).
Definition set_TIM3_ARR (v : Z) (t : Timing) : Timing :=
  mkTiming (TimeDifference t) (Capture t) (ICU_TIM2_OVC t) (PixelsCounter t) (sysClockFreq t)
    (TIM2_CNT t) (TIM2_CCR1 t) (TIM3_CNT t) v (gpio t).
Definition push_gpio (e : gpio_event) (t : Timing) : Timing :=
  mkTiming (TimeDifference t) (Capture t) (ICU_TIM2_OVC t) (PixelsCounter t) (sysClockFreq t)
    (TIM2_CNT t) (TIM2_CCR1 t) (TIM3_CNT t) (TIM3_ARR t) (gpio t ++ [e]).

Section Driver.

(** The build-time constants and the font table of POV_Display.h. *)
Variables RESOLUTION PIXELS FONTSIZE : Z.
Variable POV_Font : Z -> Z -> Z.

(** [uint8_t POVDigits = (RESOLUTION / (FONTSIZE + 1));] *)
Definition POVDigits : Z := to_u8 (RESOLUTION ÷ (FONTSIZE + 1)).

(** [PovDisplayData[i]] read and written, inside [uint8_t PovDisplayData[RESOLUTION]]. *)
Definition fb_load (i : Z) (d : Display) : outcome Z :=
  if (0 <=? i) && (i <? RESOLUTION) then
    match PovDisplayData d !! Z.to_nat i with
    | Some v => Done v
    | None => Fault
    end
  else Fault.

Definition fb_store (i v : Z) (d : Display) : outcome Display :=
  if (0 <=? i) && (i <? RESOLUTION) then
    match PovDisplayData d !! Z.to_nat i with
    | Some _ => Done (set_PovDisplayData (<[Z.to_nat i := to_u8 v]> (PovDisplayData d)) d)
    | None => Fault
    end
  else Fault.

(** A display whose framebuffer is the declared array of bytes. *)
Definition wf_display (d : Display) : Prop :=
  length (PovDisplayData d) = Z.to_nat RESOLUTION /\
  Forall is_u8 (PovDisplayData d).

(** *** POV_WritePixel *)
Definition POV_WritePixel (Row Column State : Z) (d : Display) : outcome Display :=
  if ((State =? ON) || (State =? OFF)) && (PIXELS >? Row) && (RESOLUTION >? Column) then
    if State =? ON then
      v ← fb_load Column d;
      fb_store Column (Z.lor v (Z.shiftl 1 Row)) d
    else
      v ← fb_load Column d;
      fb_store Column (Z.land v (Z.lnot (Z.shiftl 1 Row))) d
  else Done d.

(** *** POV_ReadPixel *)
Definition POV_ReadPixel (Row Column : Z) (d : Display) : outcome Z :=
  if (Column >=? RESOLUTION) || (Row >=? PIXELS) then Done 0
  else v ← fb_load Column d; Done (to_u8 (Z.land (Z.shiftr v Row) ON)).

(** *** POV_WriteColumn, POV_ReadColumn *)
Definition POV_WriteColumn (Column Value : Z) (d : Display) : outcome Display :=
  if Column >=? RESOLUTION then Done d else fb_store Column Value d.

Definition POV_ReadColumn (Column : Z) (d : Display) : outcome Z :=
  if Column >=? RESOLUTION then Done 0 else fb_load Column d.

(** *** POV_SetCursor *)
Definition POV_SetCursor (Pos : Z) (d : Display) : outcome Display :=
  if (RESOLUTION ÷ (FONTSIZE + 1)) >? Pos then
    let d1 := set_CursPos Pos d in
    Done (set_PixelPos (to_u8 (CursPos d1 * (FONTSIZE + 1))) d1)
  else Done d.

(** *** POV_WriteChar *)

(** One round of the glyph loop:
    [PovDisplayData[PixelPos] = POV_Font[Chr - 32][PixelsCount];
     PixelPos = (PixelPos + 1) % RESOLUTION;] *)
Definition WriteChar_body (Chr PixelsCount : Z) (d : Display) : outcome Display :=
  d1 ← fb_store (PixelPos d) (POV_Font (Chr - 32) PixelsCount) d;
  Done (set_PixelPos (to_u8 ((PixelPos d1 + 1) `rem` RESOLUTION)) d1).

Definition POV_WriteChar (Chr : Z) (d : Display) : outcome Display :=
  let d0 := set_PixelPos (to_u8 (CursPos d * (FONTSIZE + 1))) d in
  d1 ← for_u8 u8_fuel (fun PixelsCount => PixelsCount <? FONTSIZE) (WriteChar_body Chr) 0 d0;
  d2 ← fb_store (PixelPos d1) 0 d1;
  if POVDigits =? 0 then Fault (* [% 0] *)
  else Done (set_CursPos (to_u8 ((CursPos d2 + 1) `rem` POVDigits)) d2).

(** *** POV_WriteCharInPos *)
Definition POV_WriteCharInPos (Chr Pos : Z) (d : Display) : outcome Display :=
  if (RESOLUTION ÷ (FONTSIZE + 1)) >? Pos then
    d1 ← POV_SetCursor Pos d;
    POV_WriteChar Chr d1
  else Done d.

(** *** POV_Clear *)
Definition POV_Clear (d : Display) : outcome Display :=
  d1 ← for_u8 u8_fuel (fun PixelsCount => PixelsCount <? RESOLUTION)
         (fun PixelsCount d => fb_store PixelsCount 0 d) 0 d;
  Done (set_CursPos 0 (set_PixelPos 0 d1)).

(** *** POV_InvertDisplay *)
Definition Invert_body (PixelsCount : Z) (d : Display) : outcome Display :=
  v ← fb_load PixelsCount d;
  fb_store PixelsCount (Z.lnot v) d.

Definition POV_InvertDisplay (d : Display) : outcome Display :=
  for_u8 u8_fuel (fun PixelsCount => PixelsCount <? RESOLUTION) Invert_body 0 d.

(** *** POV_WriteString

    [Str] lists the bytes the pointer walks over; the end of the list
    stands for the terminating NUL, and a 0 byte inside it ends the
    string just the same. *)
Fixpoint POV_WriteString (Str : list Z) (d : Display) : outcome Display :=
  match Str with
  | [] => Done d
  | c :: Str' =>
      if c =? 0 then Done d
      else d1 ← POV_WriteChar c d; POV_WriteString Str' d1
  end.

(** *** POV_WriteStringInPos *)
Definition POV_WriteStringInPos (Str : list Z) (Pos : Z) (d : Display) : outcome Display :=
  d1 ← POV_SetCursor Pos d;
  POV_WriteString Str d1.

(** *** POV_DrawBitmap

    [MyBitmap] is [None] for the NULL pointer, otherwise the caller's
    array; reading past its end is a [Fault]. *)
Definition DrawBitmap_body (data : list Z) (PixelsCount : Z) (d : Display) : outcome Display :=
  match data !! Z.to_nat PixelsCount with
  | Some v => fb_store PixelsCount v d
  | None => Fault
  end.

Definition POV_DrawBitmap (MyBitmap : option (list Z)) (BitmapSize : Z) (d : Display)
    : outcome Display :=
  match MyBitmap with
  | Some data =>
      if BitmapSize <=? RESOLUTION then
        for_u8 u8_fuel (fun PixelsCount => PixelsCount <? BitmapSize) (DrawBitmap_body data) 0 d
      else Done d
  | None => Done d
  end.

(** *** POV_DrawFrame *)
Definition DrawFrame_row (PixelsCountColumn PixelsCountRow : Z) (d : Display) : outcome Display :=
  v ← fb_load PixelsCountColumn d;
  fb_store PixelsCountColumn (Z.lor v (Z.shiftl 1 PixelsCountRow)) d.

Definition DrawFrame_column (Column1 Row1 Row2 Column2 PixelsCountColumn : Z) (d : Display)
    : outcome Display :=
  v ← fb_load PixelsCountColumn d;
  d1 ← fb_store PixelsCountColumn (Z.lor v (Z.lor (Z.shiftl 1 Row1) (Z.shiftl 1 Row2))) d;
  if (PixelsCountColumn =? Column1) || (PixelsCountColumn =? Column2) then
    for_u8 u8_fuel (fun PixelsCountRow => PixelsCountRow <=? Row2)
      (DrawFrame_row PixelsCountColumn) Row1 d1
  else Done d1.

Definition POV_DrawFrame (Column1 Row1 Row2 Column2 : Z) (d : Display) : outcome Display :=
  if (PIXELS >? Row2) && (Row2 >? Row1) && (RESOLUTION >? Column1) && (RESOLUTION >? Column2) then
    for_u8 u8_fuel (fun PixelsCountColumn => PixelsCountColumn <=? Column2)
      (DrawFrame_column Column1 Row1 Row2 Column2) Column1 d
  else Done d.

(** *** POV_DrawLine

    The [while (1)] loop runs on fuel, one unit per round.  [Column1] and
    [Row1] are [uint8_t], the other locals [int8_t]. *)
Fixpoint DrawLine_loop (fuel : nat) (dx sx dy sy Column2 Row2 : Z)
    (Column1 Row1 err : Z) (d : Display) : outcome Display :=
  match fuel with
  | O => Timeout
  | Datatypes.S fuel' =>
      d1 ← POV_WritePixel Row1 Column1 ON d;
      if (Row1 =? Row2) && (Column1 =? Column2) then Done d1
      else
        let e2 := err in
        let err1 := if e2 >? - dx then to_i8 (err - dy) else err in
        let Column1' := if e2 >? - dx then to_u8 (Column1 + sx) else Column1 in
        let err2 := if e2 <? dy then to_i8 (err1 + dx) else err1 in
        let Row1' := if e2 <? dy then to_u8 (Row1 + sy) else Row1 in
        DrawLine_loop fuel' dx sx dy sy Column2 Row2 Column1' Row1' err2 d1
  end.

Definition POV_DrawLine (fuel : nat) (Column1 Row1 Column2 Row2 : Z) (d : Display)
    : outcome Display :=
  if (Row1 >=? PIXELS) || (Column1 >=? RESOLUTION) || (Row2 >=? PIXELS) || (Column2 >=? RESOLUTION)
  then Done d
  else
    let dx := to_i8 (Z.abs (Column2 - Column1)) in
    let sx := if Column1 <? Column2 then 1 else -1 in
    let dy := to_i8 (Z.abs (Row2 - Row1)) in
    let sy := if Row1 <? Row2 then 1 else -1 in
    let err := to_i8 ((if dx >? dy then dx else - dy) ÷ 2) in
    DrawLine_loop fuel dx sx dy sy Column2 Row2 Column1 Row1 err d.

(** *** POV_DrawTriangle *)
Definition POV_DrawTriangle (fuel : nat) (Column1 Row1 Column2 Row2 Column3 Row3 : Z)
    (d : Display) : outcome Display :=
  d1 ← POV_DrawLine fuel Column1 Row1 Column2 Row2 d;
  d2 ← POV_DrawLine fuel Column2 Row2 Column3 Row3 d1;
  POV_DrawLine fuel Column3 Row3 Column1 Row1 d2.

(** *** POV_IntervalsDisplay *)
Definition IntervalsDisplay_body (valueToPresent PixelsCount : Z) (t : Timing) : outcome Timing :=
  Done (push_gpio
          (WritePin PixelsCount (negb (Z.land valueToPresent (Z.shiftl 1 PixelsCount) =? 0))) t).

Definition POV_IntervalsDisplay (valueToPresent : Z) (t : Timing) : outcome Timing :=
  for_u8 u8_fuel (fun PixelsCount => PixelsCount <? PIXELS)
    (IntervalsDisplay_body valueToPresent) 0 t.

(** *** setTIM3InterruptPeriod *)
Definition autoReloadValue (desiredPeriodMicroseconds freq : Z) : Z :=
  to_u16 (desiredPeriodMicroseconds * to_u16 freq - 1).

Definition setTIM3InterruptPeriod (desiredPeriodMicroseconds : Z) (t : Timing) : Timing :=
  let arr := autoReloadValue desiredPeriodMicroseconds (sysClockFreq t) in
  set_TIM3_ARR arr (set_TIM3_CNT 0 t).

(** *** HAL_TIM_PeriodElapsedCallback *)
Definition HAL_TIM_PeriodElapsedCallback (Instance : TIM_Instance) (d : Display) (t : Timing)
    : outcome Timing :=
  match Instance with
  | TIM3 =>
      let t1 := set_PixelsCounter (to_u8 (PixelsCounter t + 1)) t in
      if PixelsCounter t1 <? RESOLUTION then
        v ← fb_load (PixelsCounter t1) d;
        t2 ← POV_IntervalsDisplay v t1;
        Done (push_gpio TogglePin_C13 t2)
      else Done t1
  | TIM2 => Done (set_ICU_TIM2_OVC (to_u16 (ICU_TIM2_OVC t + 1)) t)
  | TIM_other => Done t
  end.

(** *** HAL_TIM_IC_CaptureCallback *)

(** [TimeDifference = ((uint32_t)Capture + ((uint32_t)ICU_TIM2_OVC * 65536));] *)
Definition elapsed_ticks (capture ovc : Z) : Z :=
  to_u32 (capture + to_u32 (ovc * 65536)).

(** [uint16_t Period = (uint16_t)(TimeDifference / RESOLUTION);] *)
Definition IC_Period (timeDifference : Z) : Z :=
  to_u16 (timeDifference ÷ RESOLUTION).

Definition HAL_TIM_IC_CaptureCallback (Instance : TIM_Instance) (d : Display) (t : Timing)
    : outcome Timing :=
  match Instance with
  | TIM2 =>
      let t1 := set_PixelsCounter 0 t in
      v ← fb_load (PixelsCounter t1) d;
      t2 ← POV_IntervalsDisplay v t1;
      let t3 := set_Capture (to_u16 (TIM2_CCR1 t2)) t2 in
      let t4 := set_TimeDifference (elapsed_ticks (Capture t3) (ICU_TIM2_OVC t3)) t3 in
      let Period := IC_Period (TimeDifference t4) in
      let t5 := setTIM3InterruptPeriod Period t4 in
      let t6 := set_ICU_TIM2_OVC 0 t5 in
      Done (set_TIM2_CNT 0 t6)
  | _ => Done t
  end.

(** ** Runs of the two interrupt sources *)

Inductive irq : Type :=
| PeriodTick        (* TIM3 update: the Pacer's own tick *)
| CounterOverflow   (* TIM2 update: the tick counter wrapped *)
| ReferenceEvent.   (* TIM2 input capture: the rotation landmark *)

Definition handle_irq (d : Display) (e : irq) (t : Timing) : outcome Timing :=
  match e with
  | PeriodTick => HAL_TIM_PeriodElapsedCallback TIM3 d t
  | CounterOverflow => HAL_TIM_PeriodElapsedCallback TIM2 d t
  | ReferenceEvent => HAL_TIM_IC_CaptureCallback TIM2 d t
  end.

Fixpoint run_irqs (d : Display) (es : list irq) (t : Timing) : outcome Timing :=
  match es with
  | [] => Done t
  | e :: es' => t1 ← handle_irq d e t; run_irqs d es' t1
  end.

(** ** Sequences of the cursor-moving operations of the drawing engine *)

Inductive text_op : Type :=
| OpClear
| OpSetCursor (Pos : Z)
| OpWriteChar (Chr : Z)
| OpWriteCharInPos (Chr Pos : Z)
| OpWriteString (Str : list Z)
| OpWriteStringInPos (Str : list Z) (Pos : Z).

Definition run_text_op (o : text_op) (d : Display) : outcome Display :=
  match o with
  | OpClear => POV_Clear d
  | OpSetCursor Pos => POV_SetCursor Pos d
  | OpWriteChar Chr => POV_WriteChar Chr d
  | OpWriteCharInPos Chr Pos => POV_WriteCharInPos Chr Pos d
  | OpWriteString Str => POV_WriteString Str d
  | OpWriteStringInPos Str Pos => POV_WriteStringInPos Str Pos d
  end.

Fixpoint run_text_ops (os : list text_op) (d : Display) : outcome Display :=
  match os with
  | [] => Done d
  | o :: os' => d1 ← run_text_op o d; run_text_ops os' d1
  end.

(** The arguments a C caller can pass: [uint8_t] values. *)
Definition text_op_args_u8 (o : text_op) : Prop :=
  match o with
  | OpClear => True
  | OpSetCursor Pos => is_u8 Pos
  | OpWriteChar Chr => is_u8 Chr
  | OpWriteCharInPos Chr Pos => is_u8 Chr /\ is_u8 Pos
  | OpWriteString Str => Forall is_u8 Str
  | OpWriteStringInPos Str Pos => Forall is_u8 Str /\ is_u8 Pos
  end.

End Driver.

Arguments POVDigits RESOLUTION FONTSIZE : assert.

(** The globals at system start: zero-initialised statics. *)
Definition POV_initial (RESOLUTION : Z) : Display :=
  mkDisplay (replicate (Z.to_nat RESOLUTION) 0) 0 0.

(** ** Vocabulary of the statements *)

(** The framebuffer after columns [lo .. hi-1] were each replaced by [f]
    of the column index and its old value. *)
Definition columns_mapped (f : Z -> Z -> Z) (lo hi : Z) (d d' : Display) : Prop :=
  CursPos d' = CursPos d /\ PixelPos d' = PixelPos d /\
  length (PovDisplayData d') = length (PovDisplayData d) /\
  forall k : nat,
    PovDisplayData d' !! k =
    if (lo <=? Z.of_nat k) && (Z.of_nat k <? hi)
    then f (Z.of_nat k) <$> PovDisplayData d !! k
    else PovDisplayData d !! k.

(** The bytes of a C string literal (without the terminating NUL). *)
Definition c_string (s : string) : list Z :=
  map (fun c => Z.of_N (N_of_ascii c)) (list_ascii_of_string s).

(** What the cell of column [k] holds after a character was written with
    its first column at [p]: a glyph column, the blank spacing column, or
    what it held before. *)
Definition char_cell (FONTSIZE : Z) (POV_Font : Z -> Z -> Z) (Chr p k old : Z) : Z :=
  if (p <=? k) && (k <? p + FONTSIZE) then to_u8 (POV_Font (Chr - 32) (k - p))
  else if k =? p + FONTSIZE then 0
  else old.

(** The cursor names a character slot of the display. *)
Definition cursor_in_range (RESOLUTION FONTSIZE : Z) (d : Display) : Prop :=
  0 <= CursPos d < RESOLUTION / (FONTSIZE + 1).

(** What the text operations maintain: the declared framebuffer and a
    cursor on one of its character slots. *)
Definition text_inv (RESOLUTION FONTSIZE : Z) (d : Display) : Prop :=
  length (PovDisplayData d) = Z.to_nat RESOLUTION /\ cursor_in_range RESOLUTION FONTSIZE d.

(** The bits drawFrame sets in column [c] of the frame: rows [Row1] to
    [Row2] on the two vertical edges, rows [Row1] and [Row2] in between. *)
Definition frame_mask (Column1 Row1 Row2 Column2 c : Z) : Z :=
  if (c =? Column1) || (c =? Column2)
  then Z.shiftl (Z.ones (Row2 - Row1 + 1)) Row1
  else Z.lor (Z.shiftl 1 Row1) (Z.shiftl 1 Row2).

(** GPIO events appended to the trace. *)
Definition add_gpio (es : list gpio_event) (t : Timing) : Timing :=
  mkTiming (TimeDifference t) (Capture t) (ICU_TIM2_OVC t) (PixelsCounter t) (sysClockFreq t)
    (TIM2_CNT t) (TIM2_CCR1 t) (TIM3_CNT t) (TIM3_ARR t) (gpio t ++ es).

(** A column on the output lines: line [k] takes bit [k], lines in
    ascending order. *)
Definition column_pins (PIXELS v : Z) : list gpio_event :=
  (fun k => WritePin k (Z.testbit v k)) <$> seqZ 0 PIXELS.

(** The output of period ticks that emit columns [first .. first+count-1]:
    each column followed by the toggle of the debug line. *)
Definition sweep_trace (PIXELS : Z) (fb : list Z) (first count : Z) : list gpio_event :=
  concat ((fun k => column_pins PIXELS (default 0 (fb !! Z.to_nat k)) ++ [TogglePin_C13])
            <$> seqZ first count).

(** The start value of drawLine's error term, for [dx] and [dy] that fit
    [int8_t]: [(dx > dy ? dx : -dy) / 2]. *)
Definition line_err0 (DX DY : Z) : Z := (if DX >? DY then DX else - DY) ÷ 2.

(** Where the error term stays while the line is drawn: within the major
    axis' difference, on the side given by its start value. *)
Definition line_err_ok (DX DY err : Z) : Prop :=
  (DY < DX /\ 0 <= err < DX) \/ (DX <= DY /\ 0 < DY /\ - DY < err <= 0).

(** No bit of any column went from 1 to 0, and the cursor stayed. *)
Definition pixels_kept (d d' : Display) : Prop :=
  CursPos d' = CursPos d /\ PixelPos d' = PixelPos d /\
  length (PovDisplayData d') = length (PovDisplayData d) /\
  forall (k : nat) (v : Z), PovDisplayData d !! k = Some v ->
    exists v', PovDisplayData d' !! k = Some v' /\
      forall r, 0 <= r < 8 -> Z.testbit v r = true -> Z.testbit v' r = true.

(** ** A sample build

    POV_Display.h is not part of the sources; the theorems below hold for
    every build within the stated ranges.  Where a concrete build is
    needed to run the code, this one is used: 200 columns of 8 pixels, a
    5-column font of which only the glyphs of 'A' and 'B' are filled in. *)
Module Sample.

Definition RESOLUTION : Z := 200.
Definition PIXELS : Z := 8.
Definition FONTSIZE : Z := 5.

Definition glyph_A : list Z := [126; 17; 17; 17; 126].
Definition glyph_B : list Z := [127; 73; 73; 73; 54].

Definition POV_Font (c k : Z) : Z :=
  if c =? 33 then default 0 (glyph_A !! Z.to_nat k)
  else if c =? 34 then default 0 (glyph_B !! Z.to_nat k)
  else 0.

Definition blank : Display := POV_initial RESOLUTION.

(** A framebuffer with every pixel lit. *)
Definition lit : Display := mkDisplay (replicate (Z.to_nat RESOLUTION) 255) 0 0.

Definition idle (ovc ccr : Z) : Timing :=
  mkTiming 0 0 ovc 0 72 0 ccr 0 0 [].

End Sample.

(** ** Vocabulary of the further properties *)

(** How many of the interrupts of a run are overflows of the tick
    counter, and how many are period ticks. *)
Fixpoint count_overflows (es : list irq) : Z :=
  match es with
  | [] => 0
  | CounterOverflow :: es' => 1 + count_overflows es'
  | _ :: es' => count_overflows es'
  end.

Fixpoint count_ticks (es : list irq) : Z :=
  match es with
  | [] => 0
  | PeriodTick :: es' => 1 + count_ticks es'
  | _ :: es' => count_ticks es'
  end.

(** A stretch of interrupts between two reference events. *)
Definition no_reference (es : list irq) : Prop :=
  Forall (fun e => e <> ReferenceEvent) es.

(** The hardware latching the tick counter into the capture register. *)
Definition latch_capture (c : Z) (t : Timing) : Timing :=
  mkTiming (TimeDifference t) (Capture t) (ICU_TIM2_OVC t) (PixelsCounter t) (sysClockFreq t)
    (TIM2_CNT t) c (TIM3_CNT t) (TIM3_ARR t) (gpio t).

(** The fields of [Timing] that only the reference-event handler writes. *)
Definition same_measurement (t t' : Timing) : Prop :=
  TimeDifference t' = TimeDifference t /\ Capture t' = Capture t /\
  sysClockFreq t' = sysClockFreq t /\ TIM2_CNT t' = TIM2_CNT t /\
  TIM2_CCR1 t' = TIM2_CCR1 t /\ TIM3_CNT t' = TIM3_CNT t /\ TIM3_ARR t' = TIM3_ARR t.

(** drawLine's loop state after [a] column steps and [b] row steps from
    (c1, r1) towards (c2, r2). *)
Definition line_state_ok (c1 r1 c2 r2 a b err : Z) : Prop :=
  0 <= a <= Z.abs (c2 - c1) /\ 0 <= b <= Z.abs (r2 - r1) /\
  err = line_err0 (Z.abs (c2 - c1)) (Z.abs (r2 - r1))
        - a * Z.abs (r2 - r1) + b * Z.abs (c2 - c1) /\
  (line_err_ok (Z.abs (c2 - c1)) (Z.abs (r2 - r1)) err \/
   (Z.abs (c2 - c1) = 0 /\ Z.abs (r2 - r1) = 0)).

(** Column [c], row [r] lies in the rectangle spanned by two points. *)
Definition in_box (c1 r1 c2 r2 c r : Z) : Prop :=
  Z.min c1 c2 <= c <= Z.max c1 c2 /\ Z.min r1 r2 <= r <= Z.max r1 r2.

(** Every bit of [d'] is the bit of [d], except that bits inside the
    rectangle may have gone from 0 to 1; the cursor stayed. *)
Definition lit_within (c1 r1 c2 r2 : Z) (d d' : Display) : Prop :=
  CursPos d' = CursPos d /\ PixelPos d' = PixelPos d /\
  length (PovDisplayData d') = length (PovDisplayData d) /\
  forall (k : nat) (v : Z), PovDisplayData d !! k = Some v ->
    exists v', PovDisplayData d' !! k = Some v' /\
      forall r, 0 <= r < 8 ->
        Z.testbit v' r = Z.testbit v r \/
        (Z.testbit v' r = true /\ in_box c1 r1 c2 r2 (Z.of_nat k) r).

(** Case analysis on the integer comparisons of a guard. *)
Ltac zcases :=
  repeat match goal with
    | |- context [?a >? ?b] => rewrite (Z.gtb_ltb a b)
    | |- context [?a >=? ?b] => rewrite (Z.geb_leb a b)
    | |- context [?a <? ?b] => destruct (Z.ltb_spec a b)
    | |- context [?a <=? ?b] => destruct (Z.leb_spec a b)
    | |- context [?a =? ?b] => destruct (Z.eqb_spec a b)
    end;
  simpl; try lia.

(** * Basic facts *)

Section Facts.

Variable RESOLUTION : Z.

Lemma to_u8_small x : is_u8 x -> to_u8 x = x.
Proof. unfold is_u8, to_u8. intros. apply Z.mod_small. lia. Qed.

Lemma to_u8_is_u8 x : is_u8 (to_u8 x).
Proof. unfold is_u8, to_u8. apply Z.mod_pos_bound. lia. Qed.

Lemma to_u16_small x : is_u16 x -> to_u16 x = x.
Proof. unfold is_u16, to_u16. intros. apply Z.mod_small. lia. Qed.

Lemma to_i8_small x : -128 <= x <= 127 -> to_i8 x = x.
Proof. unfold to_i8. intros. rewrite Z.mod_small; lia. Qed.

(** The rule of the counted loop: an invariant [P] carried from [i] up
    to the first value [n] at which the guard fails. *)
Lemma for_u8_rule {S : Type} (P : Z -> S -> Prop) (cond : Z -> bool)
    (body : Z -> S -> outcome S) (n : Z) :
  n <= 255 ->
  forall (k : nat) (i : Z) (st : S) (fuel : nat),
    0 <= i -> i + Z.of_nat k = n -> (k < fuel)%nat ->
    (forall j, i <= j <= n -> cond j = true <-> j < n) ->
    (forall j s, i <= j < n -> P j s -> exists s', body j s = Done s' /\ P (j + 1) s') ->
    P i st ->
    exists st', for_u8 fuel cond body i st = Done st' /\ P n st'.
Proof.
  intros Hn k. induction k as [|k IH]; intros i st fuel Hi Hk Hfuel Hcond Hbody HP.
  - destruct fuel as [|fuel]; [lia|]. simpl.
    assert (i = n) by lia. subst i.
    destruct (cond n) eqn:E.
    + apply Hcond in E; lia.
    + eauto.
  - destruct fuel as [|fuel]; [lia|]. simpl.
    destruct (cond i) eqn:E.
    + destruct (Hbody i st) as (s' & Hs' & HP'); [lia|assumption|].
      rewrite Hs'. simpl.
      rewrite to_u8_small by (unfold is_u8; lia).
      apply IH; try lia; auto.
      * intros j Hj. apply Hcond. lia.
      * intros j s Hj. apply Hbody. lia.
    + assert (cond i = true) as E' by (apply Hcond; lia). congruence.
Qed.

(** From here on the loops are reasoned about through [for_u8_rule]. *)
#[global] Arguments for_u8 : simpl never.

(** Framebuffer accesses inside the array. *)
Lemma fb_load_Done i d :
  length (PovDisplayData d) = Z.to_nat RESOLUTION -> 0 <= i < RESOLUTION ->
  exists v, PovDisplayData d !! Z.to_nat i = Some v /\ fb_load RESOLUTION i d = Done v.
Proof.
  intros Hlen Hi. unfold fb_load.
  destruct (lookup_lt_is_Some_2 (PovDisplayData d) (Z.to_nat i)) as [v Hv]; [lia|].
  exists v. rewrite Hv.
  replace (0 <=? i) with true by (symmetry; apply Z.leb_le; lia).
  replace (i <? RESOLUTION) with true by (symmetry; apply Z.ltb_lt; lia).
  auto.
Qed.

Lemma fb_store_Done i v d :
  length (PovDisplayData d) = Z.to_nat RESOLUTION -> 0 <= i < RESOLUTION ->
  fb_store RESOLUTION i v d
  = Done (set_PovDisplayData (<[Z.to_nat i := to_u8 v]> (PovDisplayData d)) d).
Proof.
  intros Hlen Hi. unfold fb_store.
  destruct (lookup_lt_is_Some_2 (PovDisplayData d) (Z.to_nat i)) as [w Hw]; [lia|].
  rewrite Hw.
  replace (0 <=? i) with true by (symmetry; apply Z.leb_le; lia).
  replace (i <? RESOLUTION) with true by (symmetry; apply Z.ltb_lt; lia).
  reflexivity.
Qed.

Lemma fb_store_outside i v d : ~ (0 <= i < RESOLUTION) -> fb_store RESOLUTION i v d = Fault.
Proof.
  intros Hi. unfold fb_store.
  destruct (Z.leb_spec 0 i), (Z.ltb_spec i RESOLUTION); simpl; auto; lia.
Qed.

Lemma wf_display_store i v d :
  wf_display RESOLUTION d ->
  wf_display RESOLUTION (set_PovDisplayData (<[Z.to_nat i := to_u8 v]> (PovDisplayData d)) d).
Proof.
  intros [Hlen Hall]. split; simpl.
  - rewrite length_insert. exact Hlen.
  - apply Forall_insert; [exact Hall | apply to_u8_is_u8].
Qed.

Lemma wf_display_lookup d i v :
  wf_display RESOLUTION d -> PovDisplayData d !! i = Some v -> is_u8 v.
Proof. intros [_ Hall] Hv. exact (proj1 (Forall_lookup _ _) Hall i v Hv). Qed.

Lemma POV_initial_wf : wf_display RESOLUTION (POV_initial RESOLUTION).
Proof.
  split; simpl.
  - apply length_replicate.
  - apply Forall_replicate. unfold is_u8. lia.
Qed.

(** Bits of a column. *)
Lemma pixel_bit v r : 0 <= r -> Z.land (Z.shiftr v r) 1 = Z.b2z (Z.testbit v r).
Proof.
  intros Hr. change 1 with (Z.ones 1) at 1.
  rewrite Z.land_ones by lia. rewrite Z.shiftr_div_pow2 by lia.
  rewrite Z.testbit_spec' by lia. reflexivity.
Qed.

Lemma testbit_to_u8 v r : 0 <= r < 8 -> Z.testbit (to_u8 v) r = Z.testbit v r.
Proof. intros Hr. unfold to_u8. change 256 with (2 ^ 8). apply Z.mod_pow2_bits_low. lia. Qed.

Lemma testbit_to_u8_high v r : 8 <= r -> Z.testbit (to_u8 v) r = false.
Proof. intros Hr. unfold to_u8. change 256 with (2 ^ 8). apply Z.mod_pow2_bits_high. lia. Qed.

Lemma testbit_bit r k : 0 <= r -> 0 <= k -> Z.testbit (Z.shiftl 1 r) k = (k =? r).
Proof.
  intros Hr Hk. rewrite Z.shiftl_spec by lia.
  destruct (Z.eqb_spec k r) as [->|Hne].
  - rewrite Z.sub_diag. reflexivity.
  - destruct (Z.lt_ge_cases k r).
    + apply Z.testbit_neg_r. lia.
    + replace (k - r) with (Z.succ (k - r - 1)) by lia.
      change 1 with (2 * 0 + 1) at 1. rewrite Z.testbit_odd_succ by lia.
      apply Z.testbit_0_l.
Qed.

Lemma b2z_is_u8 b : to_u8 (Z.b2z b) = Z.b2z b.
Proof. destruct b; reflexivity. Qed.

End Facts.

(** * Pixels *)

Section Pixels.

Variables RESOLUTION PIXELS : Z.

Lemma ReadPixel_after_store Row Column w d :
  PIXELS <= 8 -> length (PovDisplayData d) = Z.to_nat RESOLUTION ->
  0 <= Row < PIXELS -> 0 <= Column < RESOLUTION ->
  POV_ReadPixel RESOLUTION PIXELS Row Column
    (set_PovDisplayData (<[Z.to_nat Column := to_u8 w]> (PovDisplayData d)) d)
  = Done (Z.b2z (Z.testbit w Row)).
Proof.
  intros HP Hlen HR HC. unfold POV_ReadPixel. zcases.
  unfold fb_load. zcases. simpl.
  rewrite list_lookup_insert_eq by lia. simpl.
  unfold ON. rewrite pixel_bit by lia.
  rewrite testbit_to_u8 by lia. rewrite b2z_is_u8. reflexivity.
Qed.

(** C3: a pixel written at valid coordinates is read back; at
    coordinates outside the display a read gives 0 and a write leaves
    the whole display as it was. *)
Theorem WritePixel_then_ReadPixel (Row Column State : Z) (d : Display) :
  PIXELS <= 8 -> wf_display RESOLUTION d -> is_u8 Row -> is_u8 Column ->
  (Row < PIXELS -> Column < RESOLUTION -> State = ON \/ State = OFF ->
   exists d',
     POV_WritePixel RESOLUTION PIXELS Row Column State d = Done d' /\
     POV_ReadPixel RESOLUTION PIXELS Row Column d' = Done State) /\
  (Row >= PIXELS \/ Column >= RESOLUTION ->
   POV_ReadPixel RESOLUTION PIXELS Row Column d = Done 0 /\
   POV_WritePixel RESOLUTION PIXELS Row Column State d = Done d).
Proof.
  intros HP [Hlen Hall] [HR0 HR1] [HC0 HC1]. split.
  - intros HR HC HS.
    destruct (fb_load_Done RESOLUTION Column d Hlen) as (v & Hv & Hload); [lia|].
    unfold POV_WritePixel. rewrite Hload. simpl.
    rewrite !fb_store_Done by (auto; lia).
    destruct HS as [-> | ->]; unfold ON, OFF; zcases.
    + eexists; split; [reflexivity|].
      rewrite ReadPixel_after_store by (auto; lia).
      rewrite Z.lor_spec, testbit_bit by lia.
      rewrite Z.eqb_refl, orb_true_r. reflexivity.
    + eexists; split; [reflexivity|].
      rewrite ReadPixel_after_store by (auto; lia).
      rewrite Z.land_spec, Z.lnot_spec, testbit_bit by lia.
      rewrite Z.eqb_refl, andb_false_r. reflexivity.
  - intros Hout. unfold POV_ReadPixel, POV_WritePixel. split.
    + destruct Hout; zcases; reflexivity.
    + destruct Hout; zcases; rewrite ?andb_false_r; reflexivity.
Qed.

End Pixels.

Lemma sample_blank_wf : wf_display Sample.RESOLUTION Sample.blank.
Proof. apply POV_initial_wf. Qed.

Lemma sample_lit_wf : wf_display Sample.RESOLUTION Sample.lit.
Proof. split; [reflexivity | apply Forall_replicate; unfold is_u8; lia]. Qed.

Lemma WritePixel_then_ReadPixel_witness :
  (exists d',
     POV_WritePixel Sample.RESOLUTION Sample.PIXELS 3 7 ON Sample.blank = Done d' /\
     POV_ReadPixel Sample.RESOLUTION Sample.PIXELS 3 7 d' = Done ON) /\
  POV_ReadPixel Sample.RESOLUTION Sample.PIXELS 8 7 Sample.lit = Done 0 /\
  POV_WritePixel Sample.RESOLUTION Sample.PIXELS 8 7 ON Sample.lit = Done Sample.lit.
Proof.
  split.
  - apply (WritePixel_then_ReadPixel Sample.RESOLUTION Sample.PIXELS 3 7 ON Sample.blank);
      unfold is_u8, Sample.PIXELS, Sample.RESOLUTION; try lia; auto using sample_blank_wf.
  - apply (WritePixel_then_ReadPixel Sample.RESOLUTION Sample.PIXELS 8 7 ON Sample.lit);
      unfold is_u8, Sample.PIXELS, Sample.RESOLUTION; try lia; auto using sample_lit_wf.
Defined.

(** * Loops that rewrite one column per round *)

Section ColumnLoops.

Variable RESOLUTION : Z.

Lemma for_u8_columns (f : Z -> Z -> Z) (cond : Z -> bool)
    (body : Z -> Display -> outcome Display) (lo hi : Z) (d : Display) :
  0 <= lo <= hi -> hi <= 255 -> hi <= RESOLUTION ->
  length (PovDisplayData d) = Z.to_nat RESOLUTION ->
  (forall j, lo <= j <= hi -> cond j = true <-> j < hi) ->
  (forall j s, lo <= j < hi ->
     length (PovDisplayData s) = Z.to_nat RESOLUTION ->
     exists v, PovDisplayData s !! Z.to_nat j = Some v /\
       body j s = Done (set_PovDisplayData (<[Z.to_nat j := f j v]> (PovDisplayData s)) s)) ->
  exists d', for_u8 u8_fuel cond body lo d = Done d' /\ columns_mapped f lo hi d d'.
Proof.
  intros Hlo Hhi Hres Hlen Hcond Hbody.
  apply (for_u8_rule (fun i s => columns_mapped f lo i d s) cond body hi Hhi
           (Z.to_nat (hi - lo)) lo d u8_fuel); try (unfold u8_fuel; lia); auto.
  - intros j s Hj (HC & HP & HL & Hk).
    destruct (Hbody j s) as (v & Hv & Hb); [lia | lia |].
    rewrite Hb. eexists; split; [reflexivity|].
    repeat split; simpl; auto.
    + rewrite length_insert. exact HL.
    + intros k. destruct (decide (k = Z.to_nat j)) as [->|Hne].
      * rewrite list_lookup_insert_eq by lia.
        rewrite Z2Nat.id by lia.
        pose proof (Hk (Z.to_nat j)) as Hkj. rewrite Z2Nat.id in Hkj by lia.
        replace (j <? j) with false in Hkj by (symmetry; apply Z.ltb_ge; lia).
        rewrite andb_false_r in Hkj. rewrite <- Hkj, Hv.
        replace (lo <=? j) with true by (symmetry; apply Z.leb_le; lia).
        replace (j <? j + 1) with true by (symmetry; apply Z.ltb_lt; lia).
        reflexivity.
      * rewrite list_lookup_insert_ne by auto. rewrite Hk.
        replace (Z.of_nat k <? j + 1) with (Z.of_nat k <? j); [reflexivity|].
        destruct (Z.ltb_spec (Z.of_nat k) j), (Z.ltb_spec (Z.of_nat k) (j + 1)); auto; lia.
  - repeat split; auto. intros k.
    destruct (Z.leb_spec lo (Z.of_nat k)), (Z.ltb_spec (Z.of_nat k) lo); simpl; auto; lia.
Qed.

End ColumnLoops.

(** * Whole-framebuffer operations: invert, clear, bitmap *)

Section WholeBuffer.

Variable RESOLUTION : Z.

Lemma display_eq (d d' : Display) :
  PovDisplayData d' = PovDisplayData d -> CursPos d' = CursPos d ->
  PixelPos d' = PixelPos d -> d' = d.
Proof. destruct d, d'; simpl; intros; subst; reflexivity. Qed.

Lemma columns_mapped_wf f lo hi d d' :
  (forall j v, is_u8 (f j v)) ->
  wf_display RESOLUTION d -> columns_mapped f lo hi d d' -> wf_display RESOLUTION d'.
Proof.
  intros Hf [Hlen Hall] (_ & _ & HL & Hk). split; [congruence|].
  apply Forall_lookup. intros k v Hv. rewrite Hk in Hv.
  destruct ((lo <=? Z.of_nat k) && (Z.of_nat k <? hi)).
  - destruct (PovDisplayData d !! k); simpl in Hv; [|discriminate].
    injection Hv as <-. apply Hf.
  - exact (proj1 (Forall_lookup _ _) Hall k v Hv).
Qed.

Lemma lnot_u8_involutive v : is_u8 v -> to_u8 (Z.lnot (to_u8 (Z.lnot v))) = v.
Proof.
  unfold is_u8, to_u8, Z.lnot. intros Hv.
  replace (Z.pred (- v)) with (255 - v + (-1) * 256) by lia.
  rewrite Z_mod_plus_full. rewrite (Z.mod_small (255 - v)) by lia.
  replace (Z.pred (- (255 - v))) with (v + (-1) * 256) by lia.
  rewrite Z_mod_plus_full. apply Z.mod_small. lia.
Qed.

Lemma InvertDisplay_columns d :
  0 <= RESOLUTION <= 255 -> length (PovDisplayData d) = Z.to_nat RESOLUTION ->
  exists d', POV_InvertDisplay RESOLUTION d = Done d' /\
             columns_mapped (fun _ v => to_u8 (Z.lnot v)) 0 RESOLUTION d d'.
Proof.
  intros HR Hlen. unfold POV_InvertDisplay.
  apply (for_u8_columns RESOLUTION); try lia.
  intros j s Hj Hs. unfold Invert_body.
  destruct (fb_load_Done RESOLUTION j s Hs) as (v & Hv & Hload); [lia|].
  exists v. split; [exact Hv|]. rewrite Hload. simpl.
  apply fb_store_Done; auto; lia.
Qed.

(** C8: inverting twice gives back the display, column for column. *)
Theorem InvertDisplay_twice (d : Display) :
  0 <= RESOLUTION <= 255 -> wf_display RESOLUTION d ->
  exists d1, POV_InvertDisplay RESOLUTION d = Done d1 /\
             POV_InvertDisplay RESOLUTION d1 = Done d.
Proof.
  intros HR Hwf. pose proof Hwf as [Hlen Hall].
  destruct (InvertDisplay_columns d HR Hlen) as (d1 & H1 & M1).
  pose proof M1 as (HC1 & HP1 & HL1 & Hk1).
  destruct (InvertDisplay_columns d1 HR) as (d2 & H2 & (HC2 & HP2 & HL2 & Hk2)); [congruence|].
  exists d1. split; [exact H1|]. rewrite H2. f_equal.
  apply display_eq; try congruence.
  apply list_eq. intros k. rewrite Hk2, Hk1.
  destruct ((0 <=? Z.of_nat k) && (Z.of_nat k <? RESOLUTION)); [|reflexivity].
  destruct (PovDisplayData d !! k) as [v|] eqn:Hv; simpl; [|reflexivity].
  f_equal. apply lnot_u8_involutive. eapply wf_display_lookup; eauto.
Qed.

End WholeBuffer.

Lemma InvertDisplay_twice_witness :
  exists d1, POV_InvertDisplay Sample.RESOLUTION Sample.blank = Done d1 /\
             POV_InvertDisplay Sample.RESOLUTION d1 = Done Sample.blank.
Proof.
  apply (InvertDisplay_twice Sample.RESOLUTION Sample.blank).
  - unfold Sample.RESOLUTION. lia.
  - exact sample_blank_wf.
Defined.

Section Bitmap.

Variable RESOLUTION : Z.

Lemma DrawBitmap_columns data BitmapSize d :
  0 <= BitmapSize <= 255 -> BitmapSize <= RESOLUTION ->
  (Z.to_nat BitmapSize <= length data)%nat ->
  length (PovDisplayData d) = Z.to_nat RESOLUTION ->
  exists d', POV_DrawBitmap RESOLUTION (Some data) BitmapSize d = Done d' /\
    columns_mapped (fun j _ => to_u8 (default 0 (data !! Z.to_nat j))) 0 BitmapSize d d'.
Proof.
  intros HS HR Hdata Hlen. unfold POV_DrawBitmap.
  replace (BitmapSize <=? RESOLUTION) with true by (symmetry; apply Z.leb_le; lia).
  apply (for_u8_columns RESOLUTION); try lia.
  intros j s Hj Hs. unfold DrawBitmap_body.
  destruct (fb_load_Done RESOLUTION j s Hs) as (v & Hv & _); [lia|].
  exists v. split; [exact Hv|].
  destruct (lookup_lt_is_Some_2 data (Z.to_nat j)) as [w Hw]; [lia|].
  rewrite Hw. simpl. apply fb_store_Done; auto; lia.
Qed.

(** C4, as amended: a valid call copies [BitmapSize] columns from the
    bitmap to columns 0 .. BitmapSize-1 and leaves every later column,
    and the cursor, as they were; with a NULL bitmap or a size above
    RESOLUTION nothing changes. *)
Theorem DrawBitmap_effect (MyBitmap : option (list Z)) (BitmapSize : Z) (d : Display) :
  is_u8 BitmapSize -> length (PovDisplayData d) = Z.to_nat RESOLUTION ->
  (forall data, MyBitmap = Some data -> BitmapSize <= RESOLUTION ->
     (Z.to_nat BitmapSize <= length data)%nat -> Forall is_u8 data ->
     exists d', POV_DrawBitmap RESOLUTION MyBitmap BitmapSize d = Done d' /\
       PovDisplayData d' =
         take (Z.to_nat BitmapSize) data ++ drop (Z.to_nat BitmapSize) (PovDisplayData d) /\
       CursPos d' = CursPos d /\ PixelPos d' = PixelPos d) /\
  (MyBitmap = None \/ BitmapSize > RESOLUTION ->
     POV_DrawBitmap RESOLUTION MyBitmap BitmapSize d = Done d).
Proof.
  intros [HS0 HS1] Hlen. split.
  - intros data -> HR Hdata Hbytes.
    destruct (DrawBitmap_columns data BitmapSize d) as (d' & Hrun & HC & HP & HL & Hk);
      try lia; auto.
    exists d'. repeat split; auto.
    apply list_eq. intros k. rewrite Hk.
    replace (0 <=? Z.of_nat k) with true by (symmetry; apply Z.leb_le; lia).
    destruct (Z.ltb_spec (Z.of_nat k) BitmapSize) as [Hlt|Hge]; simpl.
    + rewrite lookup_app_l by (rewrite length_take; lia).
      rewrite lookup_take_lt by lia. rewrite Nat2Z.id.
      destruct (lookup_lt_is_Some_2 data k) as [w Hw]; [lia|].
      destruct (lookup_lt_is_Some_2 (PovDisplayData d) k) as [v Hv]; [lia|].
      rewrite Hw, Hv. simpl. f_equal. apply to_u8_small.
      exact (proj1 (Forall_lookup _ _) Hbytes k w Hw).
    + rewrite lookup_app_r by (rewrite length_take; lia).
      rewrite lookup_drop. rewrite length_take. f_equal. lia.
  - intros [-> | Hbig]; [reflexivity|].
    unfold POV_DrawBitmap. destruct MyBitmap; [|reflexivity].
    replace (BitmapSize <=? RESOLUTION) with false by (symmetry; apply Z.leb_gt; lia).
    reflexivity.
Qed.

End Bitmap.

Lemma DrawBitmap_effect_witness :
  (exists d', POV_DrawBitmap Sample.RESOLUTION (Some [1; 2; 3]) 3 Sample.lit = Done d' /\
     PovDisplayData d' = take 3 [1; 2; 3] ++ drop 3 (PovDisplayData Sample.lit) /\
     CursPos d' = CursPos Sample.lit /\ PixelPos d' = PixelPos Sample.lit) /\
  POV_DrawBitmap Sample.RESOLUTION None 3 Sample.lit = Done Sample.lit.
Proof.
  split.
  - apply (DrawBitmap_effect Sample.RESOLUTION (Some [1; 2; 3]) 3 Sample.lit);
      unfold is_u8, Sample.RESOLUTION; simpl; try lia; auto.
    repeat constructor; lia.
  - apply (DrawBitmap_effect Sample.RESOLUTION None 3 Sample.lit);
      unfold is_u8, Sample.RESOLUTION; simpl; try lia; auto.
Defined.

(** C4 as stated fails: the columns behind the bitmap are kept.  Three
    columns drawn over a fully lit framebuffer leave columns 3 .. 199 lit. *)
Lemma DrawBitmap_keeps_trailing_columns :
  exists d', POV_DrawBitmap Sample.RESOLUTION (Some [1; 2; 3]) 3 Sample.lit = Done d' /\
    drop 3 (PovDisplayData d') = drop 3 (PovDisplayData Sample.lit) /\
    drop 3 (PovDisplayData d') = replicate 197 255.
Proof. eexists. split; [vm_compute; reflexivity|]. split; reflexivity. Qed.

(** * Text *)

Section Text.

Variables RESOLUTION FONTSIZE : Z.
Variable POV_Font : Z -> Z -> Z.

Let slots : Z := RESOLUTION / (FONTSIZE + 1).

Lemma slots_facts :
  0 <= FONTSIZE -> FONTSIZE + 1 <= RESOLUTION <= 255 ->
  RESOLUTION ÷ (FONTSIZE + 1) = slots /\ POVDigits RESOLUTION FONTSIZE = slots /\
  1 <= slots <= 255 /\ slots * (FONTSIZE + 1) <= RESOLUTION.
Proof.
  intros HF HR. unfold POVDigits, slots.
  rewrite Z.quot_div_nonneg by lia.
  pose proof (Z.mul_div_le RESOLUTION (FONTSIZE + 1)) as Hle.
  assert (1 <= RESOLUTION / (FONTSIZE + 1)) by (apply Z.div_le_lower_bound; lia).
  assert (RESOLUTION / (FONTSIZE + 1) <= 255) by (apply Z.div_le_upper_bound; nia).
  repeat split; try lia.
  apply to_u8_small. unfold is_u8. lia.
Qed.

Lemma cursor_column_bound c :
  0 <= FONTSIZE -> FONTSIZE + 1 <= RESOLUTION <= 255 -> 0 <= c < slots ->
  0 <= c * (FONTSIZE + 1) /\ c * (FONTSIZE + 1) + FONTSIZE < RESOLUTION.
Proof.
  intros HF HR Hc. destruct (slots_facts HF HR) as (_ & _ & Hs & Hm). nia.
Qed.

Lemma WriteChar_spec Chr d :
  0 <= FONTSIZE -> FONTSIZE + 1 <= RESOLUTION <= 255 ->
  length (PovDisplayData d) = Z.to_nat RESOLUTION ->
  cursor_in_range RESOLUTION FONTSIZE d ->
  exists d', POV_WriteChar RESOLUTION FONTSIZE POV_Font Chr d = Done d' /\
    CursPos d' = (CursPos d + 1) mod slots /\
    PixelPos d' = CursPos d * (FONTSIZE + 1) + FONTSIZE /\
    length (PovDisplayData d') = length (PovDisplayData d) /\
    forall k : nat,
      PovDisplayData d' !! k =
      char_cell FONTSIZE POV_Font Chr (CursPos d * (FONTSIZE + 1)) (Z.of_nat k)
        <$> PovDisplayData d !! k.
Proof.
  intros HF HR Hlen Hc. unfold cursor_in_range in Hc. fold slots in Hc.
  destruct (slots_facts HF HR) as (Hq & HD & Hs & Hm).
  destruct (cursor_column_bound (CursPos d) HF HR Hc) as [Hp0 Hp1].
  set (p := CursPos d * (FONTSIZE + 1)) in *.
  unfold POV_WriteChar. fold p.
  rewrite (to_u8_small p) by (unfold is_u8; lia).
  (* the glyph loop *)
  destruct (for_u8_rule
    (fun i s => CursPos s = CursPos d /\ PixelPos s = p + i /\
       length (PovDisplayData s) = length (PovDisplayData d) /\
       forall k : nat, PovDisplayData s !! k =
         if (p <=? Z.of_nat k) && (Z.of_nat k <? p + i)
         then Some (to_u8 (POV_Font (Chr - 32) (Z.of_nat k - p)))
         else PovDisplayData d !! k)
    (fun PixelsCount => PixelsCount <? FONTSIZE)
    (WriteChar_body RESOLUTION POV_Font Chr) FONTSIZE ltac:(lia)
    (Z.to_nat FONTSIZE) 0 (set_PixelPos p d) u8_fuel)
    as (d1 & Hloop & HC1 & HP1 & HL1 & Hk1); try (unfold u8_fuel; lia).
  - intros j s Hj (HCs & HPs & HLs & Hks). unfold WriteChar_body.
    rewrite fb_store_Done by (rewrite ?HPs; lia). simpl.
    eexists; split; [reflexivity|]. simpl. repeat split; auto.
    + rewrite HPs. rewrite Z.rem_mod_nonneg by lia.
      rewrite Z.mod_small by lia. rewrite to_u8_small by (unfold is_u8; lia). lia.
    + rewrite length_insert. exact HLs.
    + intros k. rewrite HPs.
      destruct (decide (k = Z.to_nat (p + j))) as [->|Hne].
      * rewrite list_lookup_insert_eq by lia. rewrite Z2Nat.id by lia.
        replace (p <=? p + j) with true by (symmetry; apply Z.leb_le; lia).
        replace (p + j <? p + (j + 1)) with true by (symmetry; apply Z.ltb_lt; lia).
        simpl. repeat f_equal. lia.
      * rewrite list_lookup_insert_ne by auto. rewrite Hks.
        replace (Z.of_nat k <? p + (j + 1)) with (Z.of_nat k <? p + j); [reflexivity|].
        destruct (Z.ltb_spec (Z.of_nat k) (p + j)), (Z.ltb_spec (Z.of_nat k) (p + (j + 1)));
          auto; lia.
  - simpl. repeat split; auto; try lia. intros k.
    replace (Z.of_nat k <? p + 0) with (Z.of_nat k <? p) by (f_equal; lia).
    destruct (Z.leb_spec p (Z.of_nat k)), (Z.ltb_spec (Z.of_nat k) p); simpl; auto; lia.
  - (* the spacing column and the cursor *)
    rewrite Hloop. simpl.
    rewrite fb_store_Done by (rewrite ?HP1; lia). simpl.
    rewrite HD. replace (slots =? 0) with false by (symmetry; apply Z.eqb_neq; lia).
    eexists; split; [reflexivity|]. simpl. repeat split; auto.
    + rewrite HC1. rewrite Z.rem_mod_nonneg by lia.
      apply to_u8_small. unfold is_u8.
      pose proof (Z.mod_pos_bound (CursPos d + 1) slots). lia.
    + rewrite length_insert. exact HL1.
    + intros k. rewrite HP1. unfold char_cell.
      destruct (decide (k = Z.to_nat (p + FONTSIZE))) as [->|Hne].
      * rewrite list_lookup_insert_eq by lia. rewrite Z2Nat.id by lia.
        destruct (lookup_lt_is_Some_2 (PovDisplayData d) (Z.to_nat (p + FONTSIZE)))
          as [v Hv]; [lia|].
        rewrite Hv. simpl.
        replace (p + FONTSIZE <? p + FONTSIZE) with false by (symmetry; apply Z.ltb_ge; lia).
        rewrite andb_false_r, Z.eqb_refl. reflexivity.
      * rewrite list_lookup_insert_ne by auto. rewrite Hk1.
        destruct ((p <=? Z.of_nat k) && (Z.of_nat k <? p + FONTSIZE)) eqn:E.
        -- destruct (lookup_lt_is_Some_2 (PovDisplayData d) k) as [v Hv].
           { apply andb_true_iff in E as [_ E]. apply Z.ltb_lt in E. lia. }
           rewrite Hv. reflexivity.
        -- replace (Z.of_nat k =? p + FONTSIZE) with false by (symmetry; apply Z.eqb_neq; lia).
           destruct (PovDisplayData d !! k); reflexivity.
Qed.

Lemma WriteChar_column Chr d d' (k v : Z) :
  (forall n : nat, PovDisplayData d' !! n =
     char_cell FONTSIZE POV_Font Chr (CursPos d * (FONTSIZE + 1)) (Z.of_nat n)
       <$> PovDisplayData d !! n) ->
  0 <= k -> PovDisplayData d !! Z.to_nat k = Some v ->
  PovDisplayData d' !! Z.to_nat k
  = Some (char_cell FONTSIZE POV_Font Chr (CursPos d * (FONTSIZE + 1)) k v).
Proof. intros Hk Hk0 Hv. rewrite Hk, Hv, Z2Nat.id by lia. reflexivity. Qed.

(** C9: "AB" written from slot 0 fills columns 0 .. 2*FONTSIZE+1 with
    the glyph of 'A', a blank column, the glyph of 'B', a blank column;
    the other columns keep their contents and the cursor ends at slot 2
    modulo the slot count. *)
Theorem WriteString_AB (d : Display) :
  0 <= FONTSIZE -> 2 * (FONTSIZE + 1) <= RESOLUTION <= 255 ->
  (forall c k, is_u8 (POV_Font c k)) ->
  length (PovDisplayData d) = Z.to_nat RESOLUTION ->
  CursPos d = 0 ->
  exists d',
    POV_WriteString RESOLUTION FONTSIZE POV_Font (c_string "AB") d = Done d' /\
    (forall k, 0 <= k < FONTSIZE ->
       PovDisplayData d' !! Z.to_nat k = Some (POV_Font (65 - 32) k)) /\
    PovDisplayData d' !! Z.to_nat FONTSIZE = Some 0 /\
    (forall k, 0 <= k < FONTSIZE ->
       PovDisplayData d' !! Z.to_nat (FONTSIZE + 1 + k) = Some (POV_Font (66 - 32) k)) /\
    PovDisplayData d' !! Z.to_nat (2 * FONTSIZE + 1) = Some 0 /\
    (forall k, 2 * (FONTSIZE + 1) <= k ->
       PovDisplayData d' !! Z.to_nat k = PovDisplayData d !! Z.to_nat k) /\
    length (PovDisplayData d') = length (PovDisplayData d) /\
    CursPos d' = 2 mod (RESOLUTION / (FONTSIZE + 1)).
Proof.
  intros HF HR Hfont Hlen Hc0.
  destruct (slots_facts HF ltac:(lia)) as (Hq & HD & Hs & Hm).
  assert (2 <= slots) as Hs2 by (apply Z.div_le_lower_bound; lia).
  destruct (WriteChar_spec 65 d HF ltac:(lia) Hlen) as (d1 & Hw1 & HC1 & _ & HL1 & Hk1).
  { unfold cursor_in_range. fold slots. lia. }
  rewrite Hc0 in HC1. simpl in HC1. rewrite Z.mod_small in HC1 by lia.
  destruct (WriteChar_spec 66 d1 HF ltac:(lia)) as (d2 & Hw2 & HC2 & _ & HL2 & Hk2).
  { congruence. }
  { unfold cursor_in_range. fold slots. lia. }
  exists d2. split.
  { change (c_string "AB") with [65; 66]. simpl. rewrite Hw1. simpl. rewrite Hw2. reflexivity. }
  assert (forall k, 0 <= k < RESOLUTION ->
            exists v, PovDisplayData d !! Z.to_nat k = Some v) as Hcol.
  { intros k Hk. apply lookup_lt_is_Some_2. lia. }
  assert (forall k v, 0 <= k -> PovDisplayData d !! Z.to_nat k = Some v ->
            PovDisplayData d2 !! Z.to_nat k =
            Some (char_cell FONTSIZE POV_Font 66 (FONTSIZE + 1) k
                    (char_cell FONTSIZE POV_Font 65 0 k v))) as Hcell.
  { intros k v Hk Hv.
    pose proof (WriteChar_column 65 d d1 k v Hk1 Hk Hv) as H1.
    pose proof (WriteChar_column 66 d1 d2 k _ Hk2 Hk H1) as H2.
    rewrite H2, HC1, Hc0. repeat f_equal; lia. }
  repeat split.
  - intros k Hk. destruct (Hcol k) as [v Hv]; [lia|].
    rewrite (Hcell k v) by (auto; lia). f_equal. unfold char_cell.
    zcases; rewrite to_u8_small by apply Hfont; f_equal; lia.
  - destruct (Hcol FONTSIZE) as [v Hv]; [lia|].
    rewrite (Hcell FONTSIZE v) by (auto; lia). f_equal. unfold char_cell.
    zcases; reflexivity.
  - intros k Hk. destruct (Hcol (FONTSIZE + 1 + k)) as [v Hv]; [lia|].
    rewrite (Hcell _ v) by (auto; lia). f_equal. unfold char_cell.
    zcases; rewrite to_u8_small by apply Hfont; f_equal; lia.
  - destruct (Hcol (2 * FONTSIZE + 1)) as [v Hv]; [lia|].
    rewrite (Hcell _ v) by (auto; lia). f_equal. unfold char_cell.
    zcases; reflexivity.
  - intros k Hk. rewrite Hk2, Hk1, HC1, Hc0. rewrite Z2Nat.id by lia.
    destruct (PovDisplayData d !! Z.to_nat k); [|reflexivity]. simpl. f_equal.
    unfold char_cell. zcases; reflexivity.
  - congruence.
  - rewrite HC2, HC1. reflexivity.
Qed.

(** ** The cursor invariant *)

Lemma SetCursor_inv Pos d :
  0 <= FONTSIZE -> FONTSIZE + 1 <= RESOLUTION <= 255 -> 0 <= Pos ->
  text_inv RESOLUTION FONTSIZE d ->
  exists d', POV_SetCursor RESOLUTION FONTSIZE Pos d = Done d' /\
             text_inv RESOLUTION FONTSIZE d'.
Proof.
  intros HF HR HP [Hlen Hc]. destruct (slots_facts HF HR) as (Hq & _).
  unfold POV_SetCursor. rewrite Hq, Z.gtb_ltb.
  destruct (Z.ltb_spec Pos slots).
  - eexists; split; [reflexivity|]. split; simpl; auto.
    unfold cursor_in_range; simpl. fold slots. lia.
  - eexists; split; [reflexivity|]. split; auto.
Qed.

Lemma Clear_inv d :
  0 <= FONTSIZE -> FONTSIZE + 1 <= RESOLUTION <= 255 ->
  length (PovDisplayData d) = Z.to_nat RESOLUTION ->
  exists d', POV_Clear RESOLUTION d = Done d' /\ text_inv RESOLUTION FONTSIZE d' /\
    CursPos d' = 0 /\ PovDisplayData d' = replicate (Z.to_nat RESOLUTION) 0.
Proof.
  intros HF HR Hlen. destruct (slots_facts HF HR) as (_ & _ & Hs & _).
  unfold POV_Clear.
  destruct (for_u8_columns RESOLUTION (fun _ _ => 0)
              (fun PixelsCount => PixelsCount <? RESOLUTION)
              (fun PixelsCount d => fb_store RESOLUTION PixelsCount 0 d) 0 RESOLUTION d)
    as (d1 & Hloop & _ & _ & HL & Hk); try lia; auto.
  { intros j s Hj Hs'.
    destruct (fb_load_Done RESOLUTION j s Hs') as (v & Hv & _); [lia|].
    exists v. split; [exact Hv|]. apply fb_store_Done; auto. }
  rewrite Hloop. simpl. eexists; split; [reflexivity|].
  assert (PovDisplayData d1 = replicate (Z.to_nat RESOLUTION) 0) as Hz.
  { apply list_eq. intros k. rewrite Hk.
    destruct (Nat.lt_ge_cases k (Z.to_nat RESOLUTION)) as [Hlt|Hge].
    - rewrite lookup_replicate_2 by lia.
      destruct (lookup_lt_is_Some_2 (PovDisplayData d) k) as [v Hv]; [lia|].
      rewrite Hv. zcases; reflexivity.
    - rewrite (proj1 (lookup_replicate_None _ _ _)) by lia.
      rewrite (lookup_ge_None_2 (PovDisplayData d) k) by lia.
      destruct ((0 <=? Z.of_nat k) && (Z.of_nat k <? RESOLUTION)); reflexivity. }
  repeat split; simpl; auto; try congruence; fold slots; lia.
Qed.

Lemma WriteChar_inv Chr d :
  0 <= FONTSIZE -> FONTSIZE + 1 <= RESOLUTION <= 255 ->
  text_inv RESOLUTION FONTSIZE d ->
  exists d', POV_WriteChar RESOLUTION FONTSIZE POV_Font Chr d = Done d' /\
             text_inv RESOLUTION FONTSIZE d'.
Proof.
  intros HF HR [Hlen Hc]. destruct (slots_facts HF HR) as (_ & _ & Hs & _).
  destruct (WriteChar_spec Chr d HF HR Hlen Hc) as (d' & Hw & HC & _ & HL & _).
  exists d'. split; [exact Hw|]. split; [congruence|].
  unfold cursor_in_range. fold slots. rewrite HC. apply Z.mod_pos_bound. lia.
Qed.

Lemma WriteCharInPos_inv Chr Pos d :
  0 <= FONTSIZE -> FONTSIZE + 1 <= RESOLUTION <= 255 -> 0 <= Pos ->
  text_inv RESOLUTION FONTSIZE d ->
  exists d', POV_WriteCharInPos RESOLUTION FONTSIZE POV_Font Chr Pos d = Done d' /\
             text_inv RESOLUTION FONTSIZE d'.
Proof.
  intros HF HR HP Hinv. unfold POV_WriteCharInPos.
  destruct (RESOLUTION ÷ (FONTSIZE + 1) >? Pos); [|eauto].
  destruct (SetCursor_inv Pos d HF HR HP Hinv) as (d1 & H1 & Hinv1).
  rewrite H1. simpl. apply WriteChar_inv; auto.
Qed.

Lemma WriteString_inv Str : forall d,
  0 <= FONTSIZE -> FONTSIZE + 1 <= RESOLUTION <= 255 ->
  text_inv RESOLUTION FONTSIZE d ->
  exists d', POV_WriteString RESOLUTION FONTSIZE POV_Font Str d = Done d' /\
             text_inv RESOLUTION FONTSIZE d'.
Proof.
  induction Str as [|c Str IH]; intros d HF HR Hinv; simpl; [eauto|].
  destruct (c =? 0); [eauto|].
  destruct (WriteChar_inv c d HF HR Hinv) as (d1 & H1 & Hinv1).
  rewrite H1. simpl. apply IH; auto.
Qed.

Lemma WriteStringInPos_inv Str Pos d :
  0 <= FONTSIZE -> FONTSIZE + 1 <= RESOLUTION <= 255 -> 0 <= Pos ->
  text_inv RESOLUTION FONTSIZE d ->
  exists d', POV_WriteStringInPos RESOLUTION FONTSIZE POV_Font Str Pos d = Done d' /\
             text_inv RESOLUTION FONTSIZE d'.
Proof.
  intros HF HR HP Hinv. unfold POV_WriteStringInPos.
  destruct (SetCursor_inv Pos d HF HR HP Hinv) as (d1 & H1 & Hinv1).
  rewrite H1. simpl. apply WriteString_inv; auto.
Qed.

Lemma run_text_op_inv o d :
  0 <= FONTSIZE -> FONTSIZE + 1 <= RESOLUTION <= 255 -> text_op_args_u8 o ->
  text_inv RESOLUTION FONTSIZE d ->
  exists d', run_text_op RESOLUTION FONTSIZE POV_Font o d = Done d' /\
             text_inv RESOLUTION FONTSIZE d'.
Proof.
  intros HF HR Hargs Hinv. destruct o; simpl in *; unfold is_u8 in *.
  - destruct (Clear_inv d HF HR (proj1 Hinv)) as (d' & H & Hinv' & _). eauto.
  - apply SetCursor_inv; auto; lia.
  - apply WriteChar_inv; auto.
  - apply WriteCharInPos_inv; auto; lia.
  - apply WriteString_inv; auto.
  - apply WriteStringInPos_inv; auto; lia.
Qed.

Lemma run_text_ops_inv os : forall d,
  0 <= FONTSIZE -> FONTSIZE + 1 <= RESOLUTION <= 255 -> Forall text_op_args_u8 os ->
  text_inv RESOLUTION FONTSIZE d ->
  exists d', run_text_ops RESOLUTION FONTSIZE POV_Font os d = Done d' /\
             text_inv RESOLUTION FONTSIZE d'.
Proof.
  induction os as [|o os IH]; intros d HF HR Hargs Hinv; simpl; [eauto|].
  inversion Hargs as [|? ? Ho Hos]; subst.
  destruct (run_text_op_inv o d HF HR Ho Hinv) as (d1 & H1 & Hinv1).
  rewrite H1. simpl. apply IH; auto.
Qed.

(** C10: from cursor slot 0, any sequence of clear, setCursor, writeChar,
    writeCharAt, writeString and writeStringAt runs to completion with the
    cursor below RESOLUTION / (FONTSIZE + 1); in every state so reached
    writeChar completes without an access outside the framebuffer, the
    columns it writes being those from the cursor's first column to
    FONTSIZE columns further, the last of them below RESOLUTION. *)
Theorem text_ops_keep_cursor_in_range (os : list text_op) (d : Display) :
  0 <= FONTSIZE -> FONTSIZE + 1 <= RESOLUTION <= 255 ->
  length (PovDisplayData d) = Z.to_nat RESOLUTION -> CursPos d = 0 ->
  Forall text_op_args_u8 os ->
  exists d',
    run_text_ops RESOLUTION FONTSIZE POV_Font os d = Done d' /\
    0 <= CursPos d' < RESOLUTION / (FONTSIZE + 1) /\
    forall Chr, exists d'',
      POV_WriteChar RESOLUTION FONTSIZE POV_Font Chr d' = Done d'' /\
      0 <= CursPos d' * (FONTSIZE + 1) /\
      CursPos d' * (FONTSIZE + 1) + FONTSIZE < RESOLUTION /\
      forall k, 0 <= k ->
        ~ (CursPos d' * (FONTSIZE + 1) <= k <= CursPos d' * (FONTSIZE + 1) + FONTSIZE) ->
        PovDisplayData d'' !! Z.to_nat k = PovDisplayData d' !! Z.to_nat k.
Proof.
  intros HF HR Hlen Hc0 Hargs.
  destruct (slots_facts HF HR) as (_ & _ & Hs & _).
  destruct (run_text_ops_inv os d HF HR Hargs) as (d' & Hrun & Hlen' & Hc').
  { split; [exact Hlen|]. unfold cursor_in_range. fold slots. lia. }
  exists d'. split; [exact Hrun|]. split; [exact Hc'|].
  intros Chr.
  destruct (WriteChar_spec Chr d' HF HR Hlen' Hc') as (d'' & Hw & _ & _ & _ & Hk).
  destruct (cursor_column_bound (CursPos d') HF HR Hc') as [Hp0 Hp1].
  exists d''. repeat split; auto.
  intros k Hk0 Hout. rewrite Hk, Z2Nat.id by lia.
  destruct (PovDisplayData d' !! Z.to_nat k); [|reflexivity]. simpl. f_equal.
  unfold char_cell. zcases; reflexivity.
Qed.

(** ** Writing at a given slot *)

(** C5, as amended: writeStringAt is setCursor followed by writeString,
    so with a slot out of range the string is written from the unchanged
    cursor; writeCharAt is setCursor followed by writeChar only for a slot
    in range, and with a slot out of range it does nothing at all. *)
Theorem write_at_slot (Chr Pos : Z) (Str : list Z) (d : Display) :
  POV_WriteStringInPos RESOLUTION FONTSIZE POV_Font Str Pos d
  = (d1 ← POV_SetCursor RESOLUTION FONTSIZE Pos d;
     POV_WriteString RESOLUTION FONTSIZE POV_Font Str d1) /\
  (Pos < RESOLUTION ÷ (FONTSIZE + 1) ->
     POV_SetCursor RESOLUTION FONTSIZE Pos d
     = Done (set_PixelPos (to_u8 (Pos * (FONTSIZE + 1))) (set_CursPos Pos d)) /\
     POV_WriteCharInPos RESOLUTION FONTSIZE POV_Font Chr Pos d
     = (d1 ← POV_SetCursor RESOLUTION FONTSIZE Pos d;
        POV_WriteChar RESOLUTION FONTSIZE POV_Font Chr d1)) /\
  (RESOLUTION ÷ (FONTSIZE + 1) <= Pos ->
     POV_SetCursor RESOLUTION FONTSIZE Pos d = Done d /\
     POV_WriteStringInPos RESOLUTION FONTSIZE POV_Font Str Pos d
     = POV_WriteString RESOLUTION FONTSIZE POV_Font Str d /\
     POV_WriteCharInPos RESOLUTION FONTSIZE POV_Font Chr Pos d = Done d).
Proof.
  split; [reflexivity|]. split.
  - intros Hin. unfold POV_WriteCharInPos, POV_SetCursor.
    rewrite Z.gtb_ltb. replace (Pos <? RESOLUTION ÷ (FONTSIZE + 1)) with true
      by (symmetry; apply Z.ltb_lt; lia).
    split; reflexivity.
  - intros Hout. unfold POV_WriteStringInPos, POV_WriteCharInPos, POV_SetCursor.
    rewrite Z.gtb_ltb. replace (Pos <? RESOLUTION ÷ (FONTSIZE + 1)) with false
      by (symmetry; apply Z.ltb_ge; lia).
    repeat split; reflexivity.
Qed.

End Text.

Lemma sample_font_u8 c k : is_u8 (Sample.POV_Font c k).
Proof.
  assert (forall l n, Forall is_u8 l -> is_u8 (default 0 (l !! n))) as Hl.
  { intros l n Hall. destruct (l !! n) as [v|] eqn:E; simpl.
    - exact (proj1 (Forall_lookup _ _) Hall n v E).
    - unfold is_u8. lia. }
  unfold Sample.POV_Font.
  destruct (c =? 33); [|destruct (c =? 34)].
  - apply Hl. unfold Sample.glyph_A. repeat constructor; lia.
  - apply Hl. unfold Sample.glyph_B. repeat constructor; lia.
  - unfold is_u8. lia.
Qed.

Lemma WriteString_AB_witness :
  exists d',
    POV_WriteString Sample.RESOLUTION Sample.FONTSIZE Sample.POV_Font (c_string "AB") Sample.lit
    = Done d' /\
    (forall k, 0 <= k < Sample.FONTSIZE ->
       PovDisplayData d' !! Z.to_nat k = Some (Sample.POV_Font (65 - 32) k)) /\
    PovDisplayData d' !! Z.to_nat Sample.FONTSIZE = Some 0 /\
    (forall k, 0 <= k < Sample.FONTSIZE ->
       PovDisplayData d' !! Z.to_nat (Sample.FONTSIZE + 1 + k)
       = Some (Sample.POV_Font (66 - 32) k)) /\
    PovDisplayData d' !! Z.to_nat (2 * Sample.FONTSIZE + 1) = Some 0 /\
    (forall k, 2 * (Sample.FONTSIZE + 1) <= k ->
       PovDisplayData d' !! Z.to_nat k = PovDisplayData Sample.lit !! Z.to_nat k) /\
    length (PovDisplayData d') = length (PovDisplayData Sample.lit) /\
    CursPos d' = 2 mod (Sample.RESOLUTION / (Sample.FONTSIZE + 1)).
Proof.
  apply (WriteString_AB Sample.RESOLUTION Sample.FONTSIZE Sample.POV_Font Sample.lit).
  - unfold Sample.FONTSIZE. lia.
  - unfold Sample.FONTSIZE, Sample.RESOLUTION. lia.
  - exact sample_font_u8.
  - reflexivity.
  - reflexivity.
Defined.

Lemma text_ops_keep_cursor_in_range_witness :
  exists d',
    run_text_ops Sample.RESOLUTION Sample.FONTSIZE Sample.POV_Font
      [OpWriteString (c_string "AB"); OpSetCursor 40; OpWriteCharInPos 65 32;
       OpWriteChar 66; OpWriteStringInPos (c_string "B") 250; OpClear; OpWriteChar 65]
      Sample.blank = Done d' /\
    0 <= CursPos d' < Sample.RESOLUTION / (Sample.FONTSIZE + 1) /\
    forall Chr, exists d'',
      POV_WriteChar Sample.RESOLUTION Sample.FONTSIZE Sample.POV_Font Chr d' = Done d'' /\
      0 <= CursPos d' * (Sample.FONTSIZE + 1) /\
      CursPos d' * (Sample.FONTSIZE + 1) + Sample.FONTSIZE < Sample.RESOLUTION /\
      forall k, 0 <= k ->
        ~ (CursPos d' * (Sample.FONTSIZE + 1) <= k
           <= CursPos d' * (Sample.FONTSIZE + 1) + Sample.FONTSIZE) ->
        PovDisplayData d'' !! Z.to_nat k = PovDisplayData d' !! Z.to_nat k.
Proof.
  apply (text_ops_keep_cursor_in_range Sample.RESOLUTION Sample.FONTSIZE Sample.POV_Font).
  - unfold Sample.FONTSIZE. lia.
  - unfold Sample.FONTSIZE, Sample.RESOLUTION. lia.
  - reflexivity.
  - reflexivity.
  - repeat constructor; simpl; unfold is_u8; try lia; repeat constructor; lia.
Defined.

(** Outside the invariant the first glyph column can miss the array: at
    slot 40 of the sample build it would be column 240 of 200. *)
Lemma WriteChar_faults_outside_invariant :
  POV_WriteChar Sample.RESOLUTION Sample.FONTSIZE Sample.POV_Font 65
    (set_CursPos 40 Sample.blank) = Fault.
Proof. vm_compute. reflexivity. Qed.

Lemma write_at_slot_witness :
  (POV_SetCursor Sample.RESOLUTION Sample.FONTSIZE 3 Sample.blank
   = Done (set_PixelPos (to_u8 (3 * (Sample.FONTSIZE + 1))) (set_CursPos 3 Sample.blank)) /\
   POV_WriteCharInPos Sample.RESOLUTION Sample.FONTSIZE Sample.POV_Font 65 3 Sample.blank
   = (d1 ← POV_SetCursor Sample.RESOLUTION Sample.FONTSIZE 3 Sample.blank;
      POV_WriteChar Sample.RESOLUTION Sample.FONTSIZE Sample.POV_Font 65 d1)) /\
  (POV_SetCursor Sample.RESOLUTION Sample.FONTSIZE 250 Sample.blank = Done Sample.blank /\
   POV_WriteStringInPos Sample.RESOLUTION Sample.FONTSIZE Sample.POV_Font
     (c_string "AB") 250 Sample.blank
   = POV_WriteString Sample.RESOLUTION Sample.FONTSIZE Sample.POV_Font
       (c_string "AB") Sample.blank /\
   POV_WriteCharInPos Sample.RESOLUTION Sample.FONTSIZE Sample.POV_Font 65 250 Sample.blank
   = Done Sample.blank).
Proof.
  split.
  - apply (write_at_slot Sample.RESOLUTION Sample.FONTSIZE Sample.POV_Font
             65 3 (c_string "AB") Sample.blank).
    vm_compute. reflexivity.
  - apply (write_at_slot Sample.RESOLUTION Sample.FONTSIZE Sample.POV_Font
             65 250 (c_string "AB") Sample.blank).
    vm_compute. discriminate.
Defined.

(** C5 as stated fails for writeCharAt: with slot 250 (the sample build
    has 33 slots) setCursor changes nothing and writeChar would then draw
    'A' at the cursor, yet writeCharAt leaves the display blank. *)
Lemma WriteCharInPos_out_of_range_differs :
  POV_SetCursor Sample.RESOLUTION Sample.FONTSIZE 250 Sample.blank = Done Sample.blank /\
  POV_WriteCharInPos Sample.RESOLUTION Sample.FONTSIZE Sample.POV_Font 65 250 Sample.blank
  = Done Sample.blank /\
  POV_WriteCharInPos Sample.RESOLUTION Sample.FONTSIZE Sample.POV_Font 65 250 Sample.blank
  <> (d1 ← POV_SetCursor Sample.RESOLUTION Sample.FONTSIZE 250 Sample.blank;
      POV_WriteChar Sample.RESOLUTION Sample.FONTSIZE Sample.POV_Font 65 d1).
Proof.
  split; [reflexivity|]. split; [reflexivity|].
  vm_compute. discriminate.
Qed.

(** * Frames *)

Section Frame.

Variables RESOLUTION PIXELS : Z.

Lemma to_u8_testbit x n : 0 <= n -> Z.testbit (to_u8 x) n = (n <? 8) && Z.testbit x n.
Proof. intros Hn. unfold to_u8. change 256 with (2 ^ 8). apply Z.testbit_mod_pow2. lia. Qed.

Lemma testbit_ones_shift len lo n :
  0 <= n -> 0 <= lo -> 0 <= len ->
  Z.testbit (Z.shiftl (Z.ones len) lo) n = (lo <=? n) && (n <? lo + len).
Proof.
  intros Hn Hlo Hlen. rewrite Z.shiftl_spec by lia.
  destruct (Z.leb_spec lo n); simpl.
  - rewrite Z.testbit_ones_nonneg by lia.
    destruct (Z.ltb_spec (n - lo) len), (Z.ltb_spec n (lo + len)); auto; lia.
  - apply Z.testbit_neg_r. lia.
Qed.

Lemma u8_high_bit v n : is_u8 v -> 8 <= n -> Z.testbit v n = false.
Proof. intros Hv Hn. rewrite <- (to_u8_small v Hv). apply testbit_to_u8_high. exact Hn. Qed.

(** Bit by bit comparison of two column values built from [to_u8],
    [Z.lor], single bits and runs of ones. *)
Ltac column_bits :=
  apply Z.bits_inj'; intros ?n ?Hn;
  repeat first
    [ rewrite to_u8_testbit by lia
    | rewrite Z.lor_spec
    | rewrite testbit_bit by lia
    | rewrite testbit_ones_shift by lia ];
  match goal with
  | |- context [Z.testbit ?v ?n] => destruct (Z.testbit v n)
  | _ => idtac
  end;
  repeat match goal with
    | |- context [?a <? ?b] => destruct (Z.ltb_spec a b); try lia
    | |- context [?a <=? ?b] => destruct (Z.leb_spec a b); try lia
    | |- context [?a =? ?b] => destruct (Z.eqb_spec a b); try lia
    end;
  simpl; try reflexivity.

Lemma frame_mask_testbit Column1 Row1 Row2 Column2 c r :
  0 <= Row1 < Row2 -> 0 <= r ->
  Z.testbit (frame_mask Column1 Row1 Row2 Column2 c) r
  = (r =? Row1) || (r =? Row2)
    || ((c =? Column1) || (c =? Column2)) && (Row1 <=? r) && (r <=? Row2).
Proof.
  intros HR Hr. unfold frame_mask.
  destruct ((c =? Column1) || (c =? Column2)); simpl.
  - rewrite testbit_ones_shift by lia. zcases; reflexivity.
  - rewrite Z.lor_spec, !testbit_bit by lia. zcases; reflexivity.
Qed.

Lemma frame_mask_u8 Column1 Row1 Row2 Column2 c v :
  0 <= Row1 < Row2 -> Row2 < 8 -> is_u8 v ->
  to_u8 (Z.lor v (frame_mask Column1 Row1 Row2 Column2 c))
  = Z.lor v (frame_mask Column1 Row1 Row2 Column2 c).
Proof.
  intros HR HR2 Hv. apply Z.bits_inj'. intros n Hn.
  rewrite to_u8_testbit, Z.lor_spec, frame_mask_testbit by lia.
  destruct (Z.ltb_spec n 8); [reflexivity|]. simpl.
  rewrite (u8_high_bit v n Hv) by lia. zcases; reflexivity.
Qed.

Lemma frame_rows_step v Row1 j :
  0 <= Row1 <= j -> j < 8 ->
  to_u8 (Z.lor (to_u8 (Z.lor v (Z.shiftl (Z.ones (j - Row1)) Row1))) (Z.shiftl 1 j))
  = to_u8 (Z.lor v (Z.shiftl (Z.ones (j + 1 - Row1)) Row1)).
Proof. intros HR Hj. column_bits. Qed.

Lemma frame_rows_done v Row1 Row2 :
  0 <= Row1 < Row2 -> Row2 < 8 ->
  to_u8 (Z.lor (Z.lor v (Z.lor (Z.shiftl 1 Row1) (Z.shiftl 1 Row2)))
           (Z.shiftl (Z.ones (Row2 - Row1 + 1)) Row1))
  = to_u8 (Z.lor v (Z.shiftl (Z.ones (Row2 - Row1 + 1)) Row1)).
Proof. intros HR Hj. column_bits. Qed.

Lemma DrawFrame_rows c v Row1 Row2 (d : Display) :
  0 <= Row1 <= Row2 -> Row2 < 8 -> 0 <= c < RESOLUTION ->
  length (PovDisplayData d) = Z.to_nat RESOLUTION ->
  for_u8 u8_fuel (fun PixelsCountRow => PixelsCountRow <=? Row2)
    (DrawFrame_row RESOLUTION c) Row1
    (set_PovDisplayData (<[Z.to_nat c := to_u8 v]> (PovDisplayData d)) d)
  = Done (set_PovDisplayData
            (<[Z.to_nat c := to_u8 (Z.lor v (Z.shiftl (Z.ones (Row2 - Row1 + 1)) Row1))]>
               (PovDisplayData d)) d).
Proof.
  intros HR HR2 Hc Hlen.
  destruct (for_u8_rule
    (fun r s => s = set_PovDisplayData
       (<[Z.to_nat c := to_u8 (Z.lor v (Z.shiftl (Z.ones (r - Row1)) Row1))]>
          (PovDisplayData d)) d)
    (fun PixelsCountRow => PixelsCountRow <=? Row2)
    (DrawFrame_row RESOLUTION c) (Row2 + 1) ltac:(lia)
    (Z.to_nat (Row2 + 1 - Row1)) Row1
    (set_PovDisplayData (<[Z.to_nat c := to_u8 v]> (PovDisplayData d)) d) u8_fuel)
    as (d1 & Hloop & ->); try (unfold u8_fuel; lia).
  - intros j s Hj ->. unfold DrawFrame_row, fb_load, fb_store. simpl.
    replace ((0 <=? c) && (c <? RESOLUTION)) with true
      by (symmetry; apply andb_true_iff; split; [apply Z.leb_le | apply Z.ltb_lt]; lia).
    rewrite list_lookup_insert_eq by lia. simpl.
    eexists; split; [reflexivity|].
    unfold set_PovDisplayData; simpl. rewrite list_insert_insert_eq.
    rewrite frame_rows_step by lia. reflexivity.
  - rewrite Z.sub_diag. simpl. rewrite Z.shiftl_0_l, Z.lor_0_r. reflexivity.
  - rewrite Hloop. replace (Row2 + 1 - Row1) with (Row2 - Row1 + 1) by lia. reflexivity.
Qed.

Lemma DrawFrame_column_Done Column1 Row1 Row2 Column2 c s :
  0 <= Row1 < Row2 -> Row2 < 8 -> 0 <= c < RESOLUTION ->
  length (PovDisplayData s) = Z.to_nat RESOLUTION ->
  exists v, PovDisplayData s !! Z.to_nat c = Some v /\
    DrawFrame_column RESOLUTION Column1 Row1 Row2 Column2 c s
    = Done (set_PovDisplayData
        (<[Z.to_nat c := to_u8 (Z.lor v (frame_mask Column1 Row1 Row2 Column2 c))]>
           (PovDisplayData s)) s).
Proof.
  intros HR HR2 Hc Hlen.
  destruct (fb_load_Done RESOLUTION c s Hlen Hc) as (v & Hv & Hload).
  exists v. split; [exact Hv|].
  unfold DrawFrame_column. rewrite Hload. simpl.
  rewrite fb_store_Done by auto. simpl.
  unfold frame_mask. destruct ((c =? Column1) || (c =? Column2)); [|reflexivity].
  rewrite DrawFrame_rows by (auto; lia).
  rewrite frame_rows_done by lia. reflexivity.
Qed.

Lemma DrawFrame_columns Column1 Row1 Row2 Column2 d :
  PIXELS <= 8 -> RESOLUTION <= 255 ->
  0 <= Row1 < Row2 -> Row2 < PIXELS ->
  0 <= Column1 <= Column2 -> Column2 < RESOLUTION ->
  length (PovDisplayData d) = Z.to_nat RESOLUTION ->
  exists d', POV_DrawFrame RESOLUTION PIXELS Column1 Row1 Row2 Column2 d = Done d' /\
    columns_mapped
      (fun c v => to_u8 (Z.lor v (frame_mask Column1 Row1 Row2 Column2 c)))
      Column1 (Column2 + 1) d d'.
Proof.
  intros HP HRes HR HR2 HC HC2 Hlen. unfold POV_DrawFrame.
  replace ((PIXELS >? Row2) && (Row2 >? Row1) && (RESOLUTION >? Column1)
           && (RESOLUTION >? Column2)) with true by (symmetry; zcases; reflexivity).
  apply (for_u8_columns RESOLUTION); try lia.
  intros j s Hj Hs. apply DrawFrame_column_Done; auto; lia.
Qed.

Lemma DrawFrame_column_values Column1 Row1 Row2 Column2 d :
  PIXELS <= 8 -> RESOLUTION <= 255 -> wf_display RESOLUTION d ->
  0 <= Row1 < Row2 -> Row2 < PIXELS ->
  0 <= Column1 <= Column2 -> Column2 < RESOLUTION ->
  exists d', POV_DrawFrame RESOLUTION PIXELS Column1 Row1 Row2 Column2 d = Done d' /\
    CursPos d' = CursPos d /\ PixelPos d' = PixelPos d /\
    length (PovDisplayData d') = length (PovDisplayData d) /\
    (forall c, 0 <= c -> ~ (Column1 <= c <= Column2) ->
       PovDisplayData d' !! Z.to_nat c = PovDisplayData d !! Z.to_nat c) /\
    (forall c v, Column1 <= c <= Column2 ->
       PovDisplayData d !! Z.to_nat c = Some v ->
       PovDisplayData d' !! Z.to_nat c
       = Some (Z.lor v (frame_mask Column1 Row1 Row2 Column2 c))).
Proof.
  intros HP HRes Hwf HR HR2 HC HC2. pose proof Hwf as [Hlen Hall].
  destruct (DrawFrame_columns Column1 Row1 Row2 Column2 d)
    as (d' & Hrun & HCu & HPi & HL & Hk); auto.
  exists d'. repeat split; auto.
  - intros c Hc Hout. rewrite Hk, Z2Nat.id by lia.
    replace ((Column1 <=? c) && (c <? Column2 + 1)) with false; [reflexivity|].
    symmetry. apply andb_false_iff.
    destruct (Z.leb_spec Column1 c); [right; apply Z.ltb_ge; lia | left; reflexivity].
  - intros c v Hc Hv. rewrite Hk, Z2Nat.id, Hv by lia.
    replace ((Column1 <=? c) && (c <? Column2 + 1)) with true
      by (symmetry; apply andb_true_iff; split; [apply Z.leb_le | apply Z.ltb_lt]; lia).
    simpl. f_equal. apply frame_mask_u8; try lia.
    eapply wf_display_lookup; eauto.
Qed.

(** C7: a valid drawFrame with Column1 <= Column2 ORs into every column
    of Column1 .. Column2 the bits of rows Row1 and Row2, and into the two
    edge columns the bits of all rows Row1 .. Row2; the other columns and
    the cursor are untouched and, the update being an OR, no lit pixel
    goes dark.  drawFrame(1,1,3,4) ORs 14 (rows 1-3) into columns 1 and 4
    and 10 (rows 1 and 3) into columns 2 and 3. *)
Theorem DrawFrame_effect (d : Display) :
  PIXELS <= 8 -> RESOLUTION <= 255 -> wf_display RESOLUTION d ->
  (forall Column1 Row1 Row2 Column2,
     0 <= Row1 -> Row2 < PIXELS -> Row2 > Row1 ->
     0 <= Column1 -> Column1 < RESOLUTION -> Column2 < RESOLUTION -> Column1 <= Column2 ->
     (exists d', POV_DrawFrame RESOLUTION PIXELS Column1 Row1 Row2 Column2 d = Done d' /\
        CursPos d' = CursPos d /\ PixelPos d' = PixelPos d /\
        length (PovDisplayData d') = length (PovDisplayData d) /\
        (forall c, 0 <= c -> ~ (Column1 <= c <= Column2) ->
           PovDisplayData d' !! Z.to_nat c = PovDisplayData d !! Z.to_nat c) /\
        (forall c v, Column1 <= c <= Column2 ->
           PovDisplayData d !! Z.to_nat c = Some v ->
           PovDisplayData d' !! Z.to_nat c
           = Some (Z.lor v (frame_mask Column1 Row1 Row2 Column2 c)))) /\
     (forall c r, 0 <= r ->
        Z.testbit (frame_mask Column1 Row1 Row2 Column2 c) r
        = (r =? Row1) || (r =? Row2)
          || ((c =? Column1) || (c =? Column2)) && (Row1 <=? r) && (r <=? Row2))) /\
  (3 < PIXELS -> 4 < RESOLUTION ->
   exists d', POV_DrawFrame RESOLUTION PIXELS 1 1 3 4 d = Done d' /\
     forall c v, 0 <= c -> PovDisplayData d !! Z.to_nat c = Some v ->
       PovDisplayData d' !! Z.to_nat c
       = Some (if (c =? 1) || (c =? 4) then Z.lor v 14
               else if (c =? 2) || (c =? 3) then Z.lor v 10
               else v)).
Proof.
  intros HP HRes Hwf. split.
  - intros Column1 Row1 Row2 Column2 HR1 HR2 HR HC1 HC1' HC2 HC. split.
    + apply DrawFrame_column_values; auto; lia.
    + intros c r Hr. apply frame_mask_testbit; lia.
  - intros HP3 HR4.
    destruct (DrawFrame_column_values 1 1 3 4 d)
      as (d' & Hrun & _ & _ & _ & Hout & Hin); auto; try lia.
    exists d'. split; [exact Hrun|].
    intros c v Hc Hv.
    destruct (Z.eqb_spec c 1) as [->|H1]; [rewrite (Hin 1 v) by (auto; lia); reflexivity|].
    destruct (Z.eqb_spec c 4) as [->|H4]; [rewrite (Hin 4 v) by (auto; lia); reflexivity|].
    destruct (Z.eqb_spec c 2) as [->|H2]; [rewrite (Hin 2 v) by (auto; lia); reflexivity|].
    destruct (Z.eqb_spec c 3) as [->|H3]; [rewrite (Hin 3 v) by (auto; lia); reflexivity|].
    simpl. rewrite Hout by lia. exact Hv.
Qed.

End Frame.

Lemma DrawFrame_effect_witness :
  exists d', POV_DrawFrame Sample.RESOLUTION Sample.PIXELS 1 1 3 4 Sample.blank = Done d' /\
    forall c v, 0 <= c -> PovDisplayData Sample.blank !! Z.to_nat c = Some v ->
      PovDisplayData d' !! Z.to_nat c
      = Some (if (c =? 1) || (c =? 4) then Z.lor v 14
              else if (c =? 2) || (c =? 3) then Z.lor v 10
              else v).
Proof.
  apply (DrawFrame_effect Sample.RESOLUTION Sample.PIXELS Sample.blank);
    unfold Sample.RESOLUTION, Sample.PIXELS; try lia.
  exact sample_blank_wf.
Defined.

(** The frame of the example on the blank sample display, column by column. *)
Lemma DrawFrame_example_columns :
  exists d', POV_DrawFrame Sample.RESOLUTION Sample.PIXELS 1 1 3 4 Sample.blank = Done d' /\
    take 6 (PovDisplayData d') = [0; 14; 10; 10; 14; 0] /\
    drop 6 (PovDisplayData d') = replicate 194 0.
Proof. eexists. split; [vm_compute; reflexivity|]. split; reflexivity. Qed.

(** * The two interrupt callbacks *)

Section Timers.

Variables RESOLUTION PIXELS : Z.

Lemma bind_Done {A B : Type} (f : A -> outcome B) (a : A) : mbind f (Done a) = f a.
Proof. reflexivity. Qed.

Lemma push_add_gpio e es t : push_gpio e (add_gpio es t) = add_gpio (es ++ [e]) t.
Proof. unfold push_gpio, add_gpio. simpl. rewrite <- app_assoc. reflexivity. Qed.

Lemma add_gpio_nil t : add_gpio [] t = t.
Proof. destruct t. unfold add_gpio. simpl. rewrite app_nil_r. reflexivity. Qed.

Lemma add_add_gpio es es' t : add_gpio es' (add_gpio es t) = add_gpio (es ++ es') t.
Proof. unfold add_gpio. simpl. rewrite <- app_assoc. reflexivity. Qed.

Lemma seqZ_snoc m i : 0 <= i -> seqZ m (i + 1) = seqZ m i ++ [m + i].
Proof.
  intros Hi. rewrite seqZ_app by lia. reflexivity.
Qed.

(** [(valueToPresent & (1 << PixelsCount)) ? GPIO_PIN_SET : GPIO_PIN_RESET] *)
Lemma mask_test v k : 0 <= k -> negb (Z.land v (Z.shiftl 1 k) =? 0) = Z.testbit v k.
Proof.
  intros Hk. destruct (Z.testbit v k) eqn:E.
  - apply negb_true_iff. apply Z.eqb_neq. intros H0.
    assert (Z.testbit (Z.land v (Z.shiftl 1 k)) k = true) as Hb.
    { rewrite Z.land_spec, E, testbit_bit, Z.eqb_refl by lia. reflexivity. }
    rewrite H0, Z.bits_0 in Hb. discriminate.
  - apply negb_false_iff. apply Z.eqb_eq. apply Z.bits_inj'. intros n Hn.
    rewrite Z.land_spec, Z.bits_0, testbit_bit by lia.
    destruct (Z.eqb_spec n k) as [->|]; [rewrite E|]; auto using andb_false_r.
Qed.

Lemma IntervalsDisplay_Done v t :
  0 <= PIXELS <= 255 ->
  POV_IntervalsDisplay PIXELS v t = Done (add_gpio (column_pins PIXELS v) t).
Proof.
  intros HP. unfold POV_IntervalsDisplay.
  destruct (for_u8_rule
    (fun i s => s = add_gpio ((fun k => WritePin k (Z.testbit v k)) <$> seqZ 0 i) t)
    (fun PixelsCount => PixelsCount <? PIXELS) (IntervalsDisplay_body v) PIXELS
    ltac:(lia) (Z.to_nat PIXELS) 0 t u8_fuel) as (t' & Hloop & ->);
    try (unfold u8_fuel; lia).
  - intros j s Hj ->. unfold IntervalsDisplay_body. eexists; split; [reflexivity|].
    rewrite push_add_gpio, mask_test by lia.
    rewrite seqZ_snoc, fmap_app by lia. reflexivity.
  - rewrite seqZ_nil by lia. simpl. symmetry. apply add_gpio_nil.
  - exact Hloop.
Qed.

Lemma elapsed_ticks_exact capture ovc :
  is_u16 capture -> is_u16 ovc -> elapsed_ticks capture ovc = capture + ovc * 65536.
Proof.
  unfold is_u16, elapsed_ticks, to_u32. intros Hc Ho.
  rewrite (Z.mod_small (ovc * 65536)) by lia. apply Z.mod_small. lia.
Qed.

Lemma IC_Period_mod E :
  0 <= E -> 0 < RESOLUTION -> IC_Period RESOLUTION E = (E / RESOLUTION) mod 65536.
Proof. intros HE HR. unfold IC_Period, to_u16. rewrite Z.quot_div_nonneg by lia. reflexivity. Qed.

(** The reference-event handler, run on TIM2. *)
Lemma IC_CaptureCallback_Done d t :
  0 <= PIXELS <= 255 -> 0 < RESOLUTION ->
  length (PovDisplayData d) = Z.to_nat RESOLUTION ->
  is_u16 (ICU_TIM2_OVC t) -> is_u16 (TIM2_CCR1 t) ->
  exists v, PovDisplayData d !! 0%nat = Some v /\
    HAL_TIM_IC_CaptureCallback RESOLUTION PIXELS TIM2 d t
    = Done (mkTiming (TIM2_CCR1 t + ICU_TIM2_OVC t * 65536) (TIM2_CCR1 t) 0 0 (sysClockFreq t)
              0 (TIM2_CCR1 t) 0
              (autoReloadValue
                 (((TIM2_CCR1 t + ICU_TIM2_OVC t * 65536) / RESOLUTION) mod 65536)
                 (sysClockFreq t))
              (gpio t ++ column_pins PIXELS v)).
Proof.
  intros HP HR Hlen Hovc Hccr.
  destruct (fb_load_Done RESOLUTION 0 d Hlen) as (v & Hv & Hload); [lia|].
  exists v. split; [exact Hv|].
  unfold HAL_TIM_IC_CaptureCallback. simpl PixelsCounter.
  rewrite Hload, bind_Done, IntervalsDisplay_Done, bind_Done by lia.
  destruct t as [td cap ovc pc freq cnt2 ccr cnt3 arr g]. simpl in Hovc, Hccr.
  cbv [set_TIM2_CNT set_ICU_TIM2_OVC setTIM3InterruptPeriod set_TIM3_ARR set_TIM3_CNT
       set_TimeDifference set_Capture add_gpio set_PixelsCounter
       TimeDifference Capture ICU_TIM2_OVC PixelsCounter sysClockFreq
       TIM2_CNT TIM2_CCR1 TIM3_CNT TIM3_ARR gpio].
  rewrite (to_u16_small ccr) by assumption.
  rewrite elapsed_ticks_exact by assumption.
  rewrite IC_Period_mod by (unfold is_u16 in *; lia).
  reflexivity.
Qed.

(** C1, as amended: on a reference event the handler takes
    E = captured value + overflow tally * 65536, programs TIM3 through
    setTIM3InterruptPeriod with floor(E / RESOLUTION) reduced to 16 bits
    (which is floor(E / RESOLUTION) itself as long as E < 65536 * RESOLUTION),
    sets the column index to 0, puts column 0 on the output lines, and
    zeroes the overflow tally and the tick counter. *)
Theorem reference_event_effect (d : Display) (t : Timing) :
  0 <= PIXELS <= 255 -> 0 < RESOLUTION ->
  length (PovDisplayData d) = Z.to_nat RESOLUTION ->
  is_u16 (ICU_TIM2_OVC t) -> is_u16 (TIM2_CCR1 t) ->
  let E := TIM2_CCR1 t + ICU_TIM2_OVC t * 65536 in
  let Period := (E / RESOLUTION) mod 65536 in
  exists v t',
    PovDisplayData d !! 0%nat = Some v /\
    HAL_TIM_IC_CaptureCallback RESOLUTION PIXELS TIM2 d t = Done t' /\
    TimeDifference t' = E /\
    IC_Period RESOLUTION (TimeDifference t') = Period /\
    (E < 65536 * RESOLUTION -> Period = E / RESOLUTION) /\
    TIM3_ARR t' = autoReloadValue Period (sysClockFreq t) /\
    TIM3_CNT t' = 0 /\
    PixelsCounter t' = 0 /\
    gpio t' = gpio t ++ column_pins PIXELS v /\
    ICU_TIM2_OVC t' = 0 /\
    TIM2_CNT t' = 0 /\
    Capture t' = TIM2_CCR1 t /\ TIM2_CCR1 t' = TIM2_CCR1 t /\
    sysClockFreq t' = sysClockFreq t.
Proof.
  intros HP HR Hlen Hovc Hccr E Period.
  destruct (IC_CaptureCallback_Done d t HP HR Hlen Hovc Hccr) as (v & Hv & Hrun).
  eexists v, _. split; [exact Hv|]. split; [exact Hrun|]. simpl.
  assert (0 <= E) by (unfold E, is_u16 in *; lia).
  repeat split; auto.
  - apply IC_Period_mod; lia.
  - intros Hsmall. unfold Period. apply Z.mod_small. split.
    + apply Z.div_pos; lia.
    + apply Z.div_lt_upper_bound; lia.
Qed.

(** ** The Pacer between two reference events *)

Lemma run_irqs_app d es es' t :
  run_irqs RESOLUTION PIXELS d (es ++ es') t
  = (t1 ← run_irqs RESOLUTION PIXELS d es t; run_irqs RESOLUTION PIXELS d es' t1).
Proof.
  revert t. induction es as [|e es IH]; intros t; simpl; [reflexivity|].
  destruct (handle_irq RESOLUTION PIXELS d e t); simpl; auto.
Qed.

Lemma run_irqs_tick d t :
  run_irqs RESOLUTION PIXELS d [PeriodTick] t
  = HAL_TIM_PeriodElapsedCallback RESOLUTION PIXELS TIM3 d t.
Proof.
  change (run_irqs RESOLUTION PIXELS d [PeriodTick] t)
    with (t1 ← HAL_TIM_PeriodElapsedCallback RESOLUTION PIXELS TIM3 d t; Done t1).
  destruct (HAL_TIM_PeriodElapsedCallback RESOLUTION PIXELS TIM3 d t); reflexivity.
Qed.

(** One period tick. *)
Lemma PeriodElapsed_tick d t :
  0 <= PIXELS <= 255 -> length (PovDisplayData d) = Z.to_nat RESOLUTION ->
  0 <= PixelsCounter t < 255 ->
  HAL_TIM_PeriodElapsedCallback RESOLUTION PIXELS TIM3 d t
  = Done (if PixelsCounter t + 1 <? RESOLUTION
          then add_gpio
                 (column_pins PIXELS
                    (default 0 (PovDisplayData d !! Z.to_nat (PixelsCounter t + 1)))
                  ++ [TogglePin_C13])
                 (set_PixelsCounter (PixelsCounter t + 1) t)
          else set_PixelsCounter (PixelsCounter t + 1) t).
Proof.
  intros HP Hlen Hi. unfold HAL_TIM_PeriodElapsedCallback.
  rewrite to_u8_small by (unfold is_u8; lia). simpl PixelsCounter.
  destruct (Z.ltb_spec (PixelsCounter t + 1) RESOLUTION); [|reflexivity].
  destruct (fb_load_Done RESOLUTION (PixelsCounter t + 1) d Hlen) as (v & Hv & Hload); [lia|].
  rewrite Hload, bind_Done, IntervalsDisplay_Done, bind_Done, Hv by lia.
  rewrite push_add_gpio. reflexivity.
Qed.

Lemma pacer_ticks d t (n : nat) :
  0 <= PIXELS <= 255 -> 0 < RESOLUTION ->
  length (PovDisplayData d) = Z.to_nat RESOLUTION ->
  PixelsCounter t = 0 -> (n <= 255)%nat ->
  run_irqs RESOLUTION PIXELS d (replicate n PeriodTick) t
  = Done (add_gpio
            (sweep_trace PIXELS (PovDisplayData d) 1 (Z.min (Z.of_nat n) (RESOLUTION - 1)))
            (set_PixelsCounter (Z.of_nat n) t)).
Proof.
  intros HP HR Hlen H0. induction n as [|n IH]; intros Hn.
  - simpl. rewrite Z.min_l by lia. unfold sweep_trace. rewrite seqZ_nil by lia. simpl.
    rewrite add_gpio_nil. destruct t; simpl in *; subst; reflexivity.
  - rewrite replicate_S_end, run_irqs_app, IH, bind_Done by lia.
    rewrite run_irqs_tick.
    rewrite PeriodElapsed_tick by (auto; simpl; lia).
    simpl PixelsCounter.
    replace (Z.of_nat n + 1) with (Z.of_nat (S n)) by lia.
    destruct (Z.ltb_spec (Z.of_nat (S n)) RESOLUTION).
    + rewrite (Z.min_l (Z.of_nat n)), (Z.min_l (Z.of_nat (S n))) by lia.
      unfold sweep_trace at 2.
      replace (Z.of_nat (S n)) with (Z.of_nat n + 1) at 3 by lia.
      rewrite seqZ_snoc, fmap_app, concat_app by lia. simpl.
      rewrite app_nil_r. fold (sweep_trace PIXELS (PovDisplayData d) 1 (Z.of_nat n)).
      replace (1 + Z.of_nat n) with (Z.of_nat (S n)) by lia.
      unfold add_gpio, set_PixelsCounter. simpl. rewrite <- app_assoc. reflexivity.
    + rewrite (Z.min_r (Z.of_nat n)), (Z.min_r (Z.of_nat (S n))) by lia.
      reflexivity.
Qed.

(** C2, as amended: a reference event puts the column index at 0; each
    of the next n <= 255 period ticks adds one to it, so that the index is
    n, and emits the column at the new index only while that is below
    RESOLUTION: the ticks put out columns 1 .. min(n, RESOLUTION-1), each
    followed by the debug toggle, and nothing else changes. *)
Theorem pacer_between_reference_events (d : Display) (t : Timing) (n : nat) :
  0 <= PIXELS <= 255 -> 0 < RESOLUTION ->
  length (PovDisplayData d) = Z.to_nat RESOLUTION ->
  is_u16 (ICU_TIM2_OVC t) -> is_u16 (TIM2_CCR1 t) ->
  (n <= 255)%nat ->
  exists t0,
    handle_irq RESOLUTION PIXELS d ReferenceEvent t = Done t0 /\
    PixelsCounter t0 = 0 /\
    run_irqs RESOLUTION PIXELS d (replicate n PeriodTick) t0
    = Done (add_gpio
              (sweep_trace PIXELS (PovDisplayData d) 1 (Z.min (Z.of_nat n) (RESOLUTION - 1)))
              (set_PixelsCounter (Z.of_nat n) t0)).
Proof.
  intros HP HR Hlen Hovc Hccr Hn.
  destruct (IC_CaptureCallback_Done d t HP HR Hlen Hovc Hccr) as (v & Hv & Hrun).
  eexists. split; [exact Hrun|]. split; [reflexivity|].
  apply pacer_ticks; auto.
Qed.

End Timers.

Lemma reference_event_effect_witness :
  let E := 1000 + 3 * 65536 in
  let Period := (E / Sample.RESOLUTION) mod 65536 in
  exists v t',
    PovDisplayData Sample.lit !! 0%nat = Some v /\
    HAL_TIM_IC_CaptureCallback Sample.RESOLUTION Sample.PIXELS TIM2 Sample.lit
      (Sample.idle 3 1000) = Done t' /\
    TimeDifference t' = E /\
    IC_Period Sample.RESOLUTION (TimeDifference t') = Period /\
    (E < 65536 * Sample.RESOLUTION -> Period = E / Sample.RESOLUTION) /\
    TIM3_ARR t' = autoReloadValue Period 72 /\
    TIM3_CNT t' = 0 /\
    PixelsCounter t' = 0 /\
    gpio t' = [] ++ column_pins Sample.PIXELS v /\
    ICU_TIM2_OVC t' = 0 /\
    TIM2_CNT t' = 0 /\
    Capture t' = 1000 /\ TIM2_CCR1 t' = 1000 /\
    sysClockFreq t' = 72.
Proof.
  apply (reference_event_effect Sample.RESOLUTION Sample.PIXELS Sample.lit (Sample.idle 3 1000));
    unfold Sample.RESOLUTION, Sample.PIXELS, is_u16; simpl; try lia; reflexivity.
Defined.

(** C1 as stated fails once floor(E / RESOLUTION) no longer fits 16 bits:
    with an overflow tally of 200 and a captured value of 0 on the sample
    build, E / RESOLUTION = 65536 while the period handed to
    setTIM3InterruptPeriod is 0. *)
Lemma reference_event_period_truncated :
  exists t',
    HAL_TIM_IC_CaptureCallback Sample.RESOLUTION Sample.PIXELS TIM2 Sample.blank
      (Sample.idle 200 0) = Done t' /\
    TimeDifference t' = 0 + 200 * 65536 /\
    TimeDifference t' / Sample.RESOLUTION = 65536 /\
    IC_Period Sample.RESOLUTION (TimeDifference t') = 0 /\
    TIM3_ARR t' = autoReloadValue 0 72.
Proof. eexists. split; [vm_compute; reflexivity|]. repeat split; reflexivity. Qed.

Lemma pacer_between_reference_events_witness :
  exists t0,
    handle_irq Sample.RESOLUTION Sample.PIXELS Sample.lit ReferenceEvent (Sample.idle 3 1000)
    = Done t0 /\
    PixelsCounter t0 = 0 /\
    run_irqs Sample.RESOLUTION Sample.PIXELS Sample.lit (replicate 230 PeriodTick) t0
    = Done (add_gpio
              (sweep_trace Sample.PIXELS (PovDisplayData Sample.lit) 1
                 (Z.min (Z.of_nat 230) (Sample.RESOLUTION - 1)))
              (set_PixelsCounter (Z.of_nat 230) t0)).
Proof.
  apply (pacer_between_reference_events Sample.RESOLUTION Sample.PIXELS Sample.lit
           (Sample.idle 3 1000) 230);
    unfold Sample.RESOLUTION, Sample.PIXELS, is_u16; simpl; try lia; reflexivity.
Defined.

(** C2 as stated fails: the index does pass RESOLUTION.  On the sample
    build (200 columns) it stands at 201 after 201 ticks. *)
Lemma pacer_index_exceeds_RESOLUTION :
  exists t',
    run_irqs Sample.RESOLUTION Sample.PIXELS Sample.lit
      (ReferenceEvent :: replicate 201 PeriodTick) (Sample.idle 3 1000) = Done t' /\
    PixelsCounter t' = 201 /\
    Sample.RESOLUTION < PixelsCounter t'.
Proof. eexists. split; [vm_compute; reflexivity|]. split; reflexivity. Qed.

(** What the unguarded increment leads to when no reference event comes:
    the 256th tick wraps the index to 0 and column 0 is put out again. *)
Lemma pacer_index_wraps_at_256 :
  exists t255 t256,
    run_irqs Sample.RESOLUTION Sample.PIXELS Sample.lit
      (ReferenceEvent :: replicate 255 PeriodTick) (Sample.idle 3 1000) = Done t255 /\
    PixelsCounter t255 = 255 /\
    handle_irq Sample.RESOLUTION Sample.PIXELS Sample.lit PeriodTick t255 = Done t256 /\
    PixelsCounter t256 = 0 /\
    gpio t256 = gpio t255 ++ column_pins Sample.PIXELS 255 ++ [TogglePin_C13].
Proof.
  eexists _, _. split; [vm_compute; reflexivity|]. split; [reflexivity|].
  split; [vm_compute; reflexivity|]. split; reflexivity.
Qed.

(** * Lines *)

Section Line.

Variables RESOLUTION PIXELS : Z.

(** ** The error term *)

Lemma line_err0_cases DX DY :
  0 <= DX -> 0 <= DY ->
  (DY < DX /\ 2 * line_err0 DX DY <= DX < 2 * line_err0 DX DY + 2) \/
  (DX <= DY /\ - DY <= 2 * line_err0 DX DY < - DY + 2).
Proof.
  intros HX HY. unfold line_err0. rewrite Z.gtb_ltb.
  destruct (Z.ltb_spec DY DX).
  - left. split; [lia|]. rewrite Z.quot_div_nonneg by lia.
    pose proof (Z.div_mod DX 2 ltac:(lia)). pose proof (Z.mod_pos_bound DX 2 ltac:(lia)). lia.
  - right. split; [lia|]. rewrite Z.quot_opp_l by lia. rewrite Z.quot_div_nonneg by lia.
    pose proof (Z.div_mod DY 2 ltac:(lia)). pose proof (Z.mod_pos_bound DY 2 ltac:(lia)). lia.
Qed.

Lemma line_err0_ok DX DY :
  0 <= DX -> 0 <= DY -> 0 < DX + DY -> line_err_ok DX DY (line_err0 DX DY).
Proof.
  intros HX HY H0. unfold line_err_ok.
  destruct (line_err0_cases DX DY HX HY) as [[H1 H2]|[H1 H2]]; [left|right]; lia.
Qed.

(** One round away from the endpoint, after [a] column steps and [b] row
    steps: a step is taken, none overshoots, and the error term stays in
    its range. *)
Lemma line_step DX DY a b err :
  0 <= a <= DX -> 0 <= b <= DY ->
  err = line_err0 DX DY - a * DY + b * DX ->
  line_err_ok DX DY err ->
  ~ (a = DX /\ b = DY) ->
  (- DX < err -> a < DX) /\
  (err < DY -> b < DY) /\
  (- DX < err \/ err < DY) /\
  (- DX < err -> err < DY -> line_err_ok DX DY (err - DY + DX)) /\
  (- DX < err -> DY <= err -> line_err_ok DX DY (err - DY)) /\
  (err <= - DX -> err < DY -> line_err_ok DX DY (err + DX)).
Proof.
  intros Ha Hb Herr Hok Hend. unfold line_err_ok in *.
  destruct (line_err0_cases DX DY ltac:(lia) ltac:(lia)) as [[H1 H2]|[H1 H2]];
    (destruct Hok as [Hok|Hok]; [|]); try lia.
  - repeat split; try lia; try nia.
  - repeat split; try lia; try nia.
Qed.

(** ** Plotting *)

Lemma pixels_kept_refl d : pixels_kept d d.
Proof. repeat split; auto. intros k v Hv. exists v. auto. Qed.

Lemma pixels_kept_trans d1 d2 d3 : pixels_kept d1 d2 -> pixels_kept d2 d3 -> pixels_kept d1 d3.
Proof.
  intros (HC1 & HP1 & HL1 & H1) (HC2 & HP2 & HL2 & H2). repeat split; try congruence.
  intros k v Hv. destruct (H1 k v Hv) as (v' & Hv' & Hb1).
  destruct (H2 k v' Hv') as (v'' & Hv'' & Hb2). exists v''. split; auto.
Qed.

Lemma WritePixel_ON_Done Row Column d :
  length (PovDisplayData d) = Z.to_nat RESOLUTION ->
  0 <= Row < PIXELS -> 0 <= Column < RESOLUTION ->
  exists d', POV_WritePixel RESOLUTION PIXELS Row Column ON d = Done d' /\
    length (PovDisplayData d') = Z.to_nat RESOLUTION /\ pixels_kept d d'.
Proof.
  intros Hlen HR HC.
  destruct (fb_load_Done RESOLUTION Column d Hlen HC) as (v & Hv & Hload).
  unfold POV_WritePixel, ON, OFF.
  replace (PIXELS >? Row) with true by (symmetry; rewrite Z.gtb_ltb; apply Z.ltb_lt; lia).
  replace (RESOLUTION >? Column) with true by (symmetry; rewrite Z.gtb_ltb; apply Z.ltb_lt; lia).
  simpl. rewrite Hload, bind_Done, fb_store_Done by auto.
  eexists; split; [reflexivity|]. simpl. split; [rewrite length_insert; exact Hlen|].
  repeat split; simpl; auto using length_insert.
  intros k w Hw. destruct (decide (k = Z.to_nat Column)) as [->|Hne].
  - rewrite list_lookup_insert_eq by lia. eexists; split; [reflexivity|].
    intros r Hr Hbit. rewrite testbit_to_u8, Z.lor_spec by lia.
    rewrite Hv in Hw. injection Hw as <-. rewrite Hbit. reflexivity.
  - rewrite list_lookup_insert_ne by auto. exists w. auto.
Qed.

(** ** The stepping loop *)

Section Endpoints.

Variables c1 r1 c2 r2 : Z.

Let DX : Z := Z.abs (c2 - c1).
Let DY : Z := Z.abs (r2 - r1).
Let sx : Z := if c1 <? c2 then 1 else -1.
Let sy : Z := if r1 <? r2 then 1 else -1.

Hypothesis HPIXELS : PIXELS <= 8.
Hypothesis HRESOLUTION : RESOLUTION <= 255.
Hypothesis Hc1 : 0 <= c1 < RESOLUTION.
Hypothesis Hc2 : 0 <= c2 < RESOLUTION.
Hypothesis Hr1 : 0 <= r1 < PIXELS.
Hypothesis Hr2 : 0 <= r2 < PIXELS.
Hypothesis Hnear : Z.abs (c2 - c1) <= 127.

(** The loop state after [a] column steps and [b] row steps. *)
Let line_inv (a b err : Z) : Prop :=
  0 <= a <= DX /\ 0 <= b <= DY /\
  err = line_err0 DX DY - a * DY + b * DX /\
  (line_err_ok DX DY err \/ (DX = 0 /\ DY = 0)).

Lemma line_position a b :
  0 <= a <= DX -> 0 <= b <= DY ->
  0 <= c1 + sx * a < RESOLUTION /\ 0 <= r1 + sy * b < PIXELS /\
  (c1 + sx * a = c2 <-> a = DX) /\ (r1 + sy * b = r2 <-> b = DY).
Proof using Hc1 Hc2 Hr1 Hr2.
  intros Ha Hb. unfold DX, DY, sx, sy in *.
  destruct (Z.ltb_spec c1 c2), (Z.ltb_spec r1 r2); lia.
Qed.

Lemma line_inv_range a b err :
  line_inv a b err -> ~ (a = DX /\ b = DY) ->
  line_err_ok DX DY err /\ DX <= 127 /\ 0 <= DY <= 7 /\ - 7 <= err <= 127.
Proof using Hr1 Hr2 Hnear HPIXELS.
  intros (Ha & Hb & _ & Hok) Hend.
  assert (line_err_ok DX DY err) as Hok' by (destruct Hok as [?|[? ?]]; [assumption | lia]).
  assert (DX <= 127) by exact Hnear.
  assert (0 <= DY <= 7) by (unfold DY; lia).
  repeat split; auto; try lia; unfold line_err_ok in Hok'; lia.
Qed.

(** The three ways a round can move: along the columns, along both
    axes, along the rows. *)
Lemma line_inv_column_step a b err :
  line_inv a b err -> ~ (a = DX /\ b = DY) -> - DX < err -> DY <= err ->
  line_inv (a + 1) b (err - DY) /\
  to_i8 (err - DY) = err - DY /\ to_u8 (c1 + sx * a + sx) = c1 + sx * (a + 1).
Proof using HPIXELS HRESOLUTION Hc1 Hc2 Hr1 Hr2 Hnear.
  intros Hinv Hend Hx Hy.
  destruct (line_inv_range a b err Hinv Hend) as (Hok & HDX & HDY & Hrange).
  destruct Hinv as (Ha & Hb & Herr & _).
  destruct (line_step DX DY a b err Ha Hb Herr Hok Hend) as (Hxa & _ & _ & _ & Hx' & _).
  specialize (Hxa Hx). specialize (Hx' Hx Hy).
  destruct (line_position (a + 1) b) as (Hc' & _); try lia.
  split; [|split].
  - unfold line_inv. repeat split; auto; lia.
  - apply to_i8_small. lia.
  - rewrite to_u8_small by (unfold is_u8; lia). lia.
Qed.

Lemma line_inv_diagonal_step a b err :
  line_inv a b err -> ~ (a = DX /\ b = DY) -> - DX < err -> err < DY ->
  line_inv (a + 1) (b + 1) (err - DY + DX) /\
  to_i8 (to_i8 (err - DY) + DX) = err - DY + DX /\
  to_u8 (c1 + sx * a + sx) = c1 + sx * (a + 1) /\
  to_u8 (r1 + sy * b + sy) = r1 + sy * (b + 1).
Proof using HPIXELS HRESOLUTION Hc1 Hc2 Hr1 Hr2 Hnear.
  intros Hinv Hend Hx Hy.
  destruct (line_inv_range a b err Hinv Hend) as (Hok & HDX & HDY & Hrange).
  destruct Hinv as (Ha & Hb & Herr & _).
  destruct (line_step DX DY a b err Ha Hb Herr Hok Hend) as (Hxa & Hyb & _ & Hxy & _ & _).
  specialize (Hxa Hx). specialize (Hyb Hy). specialize (Hxy Hx Hy).
  destruct (line_position (a + 1) (b + 1)) as (Hc' & Hr' & _); try lia.
  split; [|split; [|split]].
  - unfold line_inv. repeat split; auto; lia.
  - rewrite (to_i8_small (err - DY)) by lia. apply to_i8_small.
    unfold line_err_ok in Hxy. lia.
  - rewrite to_u8_small by (unfold is_u8; lia). lia.
  - rewrite to_u8_small by (unfold is_u8; lia). lia.
Qed.

Lemma line_inv_row_step a b err :
  line_inv a b err -> ~ (a = DX /\ b = DY) -> err <= - DX -> err < DY ->
  line_inv a (b + 1) (err + DX) /\
  to_i8 (err + DX) = err + DX /\ to_u8 (r1 + sy * b + sy) = r1 + sy * (b + 1).
Proof using HPIXELS HRESOLUTION Hc1 Hc2 Hr1 Hr2 Hnear.
  intros Hinv Hend Hx Hy.
  destruct (line_inv_range a b err Hinv Hend) as (Hok & HDX & HDY & Hrange).
  destruct Hinv as (Ha & Hb & Herr & _).
  destruct (line_step DX DY a b err Ha Hb Herr Hok Hend) as (_ & Hyb & _ & _ & _ & Hy').
  specialize (Hyb Hy). specialize (Hy' Hx Hy).
  destruct (line_position a (b + 1)) as (_ & Hr' & _); try lia.
  split; [|split].
  - unfold line_inv. repeat split; auto; lia.
  - apply to_i8_small. unfold line_err_ok in Hy'. lia.
  - rewrite to_u8_small by (unfold is_u8; lia). lia.
Qed.

Lemma line_never_stalls a b err :
  line_inv a b err -> ~ (a = DX /\ b = DY) -> ~ (err <= - DX /\ DY <= err).
Proof using HPIXELS Hr1 Hr2 Hnear.
  intros Hinv Hend [Hx Hy].
  destruct (line_inv_range a b err Hinv Hend) as (Hok & _).
  destruct Hinv as (Ha & Hb & Herr & _).
  destruct (line_step DX DY a b err Ha Hb Herr Hok Hend) as (_ & _ & Hmove & _). lia.
Qed.

(** One round of the loop: either the endpoint is reached and the loop
    returns, or it goes on from a state with more steps taken. *)
Lemma DrawLine_round fuel a b err d :
  line_inv a b err -> length (PovDisplayData d) = Z.to_nat RESOLUTION ->
  exists d1, length (PovDisplayData d1) = Z.to_nat RESOLUTION /\ pixels_kept d d1 /\
    ((a = DX /\ b = DY /\
      DrawLine_loop RESOLUTION PIXELS (S fuel) DX sx DY sy c2 r2
        (c1 + sx * a) (r1 + sy * b) err d = Done d1) \/
     (exists a' b' err', line_inv a' b' err' /\ a + b < a' + b' /\
        DrawLine_loop RESOLUTION PIXELS (S fuel) DX sx DY sy c2 r2
          (c1 + sx * a) (r1 + sy * b) err d
        = DrawLine_loop RESOLUTION PIXELS fuel DX sx DY sy c2 r2
            (c1 + sx * a') (r1 + sy * b') err' d1)).
Proof using HPIXELS HRESOLUTION Hc1 Hc2 Hr1 Hr2 Hnear.
  intros Hinv Hlen. pose proof Hinv as (Ha & Hb & _).
  destruct (line_position a b Ha Hb) as (Hc & Hr & Hcend & Hrend).
  destruct (WritePixel_ON_Done (r1 + sy * b) (c1 + sx * a) d Hlen Hr Hc)
    as (d1 & Hw & Hlen1 & Hkept).
  exists d1. split; [exact Hlen1|]. split; [exact Hkept|].
  cbn [DrawLine_loop]. rewrite Hw, bind_Done.
  destruct (decide (a = DX /\ b = DY)) as [[Ea Eb]|Hend].
  { left. repeat split; auto.
    replace (r1 + sy * b =? r2) with true by (symmetry; apply Z.eqb_eq, Hrend, Eb).
    replace (c1 + sx * a =? c2) with true by (symmetry; apply Z.eqb_eq, Hcend, Ea).
    reflexivity. }
  right.
  replace ((r1 + sy * b =? r2) && (c1 + sx * a =? c2)) with false.
  2:{ symmetry. apply andb_false_iff.
      destruct (Z.eqb_spec (r1 + sy * b) r2), (Z.eqb_spec (c1 + sx * a) c2); tauto. }
  rewrite !Z.gtb_ltb.
  destruct (Z.ltb_spec (- DX) err) as [Hx|Hx], (Z.ltb_spec err DY) as [Hy|Hy].
  - destruct (line_inv_diagonal_step a b err Hinv Hend Hx Hy) as (Hinv' & E1 & E2 & E3).
    exists (a + 1), (b + 1), (err - DY + DX). rewrite E1, E2, E3.
    split; [exact Hinv'|]. split; [lia | reflexivity].
  - destruct (line_inv_column_step a b err Hinv Hend Hx Hy) as (Hinv' & E1 & E2).
    exists (a + 1), b, (err - DY). rewrite E1, E2.
    split; [exact Hinv'|]. split; [lia | reflexivity].
  - destruct (line_inv_row_step a b err Hinv Hend Hx Hy) as (Hinv' & E1 & E2).
    exists a, (b + 1), (err + DX). rewrite E1, E2.
    split; [exact Hinv'|]. split; [lia | reflexivity].
  - exfalso. apply (line_never_stalls a b err Hinv Hend). lia.
Qed.

(** The loop returns once all [DX] column steps and [DY] row steps are
    taken, which takes at most [DX + DY + 1] rounds. *)
Lemma DrawLine_loop_Done (m : nat) : forall fuel a b err d,
  (m < fuel)%nat -> DX - a + (DY - b) <= Z.of_nat m ->
  line_inv a b err -> length (PovDisplayData d) = Z.to_nat RESOLUTION ->
  exists d', DrawLine_loop RESOLUTION PIXELS fuel DX sx DY sy c2 r2
               (c1 + sx * a) (r1 + sy * b) err d = Done d' /\
             pixels_kept d d'.
Proof using HPIXELS HRESOLUTION Hc1 Hc2 Hr1 Hr2 Hnear.
  induction m as [|m IH]; intros fuel a b err d Hfuel Hm Hinv Hlen;
    (destruct fuel as [|fuel]; [lia|]);
    destruct (DrawLine_round fuel a b err d Hinv Hlen)
      as (d1 & Hlen1 & Hkept & [(Ea & Eb & Hdone)|(a' & b' & err' & Hinv' & Hmore & Hgo)]);
    try (exists d1; split; assumption).
  - destruct Hinv' as (Ha' & Hb' & _). destruct Hinv as (Ha & Hb & _). lia.
  - assert (DX - a' + (DY - b') <= Z.of_nat m) as Hm' by lia.
    destruct (IH fuel a' b' err' d1 ltac:(lia) Hm' Hinv' Hlen1) as (d' & Hrun & Hkept').
    exists d'. split; [congruence|]. eapply pixels_kept_trans; eauto.
Qed.

End Endpoints.

(** drawLine between in-bounds endpoints at most 127 columns apart
    returns, within |dcol| + |drow| + 1 rounds, and only lights pixels. *)
Lemma DrawLine_near_Done c1 r1 c2 r2 fuel d :
  PIXELS <= 8 -> RESOLUTION <= 255 ->
  0 <= c1 < RESOLUTION -> 0 <= r1 < PIXELS -> 0 <= c2 < RESOLUTION -> 0 <= r2 < PIXELS ->
  Z.abs (c2 - c1) <= 127 ->
  length (PovDisplayData d) = Z.to_nat RESOLUTION ->
  (Z.to_nat (Z.abs (c2 - c1) + Z.abs (r2 - r1)) < fuel)%nat ->
  exists d', POV_DrawLine RESOLUTION PIXELS fuel c1 r1 c2 r2 d = Done d' /\ pixels_kept d d'.
Proof.
  intros HP HRes Hc1 Hr1 Hc2 Hr2 Hnear Hlen Hfuel. unfold POV_DrawLine.
  replace ((r1 >=? PIXELS) || (c1 >=? RESOLUTION) || (r2 >=? PIXELS) || (c2 >=? RESOLUTION))
    with false by (symmetry; zcases; reflexivity).
  set (DX := Z.abs (c2 - c1)) in *. set (DY := Z.abs (r2 - r1)) in *.
  assert (0 <= DX <= 127) as HDX by (unfold DX; lia).
  assert (0 <= DY <= 7) as HDY by (unfold DY; lia).
  rewrite (to_i8_small DX), (to_i8_small DY) by lia.
  fold (line_err0 DX DY).
  assert (-128 <= line_err0 DX DY <= 127) as Herr0
    by (destruct (line_err0_cases DX DY ltac:(lia) ltac:(lia)) as [[? ?]|[? ?]]; lia).
  rewrite (to_i8_small (line_err0 DX DY)) by exact Herr0.
  set (sx := if c1 <? c2 then 1 else -1). set (sy := if r1 <? r2 then 1 else -1).
  destruct (DrawLine_loop_Done c1 r1 c2 r2 HP HRes Hc1 Hc2 Hr1 Hr2 Hnear
              (Z.to_nat (DX + DY)) fuel 0 0 (line_err0 DX DY) d)
    as (d' & Hrun & Hkept); auto; try (fold DX DY; lia).
  { fold DX DY. repeat split; try lia.
    destruct (Z.eq_dec (DX + DY) 0); [right; lia | left; apply line_err0_ok; lia]. }
  rewrite !Z.mul_0_r, !Z.add_0_r in Hrun. exists d'. split; assumption.
Qed.

(** ** Endpoints 128 columns apart

    [int8_t dx = abs(Column2 - Column1)] turns 128 into -128: neither
    guard of the loop body fires, the position never changes and the loop
    never reaches its [break]. *)
Lemma DrawLine_stalled_loop fuel : forall d,
  128 < RESOLUTION -> 0 < PIXELS ->
  length (PovDisplayData d) = Z.to_nat RESOLUTION ->
  DrawLine_loop RESOLUTION PIXELS fuel (-128) 1 0 (-1) 128 0 0 0 0 d = Timeout.
Proof.
  induction fuel as [|fuel IH]; intros d HR HP Hlen; [reflexivity|].
  cbn [DrawLine_loop].
  destruct (WritePixel_ON_Done 0 0 d Hlen) as (d1 & Hw & Hlen1 & _); try lia.
  rewrite Hw, bind_Done.
  change ((0 =? 0) && (0 =? 128)) with false.
  change (0 >? - -128) with false. change (0 <? 0) with false.
  cbv iota. apply IH; auto.
Qed.

Lemma DrawLine_128_columns_Timeout fuel d :
  128 < RESOLUTION -> 0 < PIXELS ->
  length (PovDisplayData d) = Z.to_nat RESOLUTION ->
  POV_DrawLine RESOLUTION PIXELS fuel 0 0 128 0 d = Timeout.
Proof.
  intros HR HP Hlen. unfold POV_DrawLine.
  replace ((0 >=? PIXELS) || (0 >=? RESOLUTION) || (0 >=? PIXELS) || (128 >=? RESOLUTION))
    with false by (symmetry; zcases; reflexivity).
  change (to_i8 (Z.abs (128 - 0))) with (-128).
  change (to_i8 (Z.abs (0 - 0))) with 0.
  change (0 <? 128) with true. change (0 <? 0) with false. cbv iota.
  change (to_i8 ((if -128 >? 0 then -128 else - 0) ÷ 2)) with 0.
  apply DrawLine_stalled_loop; auto.
Qed.

End Line.

Lemma DrawLine_near_Done_example :
  exists d', POV_DrawLine Sample.RESOLUTION Sample.PIXELS 10 0 0 4 4 Sample.blank = Done d' /\
    take 6 (PovDisplayData d') = [1; 2; 4; 8; 16; 0].
Proof. eexists. split; [vm_compute; reflexivity | reflexivity]. Qed.

(** C6 fails on the code for a display wider than 128 columns: on the
    sample build (200 columns) drawLine from (column 0, row 0) to
    (column 128, row 0), both in bounds, does not return whatever the
    number of rounds it is given. *)
Theorem DrawLine_0_0_128_0_never_returns :
  forall fuel : nat,
    POV_DrawLine Sample.RESOLUTION Sample.PIXELS fuel 0 0 128 0 Sample.blank = Timeout.
Proof.
  intros fuel. apply DrawLine_128_columns_Timeout.
  - unfold Sample.RESOLUTION. lia.
  - unfold Sample.PIXELS. lia.
  - reflexivity.
Qed.

(** * Further properties of the drawing engine *)

Section MorePixels.

Variables RESOLUTION PIXELS : Z.

Lemma ReadPixel_value r c v d :
  0 <= r < PIXELS -> 0 <= c < RESOLUTION ->
  PovDisplayData d !! Z.to_nat c = Some v ->
  POV_ReadPixel RESOLUTION PIXELS r c d = Done (Z.b2z (Z.testbit v r)).
Proof.
  intros Hr Hc Hv. unfold POV_ReadPixel, fb_load.
  replace ((c >=? RESOLUTION) || (r >=? PIXELS)) with false by (symmetry; zcases; reflexivity).
  replace ((0 <=? c) && (c <? RESOLUTION)) with true by (symmetry; zcases; reflexivity).
  rewrite Hv, bind_Done. unfold ON. rewrite pixel_bit by lia. rewrite b2z_is_u8. reflexivity.
Qed.

Lemma ReadPixel_outside r c d :
  r >= PIXELS \/ c >= RESOLUTION -> POV_ReadPixel RESOLUTION PIXELS r c d = Done 0.
Proof. intros H. unfold POV_ReadPixel. destruct H; zcases; reflexivity. Qed.

(** Reading a pixel only looks at one bit of one column. *)
Lemma ReadPixel_same_bit r c d d' :
  length (PovDisplayData d) = Z.to_nat RESOLUTION ->
  length (PovDisplayData d') = Z.to_nat RESOLUTION ->
  0 <= r -> 0 <= c ->
  (forall v, PovDisplayData d !! Z.to_nat c = Some v ->
     exists v', PovDisplayData d' !! Z.to_nat c = Some v' /\ Z.testbit v' r = Z.testbit v r) ->
  POV_ReadPixel RESOLUTION PIXELS r c d' = POV_ReadPixel RESOLUTION PIXELS r c d.
Proof.
  intros Hlen Hlen' Hr Hc Hsame.
  destruct (Z.lt_ge_cases r PIXELS) as [Hr'|Hr'];
    [destruct (Z.lt_ge_cases c RESOLUTION) as [Hc'|Hc']|].
  - destruct (lookup_lt_is_Some_2 (PovDisplayData d) (Z.to_nat c)) as [v Hv]; [lia|].
    destruct (Hsame v Hv) as (v' & Hv' & Hbit).
    rewrite (ReadPixel_value r c v' d'), (ReadPixel_value r c v d) by (auto; lia).
    rewrite Hbit. reflexivity.
  - rewrite !ReadPixel_outside by lia. reflexivity.
  - rewrite !ReadPixel_outside by lia. reflexivity.
Qed.

(** X1: writePixel changes no pixel but the one it addresses: every
    other coordinate reads as before, and the cursor stays.  With a state
    that is neither ON nor OFF nothing changes at all. *)
Theorem WritePixel_other_pixels (Row Column State r c : Z) (d : Display) :
  PIXELS <= 8 -> length (PovDisplayData d) = Z.to_nat RESOLUTION ->
  is_u8 Row -> is_u8 Column -> is_u8 r -> is_u8 c ->
  exists d', POV_WritePixel RESOLUTION PIXELS Row Column State d = Done d' /\
    CursPos d' = CursPos d /\ PixelPos d' = PixelPos d /\
    length (PovDisplayData d') = length (PovDisplayData d) /\
    (r <> Row \/ c <> Column ->
       POV_ReadPixel RESOLUTION PIXELS r c d' = POV_ReadPixel RESOLUTION PIXELS r c d) /\
    (State <> ON -> State <> OFF -> d' = d).
Proof.
  intros HP Hlen [HR0 HR1] [HC0 HC1] [Hr0 Hr1] [Hc0 Hc1].
  unfold POV_WritePixel, ON, OFF.
  destruct (((State =? 1) || (State =? 0)) && (PIXELS >? Row) && (RESOLUTION >? Column)) eqn:G.
  2:{ exists d. repeat split; auto. }
  apply andb_true_iff in G as [G GC]. apply andb_true_iff in G as [GS GR].
  rewrite Z.gtb_ltb in GC, GR. apply Z.ltb_lt in GC, GR.
  destruct (fb_load_Done RESOLUTION Column d Hlen) as (v & Hv & Hload); [lia|].
  rewrite Hload, !bind_Done, !fb_store_Done by (auto; lia).
  assert (forall w, (forall n, 0 <= n < 8 -> n <> Row -> Z.testbit w n = Z.testbit v n) ->
            r <> Row \/ c <> Column ->
            POV_ReadPixel RESOLUTION PIXELS r c
              (set_PovDisplayData (<[Z.to_nat Column := to_u8 w]> (PovDisplayData d)) d)
            = POV_ReadPixel RESOLUTION PIXELS r c d) as Hframe.
  { intros w Hw Hne.
    destruct (Z.lt_ge_cases r PIXELS) as [Hr'|Hr']; [|rewrite !ReadPixel_outside by lia; reflexivity].
    apply ReadPixel_same_bit; simpl; auto; try (rewrite length_insert; exact Hlen).
    intros u Hu. destruct (Z.eq_dec c Column) as [->|Hcne].
    - rewrite list_lookup_insert_eq by lia. eexists; split; [reflexivity|].
      rewrite Hv in Hu. injection Hu as <-.
      rewrite testbit_to_u8 by lia. apply Hw; [lia|]. destruct Hne; congruence.
    - rewrite list_lookup_insert_ne by lia. exists u. auto. }
  destruct (Z.eqb_spec State 1) as [->|Hon].
  - eexists; split; [reflexivity|]. simpl. repeat split; auto using length_insert; try congruence.
    apply Hframe. intros n Hn Hne. rewrite Z.lor_spec, testbit_bit by lia.
    replace (n =? Row) with false by (symmetry; apply Z.eqb_neq; exact Hne).
    apply orb_false_r.
  - eexists; split; [reflexivity|]. simpl. repeat split; auto using length_insert.
    + apply Hframe. intros n Hn Hne. rewrite Z.land_spec, Z.lnot_spec, testbit_bit by lia.
      replace (n =? Row) with false by (symmetry; apply Z.eqb_neq; exact Hne).
      apply andb_true_r.
    + intros _ Hoff. exfalso. simpl in GS. apply Z.eqb_eq in GS. congruence.
Qed.

(** X2: readPixel is bit [Row] of what readColumn returns. *)
Theorem ReadPixel_of_ReadColumn (Row Column : Z) (d : Display) :
  length (PovDisplayData d) = Z.to_nat RESOLUTION ->
  0 <= Row < PIXELS -> 0 <= Column < RESOLUTION ->
  exists v, POV_ReadColumn RESOLUTION Column d = Done v /\
    POV_ReadPixel RESOLUTION PIXELS Row Column d = Done (Z.b2z (Z.testbit v Row)).
Proof.
  intros Hlen HR HC.
  destruct (fb_load_Done RESOLUTION Column d Hlen HC) as (v & Hv & Hload).
  exists v. split.
  - unfold POV_ReadColumn. replace (Column >=? RESOLUTION) with false
      by (symmetry; zcases; reflexivity). exact Hload.
  - apply ReadPixel_value; auto.
Qed.

(** X3: a column written inside the display is read back (as a byte),
    the other columns read as before; outside the display a write changes
    nothing and a read gives 0. *)
Theorem WriteColumn_then_ReadColumn (Column Value c : Z) (d : Display) :
  length (PovDisplayData d) = Z.to_nat RESOLUTION -> 0 <= Column -> 0 <= c ->
  (Column < RESOLUTION ->
   exists d', POV_WriteColumn RESOLUTION Column Value d = Done d' /\
     POV_ReadColumn RESOLUTION Column d' = Done (Value mod 256) /\
     (c <> Column -> POV_ReadColumn RESOLUTION c d' = POV_ReadColumn RESOLUTION c d) /\
     CursPos d' = CursPos d /\ PixelPos d' = PixelPos d) /\
  (Column >= RESOLUTION ->
   POV_WriteColumn RESOLUTION Column Value d = Done d /\
   POV_ReadColumn RESOLUTION Column d = Done 0).
Proof.
  intros Hlen HC Hc. split; intros HR; unfold POV_WriteColumn, POV_ReadColumn.
  - replace (Column >=? RESOLUTION) with false by (symmetry; zcases; reflexivity).
    rewrite fb_store_Done by (auto; lia). eexists; split; [reflexivity|].
    repeat split; auto.
    + unfold fb_load. simpl.
      replace ((0 <=? Column) && (Column <? RESOLUTION)) with true
        by (symmetry; zcases; reflexivity).
      rewrite list_lookup_insert_eq by lia. reflexivity.
    + intros Hne. destruct (c >=? RESOLUTION); [reflexivity|].
      unfold fb_load. simpl. rewrite list_lookup_insert_ne by lia. reflexivity.
  - replace (Column >=? RESOLUTION) with true by (symmetry; zcases; reflexivity).
    split; reflexivity.
Qed.

(** X4: after clear every column and every pixel reads 0 and the cursor
    is at slot 0, column 0. *)
Theorem Clear_reads_zero (d : Display) (r c : Z) :
  0 < RESOLUTION <= 255 -> length (PovDisplayData d) = Z.to_nat RESOLUTION ->
  0 <= r -> 0 <= c ->
  exists d', POV_Clear RESOLUTION d = Done d' /\
    CursPos d' = 0 /\ PixelPos d' = 0 /\
    POV_ReadColumn RESOLUTION c d' = Done 0 /\
    POV_ReadPixel RESOLUTION PIXELS r c d' = Done 0.
Proof.
  intros HR Hlen Hr Hc.
  destruct (Clear_inv RESOLUTION 0 d ltac:(lia) ltac:(lia) Hlen)
    as (d' & Hrun & [Hlen' _] & HC & Hz).
  exists d'. split; [exact Hrun|]. split; [exact HC|].
  assert (PixelPos d' = 0) as HPx.
  { unfold POV_Clear in Hrun.
    destruct (for_u8 u8_fuel _ _ 0 d) as [d1| |]; simpl in Hrun; try discriminate.
    injection Hrun as <-. reflexivity. }
  split; [exact HPx|].
  assert (forall k, 0 <= k < RESOLUTION -> PovDisplayData d' !! Z.to_nat k = Some 0) as Hcol.
  { intros k Hk. rewrite Hz. apply lookup_replicate_2. lia. }
  split.
  - unfold POV_ReadColumn, fb_load. destruct (Z.geb_spec c RESOLUTION); [reflexivity|].
    replace ((0 <=? c) && (c <? RESOLUTION)) with true by (symmetry; zcases; reflexivity).
    rewrite Hcol by lia. reflexivity.
  - destruct (Z.lt_ge_cases r PIXELS) as [Hr'|Hr'];
      [destruct (Z.lt_ge_cases c RESOLUTION) as [Hc'|Hc']|];
      try (apply ReadPixel_outside; lia).
    rewrite (ReadPixel_value r c 0 d') by (auto; lia).
    rewrite Z.bits_0. reflexivity.
Qed.

(** X5: invert flips every pixel of the display: a pixel that read b
    reads 1 - b afterwards. *)
Theorem InvertDisplay_flips_pixel (d : Display) (Row Column : Z) :
  PIXELS <= 8 -> 0 <= RESOLUTION <= 255 ->
  length (PovDisplayData d) = Z.to_nat RESOLUTION ->
  0 <= Row < PIXELS -> 0 <= Column < RESOLUTION ->
  exists d' b, POV_InvertDisplay RESOLUTION d = Done d' /\
    POV_ReadPixel RESOLUTION PIXELS Row Column d = Done b /\
    POV_ReadPixel RESOLUTION PIXELS Row Column d' = Done (1 - b) /\
    (b = 0 \/ b = 1).
Proof.
  intros HP HRes Hlen HR HC.
  destruct (InvertDisplay_columns RESOLUTION d HRes Hlen) as (d' & Hrun & _ & _ & HL & Hk).
  destruct (lookup_lt_is_Some_2 (PovDisplayData d) (Z.to_nat Column)) as [v Hv]; [lia|].
  exists d', (Z.b2z (Z.testbit v Row)). split; [exact Hrun|].
  split; [apply ReadPixel_value; auto|]. split.
  - rewrite (ReadPixel_value Row Column (to_u8 (Z.lnot v)) d'); auto.
    + rewrite testbit_to_u8, Z.lnot_spec by lia. destruct (Z.testbit v Row); reflexivity.
    + rewrite Hk, Z2Nat.id, Hv by lia.
      replace ((0 <=? Column) && (Column <? RESOLUTION)) with true
        by (symmetry; zcases; reflexivity). reflexivity.
  - destruct (Z.testbit v Row); auto.
Qed.

End MorePixels.

Lemma WritePixel_other_pixels_witness :
  exists d', POV_WritePixel Sample.RESOLUTION Sample.PIXELS 3 7 OFF Sample.lit = Done d' /\
    CursPos d' = CursPos Sample.lit /\ PixelPos d' = PixelPos Sample.lit /\
    length (PovDisplayData d') = length (PovDisplayData Sample.lit) /\
    (4 <> 3 \/ 7 <> 7 ->
       POV_ReadPixel Sample.RESOLUTION Sample.PIXELS 4 7 d' = POV_ReadPixel Sample.RESOLUTION Sample.PIXELS 4 7 Sample.lit) /\
    (OFF <> ON -> OFF <> OFF -> d' = Sample.lit).
Proof.
  apply (WritePixel_other_pixels Sample.RESOLUTION Sample.PIXELS 3 7 OFF 4 7 Sample.lit);
    unfold is_u8, is_u16, Sample.PIXELS, Sample.RESOLUTION, Sample.FONTSIZE; simpl; try lia;
    auto using sample_blank_wf, sample_lit_wf.
Defined.

Lemma ReadPixel_of_ReadColumn_witness :
  exists v, POV_ReadColumn Sample.RESOLUTION 7 Sample.lit = Done v /\
    POV_ReadPixel Sample.RESOLUTION Sample.PIXELS 3 7 Sample.lit = Done (Z.b2z (Z.testbit v 3)).
Proof.
  apply (ReadPixel_of_ReadColumn Sample.RESOLUTION Sample.PIXELS 3 7 Sample.lit);
    unfold is_u8, is_u16, Sample.PIXELS, Sample.RESOLUTION, Sample.FONTSIZE; simpl; try lia;
    auto using sample_blank_wf, sample_lit_wf.
Defined.

Lemma WriteColumn_then_ReadColumn_witness :
  (exists d', POV_WriteColumn Sample.RESOLUTION 7 300 Sample.blank = Done d' /\
     POV_ReadColumn Sample.RESOLUTION 7 d' = Done (300 mod 256) /\
     (9 <> 7 -> POV_ReadColumn Sample.RESOLUTION 9 d' = POV_ReadColumn Sample.RESOLUTION 9 Sample.blank) /\
     CursPos d' = CursPos Sample.blank /\ PixelPos d' = PixelPos Sample.blank) /\
  (POV_WriteColumn Sample.RESOLUTION 200 300 Sample.lit = Done Sample.lit /\
   POV_ReadColumn Sample.RESOLUTION 200 Sample.lit = Done 0).
Proof.
  split.
  - apply (WriteColumn_then_ReadColumn Sample.RESOLUTION 7 300 9 Sample.blank);
      unfold is_u8, is_u16, Sample.PIXELS, Sample.RESOLUTION, Sample.FONTSIZE; simpl; try lia;
    auto using sample_blank_wf, sample_lit_wf.
  - apply (WriteColumn_then_ReadColumn Sample.RESOLUTION 200 300 9 Sample.lit);
      unfold is_u8, is_u16, Sample.PIXELS, Sample.RESOLUTION, Sample.FONTSIZE; simpl; try lia;
    auto using sample_blank_wf, sample_lit_wf.
Defined.

Lemma Clear_reads_zero_witness :
  exists d', POV_Clear Sample.RESOLUTION Sample.lit = Done d' /\
    CursPos d' = 0 /\ PixelPos d' = 0 /\
    POV_ReadColumn Sample.RESOLUTION 7 d' = Done 0 /\
    POV_ReadPixel Sample.RESOLUTION Sample.PIXELS 3 7 d' = Done 0.
Proof.
  apply (Clear_reads_zero Sample.RESOLUTION Sample.PIXELS Sample.lit 3 7);
    unfold is_u8, is_u16, Sample.PIXELS, Sample.RESOLUTION, Sample.FONTSIZE; simpl; try lia;
    auto using sample_blank_wf, sample_lit_wf.
Defined.

Lemma InvertDisplay_flips_pixel_witness :
  exists d' b, POV_InvertDisplay Sample.RESOLUTION Sample.lit = Done d' /\
    POV_ReadPixel Sample.RESOLUTION Sample.PIXELS 3 7 Sample.lit = Done b /\
    POV_ReadPixel Sample.RESOLUTION Sample.PIXELS 3 7 d' = Done (1 - b) /\
    (b = 0 \/ b = 1).
Proof.
  apply (InvertDisplay_flips_pixel Sample.RESOLUTION Sample.PIXELS Sample.lit 3 7);
    unfold is_u8, is_u16, Sample.PIXELS, Sample.RESOLUTION, Sample.FONTSIZE; simpl; try lia;
    auto using sample_blank_wf, sample_lit_wf.
Defined.

Section MoreText.

Variables RESOLUTION FONTSIZE : Z.
Variable POV_Font : Z -> Z -> Z.

Lemma WriteChar_columns Chr d :
  0 <= FONTSIZE -> FONTSIZE + 1 <= RESOLUTION <= 255 ->
  length (PovDisplayData d) = Z.to_nat RESOLUTION ->
  cursor_in_range RESOLUTION FONTSIZE d ->
  exists d', POV_WriteChar RESOLUTION FONTSIZE POV_Font Chr d = Done d' /\
    (forall k, 0 <= k < FONTSIZE ->
       PovDisplayData d' !! Z.to_nat (CursPos d * (FONTSIZE + 1) + k)
       = Some (to_u8 (POV_Font (Chr - 32) k))) /\
    PovDisplayData d' !! Z.to_nat (CursPos d * (FONTSIZE + 1) + FONTSIZE) = Some 0 /\
    (forall k, 0 <= k ->
       ~ (CursPos d * (FONTSIZE + 1) <= k <= CursPos d * (FONTSIZE + 1) + FONTSIZE) ->
       PovDisplayData d' !! Z.to_nat k = PovDisplayData d !! Z.to_nat k) /\
    length (PovDisplayData d') = length (PovDisplayData d) /\
    CursPos d' = (CursPos d + 1) mod (RESOLUTION / (FONTSIZE + 1)) /\
    PixelPos d' = CursPos d * (FONTSIZE + 1) + FONTSIZE.
Proof.
  intros HF HR Hlen Hc.
  destruct (WriteChar_spec RESOLUTION FONTSIZE POV_Font Chr d HF HR Hlen Hc)
    as (d' & Hw & HC & HPx & HL & Hk).
  destruct (cursor_column_bound RESOLUTION FONTSIZE (CursPos d) HF HR Hc) as [Hp0 Hp1].
  exists d'. split; [exact Hw|].
  assert (forall k, 0 <= k < RESOLUTION ->
            exists v, PovDisplayData d !! Z.to_nat k = Some v) as Hcol
    by (intros k Hk'; apply lookup_lt_is_Some_2; lia).
  repeat split; auto.
  - intros k Hk'. destruct (Hcol (CursPos d * (FONTSIZE + 1) + k)) as [v Hv]; [lia|].
    rewrite (WriteChar_column RESOLUTION FONTSIZE POV_Font Chr d d' _ v Hk) by (auto; lia).
    f_equal. unfold char_cell. zcases. do 2 f_equal. lia.
  - destruct (Hcol (CursPos d * (FONTSIZE + 1) + FONTSIZE)) as [v Hv]; [lia|].
    rewrite (WriteChar_column RESOLUTION FONTSIZE POV_Font Chr d d' _ v Hk) by (auto; lia).
    f_equal. unfold char_cell. zcases; reflexivity.
  - intros k Hk0 Hout. rewrite Hk, Z2Nat.id by lia.
    destruct (PovDisplayData d !! Z.to_nat k); [|reflexivity]. simpl. f_equal.
    unfold char_cell. zcases; reflexivity.
Qed.

(** X6: writeChar with the cursor on slot s puts the FONTSIZE glyph
    columns of the character at columns s*(FONTSIZE+1) onwards, a blank
    column behind them, leaves every other column alone and moves the
    cursor to slot s+1 modulo the slot count. *)
Theorem WriteChar_effect (Chr : Z) (d : Display) :
  0 <= FONTSIZE -> FONTSIZE + 1 <= RESOLUTION <= 255 ->
  length (PovDisplayData d) = Z.to_nat RESOLUTION ->
  0 <= CursPos d < RESOLUTION / (FONTSIZE + 1) ->
  exists d', POV_WriteChar RESOLUTION FONTSIZE POV_Font Chr d = Done d' /\
    (forall k, 0 <= k < FONTSIZE ->
       PovDisplayData d' !! Z.to_nat (CursPos d * (FONTSIZE + 1) + k)
       = Some (to_u8 (POV_Font (Chr - 32) k))) /\
    PovDisplayData d' !! Z.to_nat (CursPos d * (FONTSIZE + 1) + FONTSIZE) = Some 0 /\
    (forall k, 0 <= k ->
       ~ (CursPos d * (FONTSIZE + 1) <= k <= CursPos d * (FONTSIZE + 1) + FONTSIZE) ->
       PovDisplayData d' !! Z.to_nat k = PovDisplayData d !! Z.to_nat k) /\
    length (PovDisplayData d') = length (PovDisplayData d) /\
    CursPos d' = (CursPos d + 1) mod (RESOLUTION / (FONTSIZE + 1)) /\
    PixelPos d' = CursPos d * (FONTSIZE + 1) + FONTSIZE.
Proof. intros HF HR Hlen Hc. apply WriteChar_columns; auto. Qed.

(** X7: writeCharAt with a slot in range does not depend on where the
    cursor was, not even on its being in range: the character lands at
    columns Pos*(FONTSIZE+1) onwards and the cursor ends on slot Pos+1
    modulo the slot count. *)
Theorem WriteCharInPos_effect (Chr Pos : Z) (d : Display) :
  0 <= FONTSIZE -> FONTSIZE + 1 <= RESOLUTION <= 255 ->
  length (PovDisplayData d) = Z.to_nat RESOLUTION ->
  0 <= Pos < RESOLUTION / (FONTSIZE + 1) ->
  exists d', POV_WriteCharInPos RESOLUTION FONTSIZE POV_Font Chr Pos d = Done d' /\
    (forall k, 0 <= k < FONTSIZE ->
       PovDisplayData d' !! Z.to_nat (Pos * (FONTSIZE + 1) + k)
       = Some (to_u8 (POV_Font (Chr - 32) k))) /\
    PovDisplayData d' !! Z.to_nat (Pos * (FONTSIZE + 1) + FONTSIZE) = Some 0 /\
    (forall k, 0 <= k ->
       ~ (Pos * (FONTSIZE + 1) <= k <= Pos * (FONTSIZE + 1) + FONTSIZE) ->
       PovDisplayData d' !! Z.to_nat k = PovDisplayData d !! Z.to_nat k) /\
    CursPos d' = (Pos + 1) mod (RESOLUTION / (FONTSIZE + 1)).
Proof.
  intros HF HR Hlen HPos.
  destruct (slots_facts RESOLUTION FONTSIZE HF HR) as (Hq & _).
  unfold POV_WriteCharInPos, POV_SetCursor. rewrite Hq, Z.gtb_ltb.
  replace (Pos <? RESOLUTION / (FONTSIZE + 1)) with true by (symmetry; apply Z.ltb_lt; lia).
  rewrite bind_Done.
  set (d1 := set_PixelPos _ (set_CursPos Pos d)).
  destruct (WriteChar_columns Chr d1 HF HR) as (d' & Hw & Hg & Hb & Ho & _ & HC & _); auto.
  exists d'. split; [exact Hw|]. repeat split; auto.
Qed.

Lemma WriteString_cursor (Str : list Z) (d : Display) :
  0 <= FONTSIZE -> FONTSIZE + 1 <= RESOLUTION <= 255 ->
  length (PovDisplayData d) = Z.to_nat RESOLUTION ->
  0 <= CursPos d < RESOLUTION / (FONTSIZE + 1) ->
  Forall (fun c => c <> 0) Str ->
  exists d', POV_WriteString RESOLUTION FONTSIZE POV_Font Str d = Done d' /\
    length (PovDisplayData d') = Z.to_nat RESOLUTION /\
    CursPos d' = (CursPos d + Z.of_nat (length Str)) mod (RESOLUTION / (FONTSIZE + 1)).
Proof.
  intros HF HR. destruct (slots_facts RESOLUTION FONTSIZE HF HR) as (_ & _ & Hs & _).
  revert d. induction Str as [|c Str IH]; intros d Hlen Hc Hnz.
  - exists d. repeat split; auto. simpl. rewrite Z.add_0_r, Z.mod_small by lia. reflexivity.
  - inversion Hnz as [|? ? Hc0 Hrest]; subst.
    cbn [POV_WriteString]. replace (c =? 0) with false by (symmetry; apply Z.eqb_neq; exact Hc0).
    destruct (WriteChar_spec RESOLUTION FONTSIZE POV_Font c d HF HR Hlen Hc)
      as (d1 & Hw & HC1 & _ & HL1 & _).
    rewrite Hw, bind_Done.
    destruct (IH d1) as (d' & Hrun & Hlen' & HC'); auto; try congruence.
    { rewrite HC1. apply Z.mod_pos_bound. lia. }
    exists d'. split; [exact Hrun|]. split; [exact Hlen'|].
    rewrite HC', HC1, Z.add_mod_idemp_l by lia. f_equal. simpl length. lia.
Qed.

(** X8: a string of n characters, none of them NUL, written from an
    in-range cursor completes with every store inside the framebuffer and
    leaves the cursor n slots further, modulo the slot count. *)
Theorem WriteString_advances_cursor (Str : list Z) (d : Display) :
  0 <= FONTSIZE -> FONTSIZE + 1 <= RESOLUTION <= 255 ->
  length (PovDisplayData d) = Z.to_nat RESOLUTION ->
  0 <= CursPos d < RESOLUTION / (FONTSIZE + 1) ->
  Forall (fun c => c <> 0) Str ->
  exists d', POV_WriteString RESOLUTION FONTSIZE POV_Font Str d = Done d' /\
    length (PovDisplayData d') = Z.to_nat RESOLUTION /\
    CursPos d' = (CursPos d + Z.of_nat (length Str)) mod (RESOLUTION / (FONTSIZE + 1)).
Proof. intros. apply WriteString_cursor; auto. Qed.


(** X9: writeString stops at the first NUL byte and otherwise writes its
    characters one after the other: two strings in a row are written as
    their concatenation, and whatever follows a NUL is ignored. *)
Theorem WriteString_app_and_NUL (s1 s2 : list Z) (d : Display) :
  Forall (fun c => c <> 0) s1 ->
  POV_WriteString RESOLUTION FONTSIZE POV_Font (s1 ++ s2) d
  = (d1 ← POV_WriteString RESOLUTION FONTSIZE POV_Font s1 d;
     POV_WriteString RESOLUTION FONTSIZE POV_Font s2 d1) /\
  POV_WriteString RESOLUTION FONTSIZE POV_Font (s1 ++ 0 :: s2) d
  = POV_WriteString RESOLUTION FONTSIZE POV_Font s1 d.
Proof.
  intros Hnz. revert d. induction Hnz as [|c s1 Hc Hrest IH]; intros d.
  - split; reflexivity.
  - cbn [app POV_WriteString].
    replace (c =? 0) with false by (symmetry; apply Z.eqb_neq; exact Hc).
    destruct (POV_WriteChar RESOLUTION FONTSIZE POV_Font c d) as [d1| |].
    + rewrite !bind_Done. apply IH.
    + split; reflexivity.
    + split; reflexivity.
Qed.

End MoreText.

Lemma WriteChar_effect_witness :
  exists d', POV_WriteChar Sample.RESOLUTION Sample.FONTSIZE Sample.POV_Font 65 Sample.lit = Done d' /\
    (forall k, 0 <= k < Sample.FONTSIZE ->
       PovDisplayData d' !! Z.to_nat (CursPos Sample.lit * (Sample.FONTSIZE + 1) + k)
       = Some (to_u8 (Sample.POV_Font (65 - 32) k))) /\
    PovDisplayData d' !! Z.to_nat (CursPos Sample.lit * (Sample.FONTSIZE + 1) + Sample.FONTSIZE) = Some 0 /\
    (forall k, 0 <= k ->
       ~ (CursPos Sample.lit * (Sample.FONTSIZE + 1) <= k <= CursPos Sample.lit * (Sample.FONTSIZE + 1) + Sample.FONTSIZE) ->
       PovDisplayData d' !! Z.to_nat k = PovDisplayData Sample.lit !! Z.to_nat k) /\
    length (PovDisplayData d') = length (PovDisplayData Sample.lit) /\
    CursPos d' = (CursPos Sample.lit + 1) mod (Sample.RESOLUTION / (Sample.FONTSIZE + 1)) /\
    PixelPos d' = CursPos Sample.lit * (Sample.FONTSIZE + 1) + Sample.FONTSIZE.
Proof.
  apply (WriteChar_effect Sample.RESOLUTION Sample.FONTSIZE Sample.POV_Font 65 Sample.lit);
    unfold is_u8, is_u16, Sample.PIXELS, Sample.RESOLUTION, Sample.FONTSIZE; simpl;
    try lia; try (vm_compute; split; [discriminate | reflexivity]);
    auto using sample_blank_wf, sample_lit_wf.
Defined.

Lemma WriteCharInPos_effect_witness :
  exists d', POV_WriteCharInPos Sample.RESOLUTION Sample.FONTSIZE Sample.POV_Font 66 32 Sample.lit = Done d' /\
    (forall k, 0 <= k < Sample.FONTSIZE ->
       PovDisplayData d' !! Z.to_nat (32 * (Sample.FONTSIZE + 1) + k)
       = Some (to_u8 (Sample.POV_Font (66 - 32) k))) /\
    PovDisplayData d' !! Z.to_nat (32 * (Sample.FONTSIZE + 1) + Sample.FONTSIZE) = Some 0 /\
    (forall k, 0 <= k ->
       ~ (32 * (Sample.FONTSIZE + 1) <= k <= 32 * (Sample.FONTSIZE + 1) + Sample.FONTSIZE) ->
       PovDisplayData d' !! Z.to_nat k = PovDisplayData Sample.lit !! Z.to_nat k) /\
    CursPos d' = (32 + 1) mod (Sample.RESOLUTION / (Sample.FONTSIZE + 1)).
Proof.
  apply (WriteCharInPos_effect Sample.RESOLUTION Sample.FONTSIZE Sample.POV_Font 66 32 Sample.lit);
    unfold is_u8, is_u16, Sample.PIXELS, Sample.RESOLUTION, Sample.FONTSIZE; simpl;
    try lia; try (vm_compute; split; [discriminate | reflexivity]);
    auto using sample_blank_wf, sample_lit_wf.
Defined.

Lemma WriteString_advances_cursor_witness :
  exists d', POV_WriteString Sample.RESOLUTION Sample.FONTSIZE Sample.POV_Font [65; 66; 65] Sample.blank = Done d' /\
    length (PovDisplayData d') = Z.to_nat Sample.RESOLUTION /\
    CursPos d' = (CursPos Sample.blank + Z.of_nat (length [65; 66; 65]))
                 mod (Sample.RESOLUTION / (Sample.FONTSIZE + 1)).
Proof.
  apply (WriteString_advances_cursor Sample.RESOLUTION Sample.FONTSIZE Sample.POV_Font [65; 66; 65] Sample.blank);
    unfold is_u8, is_u16, Sample.PIXELS, Sample.RESOLUTION, Sample.FONTSIZE; simpl;
    try lia; try (vm_compute; split; [discriminate | reflexivity]);
    auto using sample_blank_wf, sample_lit_wf.
Defined.


Lemma WriteString_app_and_NUL_witness :
  POV_WriteString Sample.RESOLUTION Sample.FONTSIZE Sample.POV_Font ([65; 66] ++ [66]) Sample.blank
  = (d1 ← POV_WriteString Sample.RESOLUTION Sample.FONTSIZE Sample.POV_Font [65; 66] Sample.blank;
     POV_WriteString Sample.RESOLUTION Sample.FONTSIZE Sample.POV_Font [66] d1) /\
  POV_WriteString Sample.RESOLUTION Sample.FONTSIZE Sample.POV_Font ([65; 66] ++ 0 :: [66]) Sample.blank
  = POV_WriteString Sample.RESOLUTION Sample.FONTSIZE Sample.POV_Font [65; 66] Sample.blank.
Proof.
  apply (WriteString_app_and_NUL Sample.RESOLUTION Sample.FONTSIZE Sample.POV_Font [65; 66] [66] Sample.blank).
  repeat constructor; lia.
Defined.

Section MoreFrames.

Variables RESOLUTION PIXELS : Z.

Lemma for_u8_skip {S : Type} fuel (cond : Z -> bool) (body : Z -> S -> outcome S) i st :
  cond i = false -> for_u8 (Datatypes.S fuel) cond body i st = Done st.
Proof.
  intros H.
  change (for_u8 (Datatypes.S fuel) cond body i st)
    with (if cond i
          then st' ← body i st; for_u8 fuel cond body (to_u8 (i + 1)) st'
          else Done st).
  rewrite H. reflexivity.
Qed.

(** X10: drawFrame draws nothing when its guard fails (Row2 outside the
    display, Row2 not above Row1, a column outside the display) and also
    when the guard passes but Column2 is left of Column1: the column loop
    then runs zero times. *)
Theorem DrawFrame_draws_nothing (Column1 Row1 Row2 Column2 : Z) (d : Display) :
  ~ (Row2 < PIXELS /\ Row1 < Row2 /\ Column1 < RESOLUTION /\ Column2 < RESOLUTION)
  \/ Column2 < Column1 ->
  POV_DrawFrame RESOLUTION PIXELS Column1 Row1 Row2 Column2 d = Done d.
Proof.
  intros H. unfold POV_DrawFrame. rewrite !Z.gtb_ltb.
  destruct (Z.ltb_spec Row2 PIXELS), (Z.ltb_spec Row1 Row2),
    (Z.ltb_spec Column1 RESOLUTION), (Z.ltb_spec Column2 RESOLUTION);
    cbn [andb]; try reflexivity.
  destruct H as [H|H]; [exfalso; apply H; auto|].
  unfold u8_fuel. apply for_u8_skip. apply Z.leb_gt. exact H.
Qed.

(** X11: drawing the same frame a second time changes nothing. *)
Theorem DrawFrame_idempotent (Column1 Row1 Row2 Column2 : Z) (d : Display) :
  PIXELS <= 8 -> RESOLUTION <= 255 -> wf_display RESOLUTION d ->
  0 <= Row1 < Row2 -> Row2 < PIXELS ->
  0 <= Column1 <= Column2 -> Column2 < RESOLUTION ->
  exists d1,
    POV_DrawFrame RESOLUTION PIXELS Column1 Row1 Row2 Column2 d = Done d1 /\
    POV_DrawFrame RESOLUTION PIXELS Column1 Row1 Row2 Column2 d1 = Done d1.
Proof.
  intros HP HRes Hwf HR HR2 HC HC2. pose proof Hwf as [Hlen _].
  destruct (DrawFrame_columns RESOLUTION PIXELS Column1 Row1 Row2 Column2 d)
    as (d1 & Hrun1 & Hmap1); auto.
  assert (wf_display RESOLUTION d1) as Hwf1.
  { eapply columns_mapped_wf; [|exact Hwf|exact Hmap1]. intros; apply to_u8_is_u8. }
  destruct (DrawFrame_column_values RESOLUTION PIXELS Column1 Row1 Row2 Column2 d)
    as (d1' & Hrun1' & _ & _ & _ & _ & Hin1); auto.
  assert (d1' = d1) by congruence. subst d1'.
  destruct (DrawFrame_column_values RESOLUTION PIXELS Column1 Row1 Row2 Column2 d1)
    as (d2 & Hrun2 & HC2' & HP2 & HL2 & Hout2 & Hin2); auto.
  exists d1. split; [exact Hrun1|]. rewrite Hrun2. f_equal.
  apply display_eq; auto.
  apply list_eq. intros k.
  destruct (decide (Column1 <= Z.of_nat k <= Column2)) as [Hk|Hk].
  - destruct (lookup_lt_is_Some_2 (PovDisplayData d) k) as [v Hv]; [lia|].
    pose proof (Hin1 (Z.of_nat k) v Hk) as H1. rewrite Nat2Z.id in H1. specialize (H1 Hv).
    pose proof (Hin2 (Z.of_nat k)
      (Z.lor v (frame_mask Column1 Row1 Row2 Column2 (Z.of_nat k))) Hk) as H2.
    rewrite Nat2Z.id in H2. specialize (H2 H1).
    rewrite H2, H1. f_equal. rewrite <- Z.lor_assoc, Z.lor_diag. reflexivity.
  - pose proof (Hout2 (Z.of_nat k) ltac:(lia) Hk) as H2. rewrite Nat2Z.id in H2. exact H2.
Qed.

End MoreFrames.

Lemma DrawFrame_draws_nothing_witness :
  POV_DrawFrame Sample.RESOLUTION Sample.PIXELS 3 1 8 9 Sample.blank = Done Sample.blank /\
  POV_DrawFrame Sample.RESOLUTION Sample.PIXELS 9 1 6 3 Sample.blank = Done Sample.blank.
Proof.
  split.
  - apply (DrawFrame_draws_nothing Sample.RESOLUTION Sample.PIXELS 3 1 8 9 Sample.blank).
    left. unfold Sample.PIXELS. lia.
  - apply (DrawFrame_draws_nothing Sample.RESOLUTION Sample.PIXELS 9 1 6 3 Sample.blank).
    right. lia.
Defined.

Lemma DrawFrame_idempotent_witness :
  exists d1,
    POV_DrawFrame Sample.RESOLUTION Sample.PIXELS 3 1 6 9 Sample.blank = Done d1 /\
    POV_DrawFrame Sample.RESOLUTION Sample.PIXELS 3 1 6 9 d1 = Done d1.
Proof.
  apply (DrawFrame_idempotent Sample.RESOLUTION Sample.PIXELS 3 1 6 9 Sample.blank);
    unfold is_u8, is_u16, Sample.PIXELS, Sample.RESOLUTION, Sample.FONTSIZE; simpl; try lia;
    auto using sample_blank_wf, sample_lit_wf.
Defined.

(** * Further properties of lines and triangles *)

Section MoreLines.

Variables RESOLUTION PIXELS : Z.

Lemma WritePixel_ON_store Row Column d :
  length (PovDisplayData d) = Z.to_nat RESOLUTION ->
  0 <= Row < PIXELS -> 0 <= Column < RESOLUTION ->
  exists v, PovDisplayData d !! Z.to_nat Column = Some v /\
    POV_WritePixel RESOLUTION PIXELS Row Column ON d
    = Done (set_PovDisplayData
              (<[Z.to_nat Column := to_u8 (Z.lor v (Z.shiftl 1 Row))]> (PovDisplayData d)) d).
Proof.
  intros Hlen HR HC.
  destruct (fb_load_Done RESOLUTION Column d Hlen HC) as (v & Hv & Hload).
  exists v. split; [exact Hv|].
  unfold POV_WritePixel, ON, OFF.
  replace (PIXELS >? Row) with true by (symmetry; rewrite Z.gtb_ltb; apply Z.ltb_lt; lia).
  replace (RESOLUTION >? Column) with true by (symmetry; rewrite Z.gtb_ltb; apply Z.ltb_lt; lia).
  simpl. rewrite Hload, bind_Done. apply fb_store_Done; auto.
Qed.

Lemma lit_within_refl c1 r1 c2 r2 d : lit_within c1 r1 c2 r2 d d.
Proof. repeat split; auto. intros k v Hv. exists v. auto. Qed.

Lemma lit_within_trans c1 r1 c2 r2 d d' d'' :
  lit_within c1 r1 c2 r2 d d' -> lit_within c1 r1 c2 r2 d' d'' ->
  lit_within c1 r1 c2 r2 d d''.
Proof.
  intros (HC1 & HP1 & HL1 & H1) (HC2 & HP2 & HL2 & H2). repeat split; try congruence.
  intros k v Hv. destruct (H1 k v Hv) as (v' & Hv' & Hb1).
  destruct (H2 k v' Hv') as (v'' & Hv'' & Hb2). exists v''. split; [exact Hv''|].
  intros r Hr. destruct (Hb1 r Hr) as [E1|[E1 B1]], (Hb2 r Hr) as [E2|[E2 B2]]; auto.
  - left. congruence.
  - right. split; [congruence | exact B1].
Qed.

Lemma lit_within_pixels_kept c1 r1 c2 r2 d d' : lit_within c1 r1 c2 r2 d d' -> pixels_kept d d'.
Proof.
  intros (HC & HP & HL & H). repeat split; auto.
  intros k v Hv. destruct (H k v Hv) as (v' & Hv' & Hb). exists v'. split; [exact Hv'|].
  intros r Hr Hbit. destruct (Hb r Hr) as [E|[E _]]; congruence.
Qed.

(** One plotted pixel. *)
Lemma WritePixel_ON_lit c1 r1 c2 r2 Row Column d d1 :
  PIXELS <= 8 -> length (PovDisplayData d) = Z.to_nat RESOLUTION ->
  0 <= Row < PIXELS -> 0 <= Column < RESOLUTION ->
  in_box c1 r1 c2 r2 Column Row ->
  POV_WritePixel RESOLUTION PIXELS Row Column ON d = Done d1 ->
  length (PovDisplayData d1) = Z.to_nat RESOLUTION /\
  lit_within c1 r1 c2 r2 d d1 /\
  POV_ReadPixel RESOLUTION PIXELS Row Column d1 = Done 1.
Proof.
  intros HP Hlen HR HC Hbox Hw.
  destruct (WritePixel_ON_store Row Column d Hlen HR HC) as (v & Hv & Hw').
  rewrite Hw' in Hw. injection Hw as <-. simpl.
  split; [rewrite length_insert; exact Hlen|]. split.
  - repeat split; simpl; auto using length_insert.
    intros k w Hw. destruct (decide (k = Z.to_nat Column)) as [->|Hne].
    + rewrite list_lookup_insert_eq by lia. eexists; split; [reflexivity|].
      rewrite Hv in Hw. injection Hw as <-. intros r Hr.
      rewrite testbit_to_u8, Z.lor_spec, testbit_bit by lia.
      destruct (Z.eqb_spec r Row) as [->|Hr'].
      * right. rewrite orb_true_r. split; [reflexivity|]. rewrite Z2Nat.id by lia. exact Hbox.
      * left. apply orb_false_r.
    + rewrite list_lookup_insert_ne by auto. exists w. auto.
  - rewrite (ReadPixel_value RESOLUTION PIXELS Row Column
               (to_u8 (Z.lor v (Z.shiftl 1 Row)))); auto.
    + rewrite testbit_to_u8, Z.lor_spec, testbit_bit, Z.eqb_refl, orb_true_r by lia.
      reflexivity.
    + simpl. apply list_lookup_insert_eq. lia.
Qed.

Lemma lit_within_stays_lit c1 r1 c2 r2 d d' r c :
  PIXELS <= 8 ->
  length (PovDisplayData d) = Z.to_nat RESOLUTION ->
  0 <= r < PIXELS -> 0 <= c < RESOLUTION ->
  lit_within c1 r1 c2 r2 d d' ->
  POV_ReadPixel RESOLUTION PIXELS r c d = Done 1 ->
  POV_ReadPixel RESOLUTION PIXELS r c d' = Done 1.
Proof.
  intros HP Hlen Hr Hc (_ & _ & HL & H) Hlit.
  destruct (lookup_lt_is_Some_2 (PovDisplayData d) (Z.to_nat c)) as [v Hv]; [lia|].
  destruct (H _ v Hv) as (v' & Hv' & Hb).
  rewrite (ReadPixel_value RESOLUTION PIXELS r c v d) in Hlit by auto.
  rewrite (ReadPixel_value RESOLUTION PIXELS r c v' d') by auto.
  destruct (Hb r ltac:(lia)) as [E|[E _]]; rewrite E; [exact Hlit | reflexivity].
Qed.

Lemma lit_within_outside c1 r1 c2 r2 d d' r c :
  PIXELS <= 8 ->
  length (PovDisplayData d) = Z.to_nat RESOLUTION ->
  0 <= r -> 0 <= c -> ~ in_box c1 r1 c2 r2 c r ->
  lit_within c1 r1 c2 r2 d d' ->
  POV_ReadPixel RESOLUTION PIXELS r c d' = POV_ReadPixel RESOLUTION PIXELS r c d.
Proof.
  intros HP Hlen Hr Hc Hout (_ & _ & HL & H).
  destruct (Z.lt_ge_cases r PIXELS) as [Hr'|Hr'];
    [|rewrite !ReadPixel_outside by lia; reflexivity].
  apply ReadPixel_same_bit; auto; try congruence.
  intros v Hv. destruct (H _ v Hv) as (v' & Hv' & Hb). exists v'. split; [exact Hv'|].
  destruct (Hb r ltac:(lia)) as [E|[_ B]]; [exact E|].
  rewrite Z2Nat.id in B by lia. contradiction.
Qed.

Section Endpoints.

Variables c1 r1 c2 r2 : Z.

Let DX : Z := Z.abs (c2 - c1).
Let DY : Z := Z.abs (r2 - r1).
Let sx : Z := if c1 <? c2 then 1 else -1.
Let sy : Z := if r1 <? r2 then 1 else -1.

Hypothesis HPIXELS : PIXELS <= 8.
Hypothesis HRESOLUTION : RESOLUTION <= 255.
Hypothesis Hc1 : 0 <= c1 < RESOLUTION.
Hypothesis Hc2 : 0 <= c2 < RESOLUTION.
Hypothesis Hr1 : 0 <= r1 < PIXELS.
Hypothesis Hr2 : 0 <= r2 < PIXELS.
Hypothesis Hnear : Z.abs (c2 - c1) <= 127.

(** One round of the loop, with the pixel it plots and the step it takes. *)
Lemma DrawLine_round_plot fuel a b err d :
  line_state_ok c1 r1 c2 r2 a b err ->
  length (PovDisplayData d) = Z.to_nat RESOLUTION ->
  exists d1,
    POV_WritePixel RESOLUTION PIXELS (r1 + sy * b) (c1 + sx * a) ON d = Done d1 /\
    length (PovDisplayData d1) = Z.to_nat RESOLUTION /\
    ((a = DX /\ b = DY /\
      DrawLine_loop RESOLUTION PIXELS (S fuel) DX sx DY sy c2 r2
        (c1 + sx * a) (r1 + sy * b) err d = Done d1) \/
     (exists a' b' err', line_state_ok c1 r1 c2 r2 a' b' err' /\
        a <= a' <= a + 1 /\ b <= b' <= b + 1 /\ a + b < a' + b' /\
        DrawLine_loop RESOLUTION PIXELS (S fuel) DX sx DY sy c2 r2
          (c1 + sx * a) (r1 + sy * b) err d
        = DrawLine_loop RESOLUTION PIXELS fuel DX sx DY sy c2 r2
            (c1 + sx * a') (r1 + sy * b') err' d1)).
Proof using HPIXELS HRESOLUTION Hc1 Hc2 Hr1 Hr2 Hnear.
  intros Hinv Hlen. pose proof Hinv as (Ha & Hb & _).
  destruct (line_position RESOLUTION PIXELS c1 r1 c2 r2 Hc1 Hc2 Hr1 Hr2 a b Ha Hb)
    as (Hc & Hr & Hcend & Hrend).
  fold sx sy DX DY in Hc, Hr, Hcend, Hrend.
  destruct (WritePixel_ON_Done RESOLUTION PIXELS (r1 + sy * b) (c1 + sx * a) d Hlen Hr Hc)
    as (d1 & Hw & Hlen1 & _).
  exists d1. split; [exact Hw|]. split; [exact Hlen1|].
  cbn [DrawLine_loop]. rewrite Hw, bind_Done.
  destruct (decide (a = DX /\ b = DY)) as [[Ea Eb]|Hend].
  { left. repeat split; auto.
    replace (r1 + sy * b =? r2) with true by (symmetry; apply Z.eqb_eq, Hrend, Eb).
    replace (c1 + sx * a =? c2) with true by (symmetry; apply Z.eqb_eq, Hcend, Ea).
    reflexivity. }
  right.
  replace ((r1 + sy * b =? r2) && (c1 + sx * a =? c2)) with false.
  2:{ symmetry. apply andb_false_iff.
      destruct (Z.eqb_spec (r1 + sy * b) r2), (Z.eqb_spec (c1 + sx * a) c2); tauto. }
  rewrite !Z.gtb_ltb.
  destruct (Z.ltb_spec (- DX) err) as [Hx|Hx], (Z.ltb_spec err DY) as [Hy|Hy].
  - destruct (line_inv_diagonal_step RESOLUTION PIXELS c1 r1 c2 r2 HPIXELS HRESOLUTION
                Hc1 Hc2 Hr1 Hr2 Hnear a b err Hinv Hend Hx Hy) as (Hinv' & E1 & E2 & E3).
    exists (a + 1), (b + 1), (err - DY + DX). fold sx sy DX DY in E1, E2, E3.
    rewrite E1, E2, E3. split; [exact Hinv'|]. repeat split; try lia.
  - destruct (line_inv_column_step RESOLUTION PIXELS c1 r1 c2 r2 HPIXELS HRESOLUTION
                Hc1 Hc2 Hr1 Hr2 Hnear a b err Hinv Hend Hx Hy) as (Hinv' & E1 & E2).
    exists (a + 1), b, (err - DY). fold sx sy DX DY in E1, E2.
    rewrite E1, E2. split; [exact Hinv'|]. repeat split; try lia.
  - destruct (line_inv_row_step RESOLUTION PIXELS c1 r1 c2 r2 HPIXELS HRESOLUTION
                Hc1 Hc2 Hr1 Hr2 Hnear a b err Hinv Hend Hx Hy) as (Hinv' & E1 & E2).
    exists a, (b + 1), (err + DX). fold sx sy DX DY in E1, E2.
    rewrite E1, E2. split; [exact Hinv'|]. repeat split; try lia.
  - exfalso. eapply (line_never_stalls PIXELS c1 r1 c2 r2); eauto.
Qed.

(** The rule of the stepping loop: a property [J] of the steps taken and
    of the display, set up by the plot of the current position and kept
    by every step and its plot, holds at the endpoint when the loop
    returns. *)
Lemma DrawLine_loop_rule (J : Z -> Z -> Display -> Prop) (m : nat) :
  (forall a b a' b' s s',
      J a b s -> 0 <= a -> 0 <= b -> a <= a' <= a + 1 -> b <= b' <= b + 1 ->
      a + b < a' + b' -> a' <= DX -> b' <= DY ->
      length (PovDisplayData s) = Z.to_nat RESOLUTION ->
      POV_WritePixel RESOLUTION PIXELS (r1 + sy * b') (c1 + sx * a') ON s = Done s' ->
      J a' b' s') ->
  forall fuel a b err d,
    (m < fuel)%nat -> DX - a + (DY - b) <= Z.of_nat m ->
    line_state_ok c1 r1 c2 r2 a b err ->
    length (PovDisplayData d) = Z.to_nat RESOLUTION ->
    (forall d1,
        POV_WritePixel RESOLUTION PIXELS (r1 + sy * b) (c1 + sx * a) ON d = Done d1 ->
        J a b d1) ->
    exists d', DrawLine_loop RESOLUTION PIXELS fuel DX sx DY sy c2 r2
                 (c1 + sx * a) (r1 + sy * b) err d = Done d' /\
               J DX DY d'.
Proof using HPIXELS HRESOLUTION Hc1 Hc2 Hr1 Hr2 Hnear.
  intros Hstep. induction m as [|m IH]; intros fuel a b err d Hfuel Hm Hinv Hlen Hplot;
    (destruct fuel as [|fuel]; [lia|]);
    destruct (DrawLine_round_plot fuel a b err d Hinv Hlen)
      as (d1 & Hw & Hlen1 &
          [(Ea & Eb & Hdone)|(a' & b' & err' & Hinv' & Hxa & Hxb & Hmore & Hgo)]);
    try (exists d1; split; [exact Hdone | subst a b; apply Hplot; exact Hw]).
  - destruct Hinv' as (Ha' & Hb' & _). destruct Hinv as (Ha & Hb & _).
    fold DX DY in Ha', Hb', Ha, Hb. lia.
  - pose proof Hinv' as (Ha' & Hb' & _). pose proof Hinv as (Ha & Hb & _).
    fold DX DY in Ha', Hb', Ha, Hb.
    rewrite Hgo. apply IH; auto; try lia.
    intros d2 Hw2. apply (Hstep a b a' b' d1 d2); auto; try lia.
Qed.

(** The same rule for the whole of drawLine. *)
Lemma DrawLine_rule (J : Z -> Z -> Display -> Prop) fuel d :
  length (PovDisplayData d) = Z.to_nat RESOLUTION ->
  (Z.to_nat (DX + DY) < fuel)%nat ->
  (forall d1, POV_WritePixel RESOLUTION PIXELS r1 c1 ON d = Done d1 -> J 0 0 d1) ->
  (forall a b a' b' s s',
      J a b s -> 0 <= a -> 0 <= b -> a <= a' <= a + 1 -> b <= b' <= b + 1 ->
      a + b < a' + b' -> a' <= DX -> b' <= DY ->
      length (PovDisplayData s) = Z.to_nat RESOLUTION ->
      POV_WritePixel RESOLUTION PIXELS (r1 + sy * b') (c1 + sx * a') ON s = Done s' ->
      J a' b' s') ->
  exists d', POV_DrawLine RESOLUTION PIXELS fuel c1 r1 c2 r2 d = Done d' /\ J DX DY d'.
Proof using HPIXELS HRESOLUTION Hc1 Hc2 Hr1 Hr2 Hnear.
  intros Hlen Hfuel Hinit Hstep. unfold POV_DrawLine.
  replace ((r1 >=? PIXELS) || (c1 >=? RESOLUTION) || (r2 >=? PIXELS) || (c2 >=? RESOLUTION))
    with false by (symmetry; zcases; reflexivity).
  fold DX DY sx sy.
  assert (0 <= DX <= 127) as HDX by (unfold DX; lia).
  assert (0 <= DY <= 7) as HDY by (unfold DY; lia).
  rewrite (to_i8_small DX), (to_i8_small DY) by lia.
  fold (line_err0 DX DY).
  assert (-128 <= line_err0 DX DY <= 127) as Herr0
    by (destruct (line_err0_cases DX DY ltac:(lia) ltac:(lia)) as [[? ?]|[? ?]]; lia).
  rewrite (to_i8_small (line_err0 DX DY)) by exact Herr0.
  destruct (DrawLine_loop_rule J (Z.to_nat (DX + DY)) Hstep fuel 0 0 (line_err0 DX DY) d)
    as (d' & Hrun & HJ); auto; try lia.
  - unfold line_state_ok. fold DX DY. repeat split; try lia.
    destruct (Z.eq_dec (DX + DY) 0); [right; lia | left; apply line_err0_ok; lia].
  - rewrite !Z.mul_0_r, !Z.add_0_r. exact Hinit.
  - rewrite !Z.mul_0_r, !Z.add_0_r in Hrun. exists d'. split; assumption.
Qed.

End Endpoints.

End MoreLines.

Section LineEffects.

Variables RESOLUTION PIXELS : Z.

Lemma DrawLine_outside fuel c1 r1 c2 r2 d :
  r1 >= PIXELS \/ c1 >= RESOLUTION \/ r2 >= PIXELS \/ c2 >= RESOLUTION ->
  POV_DrawLine RESOLUTION PIXELS fuel c1 r1 c2 r2 d = Done d.
Proof.
  intros H. unfold POV_DrawLine. rewrite !Z.geb_leb.
  destruct (Z.leb_spec PIXELS r1), (Z.leb_spec RESOLUTION c1),
    (Z.leb_spec PIXELS r2), (Z.leb_spec RESOLUTION c2); cbn [orb]; try reflexivity; lia.
Qed.

Lemma line_point_in_box c1 r1 c2 r2 a b :
  0 <= a <= Z.abs (c2 - c1) -> 0 <= b <= Z.abs (r2 - r1) ->
  in_box c1 r1 c2 r2 (c1 + (if c1 <? c2 then 1 else -1) * a)
    (r1 + (if r1 <? r2 then 1 else -1) * b).
Proof.
  intros Ha Hb. unfold in_box.
  destruct (Z.ltb_spec c1 c2), (Z.ltb_spec r1 r2); lia.
Qed.

Lemma DrawLine_lit_within c1 r1 c2 r2 fuel d :
  PIXELS <= 8 -> RESOLUTION <= 255 ->
  0 <= c1 < RESOLUTION -> 0 <= r1 < PIXELS -> 0 <= c2 < RESOLUTION -> 0 <= r2 < PIXELS ->
  Z.abs (c2 - c1) <= 127 ->
  length (PovDisplayData d) = Z.to_nat RESOLUTION ->
  (Z.to_nat (Z.abs (c2 - c1) + Z.abs (r2 - r1)) < fuel)%nat ->
  exists d', POV_DrawLine RESOLUTION PIXELS fuel c1 r1 c2 r2 d = Done d' /\
    length (PovDisplayData d') = Z.to_nat RESOLUTION /\
    lit_within c1 r1 c2 r2 d d' /\
    POV_ReadPixel RESOLUTION PIXELS r1 c1 d' = Done 1 /\
    POV_ReadPixel RESOLUTION PIXELS r2 c2 d' = Done 1.
Proof.
  intros HP HRes Hc1 Hr1 Hc2 Hr2 Hnear Hlen Hfuel.
  set (sx := if c1 <? c2 then 1 else -1). set (sy := if r1 <? r2 then 1 else -1).
  destruct (DrawLine_rule RESOLUTION PIXELS c1 r1 c2 r2 HP HRes Hc1 Hc2 Hr1 Hr2 Hnear
    (fun a b s =>
       length (PovDisplayData s) = Z.to_nat RESOLUTION /\
       lit_within c1 r1 c2 r2 d s /\
       POV_ReadPixel RESOLUTION PIXELS r1 c1 s = Done 1 /\
       POV_ReadPixel RESOLUTION PIXELS (r1 + sy * b) (c1 + sx * a) s = Done 1)
    fuel d Hlen Hfuel) as (d' & Hrun & Hlen' & Hwithin & Hstart & Hend).
  - intros d1 Hw.
    destruct (WritePixel_ON_lit RESOLUTION PIXELS c1 r1 c2 r2 r1 c1 d d1) as (HL & HW & HR);
      auto.
    { unfold in_box. lia. }
    rewrite !Z.mul_0_r, !Z.add_0_r. auto.
  - intros a b a' b' s s' (HLs & HWs & HSs & _) Ha Hb Ha' Hb' Hmore HaX HbY _ Hw.
    fold sx sy in Hw.
    destruct (line_position RESOLUTION PIXELS c1 r1 c2 r2 Hc1 Hc2 Hr1 Hr2 a' b')
      as (Hc & Hr & _); try lia.
    fold sx sy in Hc, Hr.
    destruct (WritePixel_ON_lit RESOLUTION PIXELS c1 r1 c2 r2 _ _ s s' HP HLs Hr Hc)
      as (HL & HW & HR); auto.
    { apply line_point_in_box; lia. }
    split; [exact HL|].
    split; [exact (lit_within_trans c1 r1 c2 r2 d s s' HWs HW)|]. split; [|exact HR].
    apply (lit_within_stays_lit RESOLUTION PIXELS c1 r1 c2 r2 s s' r1 c1); auto.
  - exists d'. split; [exact Hrun|]. split; [exact Hlen'|]. split; [exact Hwithin|].
    split; [exact Hstart|].
    destruct (line_position RESOLUTION PIXELS c1 r1 c2 r2 Hc1 Hc2 Hr1 Hr2
                (Z.abs (c2 - c1)) (Z.abs (r2 - r1))) as (_ & _ & Ec & Er); try lia.
    fold sx sy in Ec, Er.
    rewrite (proj2 Ec eq_refl), (proj2 Er eq_refl) in Hend. exact Hend.
Qed.

(** X12: drawLine between two in-bounds points at most 127 columns apart
    returns (within |dcol|+|drow|+1 rounds); afterwards both endpoints
    read ON, every pixel that read ON still does, every pixel outside the
    rectangle spanned by the endpoints reads as before, and the cursor has
    not moved.  With an endpoint outside the display nothing is drawn. *)
Theorem DrawLine_effect (c1 r1 c2 r2 : Z) (fuel : nat) (d : Display) :
  PIXELS <= 8 -> RESOLUTION <= 255 ->
  length (PovDisplayData d) = Z.to_nat RESOLUTION ->
  0 <= c1 -> 0 <= r1 -> 0 <= c2 -> 0 <= r2 ->
  (c1 < RESOLUTION -> r1 < PIXELS -> c2 < RESOLUTION -> r2 < PIXELS ->
   Z.abs (c2 - c1) <= 127 ->
   (Z.to_nat (Z.abs (c2 - c1) + Z.abs (r2 - r1)) < fuel)%nat ->
   exists d', POV_DrawLine RESOLUTION PIXELS fuel c1 r1 c2 r2 d = Done d' /\
     POV_ReadPixel RESOLUTION PIXELS r1 c1 d' = Done 1 /\
     POV_ReadPixel RESOLUTION PIXELS r2 c2 d' = Done 1 /\
     (forall r c, 0 <= r < PIXELS -> 0 <= c < RESOLUTION ->
        POV_ReadPixel RESOLUTION PIXELS r c d = Done 1 ->
        POV_ReadPixel RESOLUTION PIXELS r c d' = Done 1) /\
     (forall r c, 0 <= r -> 0 <= c -> ~ in_box c1 r1 c2 r2 c r ->
        POV_ReadPixel RESOLUTION PIXELS r c d' = POV_ReadPixel RESOLUTION PIXELS r c d) /\
     CursPos d' = CursPos d /\ PixelPos d' = PixelPos d) /\
  (r1 >= PIXELS \/ c1 >= RESOLUTION \/ r2 >= PIXELS \/ c2 >= RESOLUTION ->
   POV_DrawLine RESOLUTION PIXELS fuel c1 r1 c2 r2 d = Done d).
Proof.
  intros HP HRes Hlen H1 H2 H3 H4. split; [|apply DrawLine_outside].
  intros Hc1 Hr1 Hc2 Hr2 Hnear Hfuel.
  destruct (DrawLine_lit_within c1 r1 c2 r2 fuel d) as (d' & Hrun & _ & HW & HS & HE);
    auto; try lia.
  exists d'. split; [exact Hrun|]. split; [exact HS|]. split; [exact HE|].
  split; [|split].
  - intros r c Hr Hc. apply (lit_within_stays_lit RESOLUTION PIXELS c1 r1 c2 r2 d d' r c); auto.
  - intros r c Hr Hc Hout.
    apply (lit_within_outside RESOLUTION PIXELS c1 r1 c2 r2 d d' r c); auto.
  - destruct HW as (HC & HPx & _). auto.
Qed.

Lemma DrawLine_straight_covered c1 r1 c2 r2 fuel d :
  PIXELS <= 8 -> RESOLUTION <= 255 ->
  0 <= c1 < RESOLUTION -> 0 <= r1 < PIXELS -> 0 <= c2 < RESOLUTION -> 0 <= r2 < PIXELS ->
  Z.abs (c2 - c1) <= 127 -> c1 = c2 \/ r1 = r2 ->
  length (PovDisplayData d) = Z.to_nat RESOLUTION ->
  (Z.to_nat (Z.abs (c2 - c1) + Z.abs (r2 - r1)) < fuel)%nat ->
  exists d', POV_DrawLine RESOLUTION PIXELS fuel c1 r1 c2 r2 d = Done d' /\
    forall a0 b0, 0 <= a0 <= Z.abs (c2 - c1) -> 0 <= b0 <= Z.abs (r2 - r1) ->
      POV_ReadPixel RESOLUTION PIXELS (r1 + (if r1 <? r2 then 1 else -1) * b0)
        (c1 + (if c1 <? c2 then 1 else -1) * a0) d' = Done 1.
Proof.
  intros HP HRes Hc1 Hr1 Hc2 Hr2 Hnear Hstraight Hlen Hfuel.
  set (sx := if c1 <? c2 then 1 else -1). set (sy := if r1 <? r2 then 1 else -1).
  destruct (DrawLine_rule RESOLUTION PIXELS c1 r1 c2 r2 HP HRes Hc1 Hc2 Hr1 Hr2 Hnear
    (fun a b s =>
       length (PovDisplayData s) = Z.to_nat RESOLUTION /\
       forall a0 b0, 0 <= a0 <= a -> 0 <= b0 <= b ->
         POV_ReadPixel RESOLUTION PIXELS (r1 + sy * b0) (c1 + sx * a0) s = Done 1)
    fuel d Hlen Hfuel) as (d' & Hrun & _ & Hall).
  - intros d1 Hw.
    destruct (WritePixel_ON_lit RESOLUTION PIXELS c1 r1 c1 r1 r1 c1 d d1) as (HL & _ & HR);
      auto.
    { unfold in_box. lia. }
    split; [exact HL|]. intros a0 b0 Ha0 Hb0.
    replace a0 with 0 by lia. replace b0 with 0 by lia.
    rewrite !Z.mul_0_r, !Z.add_0_r. exact HR.
  - intros a b a' b' s s' (HLs & Hlit) Ha Hb Ha' Hb' Hmore HaX HbY _ Hw.
    fold sx sy in Hw.
    destruct (line_position RESOLUTION PIXELS c1 r1 c2 r2 Hc1 Hc2 Hr1 Hr2 a' b')
      as (Hc & Hr & _); try lia.
    fold sx sy in Hc, Hr.
    destruct (WritePixel_ON_lit RESOLUTION PIXELS
                (c1 + sx * a') (r1 + sy * b') (c1 + sx * a') (r1 + sy * b')
                _ _ s s' HP HLs Hr Hc) as (HL & HW & HR); auto.
    { unfold in_box. lia. }
    split; [exact HL|]. intros a0 b0 Ha0 Hb0.
    assert ((a0 = a' /\ b0 = b') \/ (a0 <= a /\ b0 <= b)) as [[-> ->]|[Ha0' Hb0']]
      by (destruct Hstraight; lia).
    + exact HR.
    + destruct (line_position RESOLUTION PIXELS c1 r1 c2 r2 Hc1 Hc2 Hr1 Hr2 a0 b0)
        as (Hc0 & Hr0 & _); try lia.
      fold sx sy in Hc0, Hr0.
      apply (lit_within_stays_lit RESOLUTION PIXELS _ _ _ _ s s' _ _ HP HLs Hr0 Hc0 HW).
      apply Hlit; lia.
  - exists d'. split; [exact Hrun|]. exact Hall.
Qed.

(** X13: a horizontal or vertical line (at most 127 columns long) lights
    exactly the pixels between its endpoints: those read ON afterwards,
    all others read as before. *)
Theorem DrawLine_straight (c1 r1 c2 r2 : Z) (fuel : nat) (d : Display) :
  PIXELS <= 8 -> RESOLUTION <= 255 ->
  length (PovDisplayData d) = Z.to_nat RESOLUTION ->
  0 <= c1 < RESOLUTION -> 0 <= r1 < PIXELS -> 0 <= c2 < RESOLUTION -> 0 <= r2 < PIXELS ->
  Z.abs (c2 - c1) <= 127 -> c1 = c2 \/ r1 = r2 ->
  (Z.to_nat (Z.abs (c2 - c1) + Z.abs (r2 - r1)) < fuel)%nat ->
  exists d', POV_DrawLine RESOLUTION PIXELS fuel c1 r1 c2 r2 d = Done d' /\
    forall r c, 0 <= r -> 0 <= c ->
      (in_box c1 r1 c2 r2 c r -> POV_ReadPixel RESOLUTION PIXELS r c d' = Done 1) /\
      (~ in_box c1 r1 c2 r2 c r ->
         POV_ReadPixel RESOLUTION PIXELS r c d' = POV_ReadPixel RESOLUTION PIXELS r c d).
Proof.
  intros HP HRes Hlen Hc1 Hr1 Hc2 Hr2 Hnear Hstraight Hfuel.
  destruct (DrawLine_straight_covered c1 r1 c2 r2 fuel d) as (d' & Hrun & Hcov); auto.
  destruct (DrawLine_lit_within c1 r1 c2 r2 fuel d) as (d'' & Hrun' & _ & HW & _); auto.
  assert (d'' = d') by congruence. subst d''.
  exists d'. split; [exact Hrun|]. intros r c Hr Hc. split.
  - intros [Hbc Hbr].
    specialize (Hcov (Z.abs (c - c1)) (Z.abs (r - r1)) ltac:(lia) ltac:(lia)).
    replace (r1 + (if r1 <? r2 then 1 else -1) * Z.abs (r - r1)) with r in Hcov
      by (destruct (Z.ltb_spec r1 r2); lia).
    replace (c1 + (if c1 <? c2 then 1 else -1) * Z.abs (c - c1)) with c in Hcov
      by (destruct (Z.ltb_spec c1 c2); lia).
    exact Hcov.
  - intros Hout. apply (lit_within_outside RESOLUTION PIXELS c1 r1 c2 r2 d d' r c); auto.
Qed.

(** X14: drawTriangle on three in-bounds vertices that are pairwise at
    most 127 columns apart returns; afterwards the three vertices read ON,
    every pixel that read ON still does, and the cursor has not moved. *)
Theorem DrawTriangle_effect (c1 r1 c2 r2 c3 r3 : Z) (fuel : nat) (d : Display) :
  PIXELS <= 8 -> RESOLUTION <= 255 ->
  length (PovDisplayData d) = Z.to_nat RESOLUTION ->
  0 <= c1 < RESOLUTION -> 0 <= r1 < PIXELS ->
  0 <= c2 < RESOLUTION -> 0 <= r2 < PIXELS ->
  0 <= c3 < RESOLUTION -> 0 <= r3 < PIXELS ->
  Z.abs (c2 - c1) <= 127 -> Z.abs (c3 - c2) <= 127 -> Z.abs (c1 - c3) <= 127 ->
  (134 < fuel)%nat ->
  exists d', POV_DrawTriangle RESOLUTION PIXELS fuel c1 r1 c2 r2 c3 r3 d = Done d' /\
    POV_ReadPixel RESOLUTION PIXELS r1 c1 d' = Done 1 /\
    POV_ReadPixel RESOLUTION PIXELS r2 c2 d' = Done 1 /\
    POV_ReadPixel RESOLUTION PIXELS r3 c3 d' = Done 1 /\
    (forall r c, 0 <= r < PIXELS -> 0 <= c < RESOLUTION ->
       POV_ReadPixel RESOLUTION PIXELS r c d = Done 1 ->
       POV_ReadPixel RESOLUTION PIXELS r c d' = Done 1) /\
    CursPos d' = CursPos d /\ PixelPos d' = PixelPos d.
Proof.
  intros HP HRes Hlen Hc1 Hr1 Hc2 Hr2 Hc3 Hr3 H12 H23 H31 Hfuel.
  destruct (DrawLine_lit_within c1 r1 c2 r2 fuel d) as (d1 & E1 & L1 & W1 & S1 & _);
    auto; try lia.
  destruct (DrawLine_lit_within c2 r2 c3 r3 fuel d1) as (d2 & E2 & L2 & W2 & S2 & _);
    auto; try lia.
  destruct (DrawLine_lit_within c3 r3 c1 r1 fuel d2) as (d3 & E3 & L3 & W3 & S3 & T3);
    auto; try lia.
  exists d3. split.
  { unfold POV_DrawTriangle. rewrite E1, bind_Done, E2, bind_Done. exact E3. }
  split; [exact T3|]. split; [|split; [exact S3|]].
  - apply (lit_within_stays_lit RESOLUTION PIXELS c3 r3 c1 r1 d2 d3 r2 c2); auto.
  - split.
    + intros r c Hr Hc Hlit.
      apply (lit_within_stays_lit RESOLUTION PIXELS c3 r3 c1 r1 d2 d3 r c); auto.
      apply (lit_within_stays_lit RESOLUTION PIXELS c2 r2 c3 r3 d1 d2 r c); auto.
      apply (lit_within_stays_lit RESOLUTION PIXELS c1 r1 c2 r2 d d1 r c); auto.
    + destruct W1 as (A1 & B1 & _), W2 as (A2 & B2 & _), W3 as (A3 & B3 & _).
      split; congruence.
Qed.

(** X15: drawTriangle does not check its vertices itself: with the third
    vertex outside the display the two sides that touch it are skipped
    and the side from vertex 1 to vertex 2 is still drawn. *)
Theorem DrawTriangle_third_vertex_outside (c1 r1 c2 r2 c3 r3 : Z) (fuel : nat) (d : Display) :
  r3 >= PIXELS \/ c3 >= RESOLUTION ->
  POV_DrawTriangle RESOLUTION PIXELS fuel c1 r1 c2 r2 c3 r3 d
  = POV_DrawLine RESOLUTION PIXELS fuel c1 r1 c2 r2 d.
Proof.
  intros H3. unfold POV_DrawTriangle.
  destruct (POV_DrawLine RESOLUTION PIXELS fuel c1 r1 c2 r2 d) as [d1| |]; try reflexivity.
  rewrite bind_Done, (DrawLine_outside fuel c2 r2 c3 r3 d1) by tauto.
  rewrite bind_Done. apply DrawLine_outside. tauto.
Qed.

End LineEffects.

Lemma DrawLine_effect_witness :
  (exists d', POV_DrawLine Sample.RESOLUTION Sample.PIXELS 20 2 1 10 6 Sample.blank = Done d' /\
     POV_ReadPixel Sample.RESOLUTION Sample.PIXELS 1 2 d' = Done 1 /\
     POV_ReadPixel Sample.RESOLUTION Sample.PIXELS 6 10 d' = Done 1 /\
     (forall r c, 0 <= r < Sample.PIXELS -> 0 <= c < Sample.RESOLUTION ->
        POV_ReadPixel Sample.RESOLUTION Sample.PIXELS r c Sample.blank = Done 1 ->
        POV_ReadPixel Sample.RESOLUTION Sample.PIXELS r c d' = Done 1) /\
     (forall r c, 0 <= r -> 0 <= c -> ~ in_box 2 1 10 6 c r ->
        POV_ReadPixel Sample.RESOLUTION Sample.PIXELS r c d' = POV_ReadPixel Sample.RESOLUTION Sample.PIXELS r c Sample.blank) /\
     CursPos d' = CursPos Sample.blank /\ PixelPos d' = PixelPos Sample.blank) /\
  POV_DrawLine Sample.RESOLUTION Sample.PIXELS 20 2 1 10 8 Sample.blank = Done Sample.blank.
Proof.
  split.
  - apply (DrawLine_effect Sample.RESOLUTION Sample.PIXELS 2 1 10 6 20 Sample.blank);
      unfold is_u8, is_u16, Sample.PIXELS, Sample.RESOLUTION, Sample.FONTSIZE; simpl; try lia;
    auto using sample_blank_wf, sample_lit_wf.
  - apply (DrawLine_effect Sample.RESOLUTION Sample.PIXELS 2 1 10 8 20 Sample.blank);
      unfold is_u8, is_u16, Sample.PIXELS, Sample.RESOLUTION, Sample.FONTSIZE; simpl; try lia;
    auto using sample_blank_wf, sample_lit_wf.
Defined.

Lemma DrawLine_straight_witness :
  exists d', POV_DrawLine Sample.RESOLUTION Sample.PIXELS 20 2 4 12 4 Sample.blank = Done d' /\
    forall r c, 0 <= r -> 0 <= c ->
      (in_box 2 4 12 4 c r -> POV_ReadPixel Sample.RESOLUTION Sample.PIXELS r c d' = Done 1) /\
      (~ in_box 2 4 12 4 c r ->
         POV_ReadPixel Sample.RESOLUTION Sample.PIXELS r c d' = POV_ReadPixel Sample.RESOLUTION Sample.PIXELS r c Sample.blank).
Proof.
  apply (DrawLine_straight Sample.RESOLUTION Sample.PIXELS 2 4 12 4 20 Sample.blank);
    unfold is_u8, is_u16, Sample.PIXELS, Sample.RESOLUTION, Sample.FONTSIZE; simpl; try lia;
    auto using sample_blank_wf, sample_lit_wf.
Defined.

Lemma DrawTriangle_effect_witness :
  exists d', POV_DrawTriangle Sample.RESOLUTION Sample.PIXELS 200 2 1 10 6 20 0 Sample.blank = Done d' /\
    POV_ReadPixel Sample.RESOLUTION Sample.PIXELS 1 2 d' = Done 1 /\
    POV_ReadPixel Sample.RESOLUTION Sample.PIXELS 6 10 d' = Done 1 /\
    POV_ReadPixel Sample.RESOLUTION Sample.PIXELS 0 20 d' = Done 1 /\
    (forall r c, 0 <= r < Sample.PIXELS -> 0 <= c < Sample.RESOLUTION ->
       POV_ReadPixel Sample.RESOLUTION Sample.PIXELS r c Sample.blank = Done 1 ->
       POV_ReadPixel Sample.RESOLUTION Sample.PIXELS r c d' = Done 1) /\
    CursPos d' = CursPos Sample.blank /\ PixelPos d' = PixelPos Sample.blank.
Proof.
  apply (DrawTriangle_effect Sample.RESOLUTION Sample.PIXELS 2 1 10 6 20 0 200 Sample.blank);
    unfold is_u8, is_u16, Sample.PIXELS, Sample.RESOLUTION, Sample.FONTSIZE; simpl; try lia;
    auto using sample_blank_wf, sample_lit_wf.
Defined.

Lemma DrawTriangle_third_vertex_outside_witness :
  POV_DrawTriangle Sample.RESOLUTION Sample.PIXELS 20 2 1 10 6 20 8 Sample.blank
  = POV_DrawLine Sample.RESOLUTION Sample.PIXELS 20 2 1 10 6 Sample.blank.
Proof.
  apply (DrawTriangle_third_vertex_outside Sample.RESOLUTION Sample.PIXELS 2 1 10 6 20 8 20 Sample.blank).
  left. unfold Sample.PIXELS. lia.
Defined.

(** * Further properties of the interrupt callbacks *)

Section MoreTimers.

Variables RESOLUTION PIXELS : Z.

(** X16: POV_IntervalsDisplay drives each of the PIXELS output lines
    once, in ascending order, line k to bit k of the value, and touches
    nothing else. *)
Theorem IntervalsDisplay_effect (valueToPresent : Z) (t : Timing) :
  0 <= PIXELS <= 255 ->
  exists t', POV_IntervalsDisplay PIXELS valueToPresent t = Done t' /\
    (exists pins, gpio t' = gpio t ++ pins /\
       length pins = Z.to_nat PIXELS /\
       forall k : nat, Z.of_nat k < PIXELS ->
         pins !! k = Some (WritePin (Z.of_nat k) (Z.testbit valueToPresent (Z.of_nat k)))) /\
    same_measurement t t' /\
    ICU_TIM2_OVC t' = ICU_TIM2_OVC t /\ PixelsCounter t' = PixelsCounter t.
Proof.
  intros HP. rewrite (IntervalsDisplay_Done PIXELS valueToPresent t HP).
  eexists; split; [reflexivity|]. split.
  - exists (column_pins PIXELS valueToPresent). split; [reflexivity|].
    unfold column_pins. split.
    + rewrite length_fmap, length_seqZ. reflexivity.
    + intros k Hk. rewrite list_lookup_fmap, lookup_seqZ_lt by lia. reflexivity.
  - repeat split; reflexivity.
Qed.

(** A period tick or counter overflow at any value of the counters. *)
Lemma PeriodElapsed_counts inst d t :
  0 <= PIXELS <= 255 -> length (PovDisplayData d) = Z.to_nat RESOLUTION ->
  inst <> TIM_other ->
  exists t', HAL_TIM_PeriodElapsedCallback RESOLUTION PIXELS inst d t = Done t' /\
    ICU_TIM2_OVC t' = (if inst is TIM2 then (ICU_TIM2_OVC t + 1) mod 65536 else ICU_TIM2_OVC t) /\
    PixelsCounter t' = (if inst is TIM3 then (PixelsCounter t + 1) mod 256 else PixelsCounter t) /\
    same_measurement t t'.
Proof.
  intros HP Hlen Hinst. destruct inst; [| |congruence].
  - eexists; split; [reflexivity|]. repeat split; reflexivity.
  - unfold HAL_TIM_PeriodElapsedCallback. simpl PixelsCounter.
    pose proof (to_u8_is_u8 (PixelsCounter t + 1)) as [Hi0 Hi1].
    destruct (Z.ltb_spec (to_u8 (PixelsCounter t + 1)) RESOLUTION).
    + destruct (fb_load_Done RESOLUTION (to_u8 (PixelsCounter t + 1)) d Hlen)
        as (v & Hv & Hload); [lia|].
      rewrite Hload, bind_Done, IntervalsDisplay_Done, bind_Done by lia.
      eexists; split; [reflexivity|]. repeat split; reflexivity.
    + eexists; split; [reflexivity|]. repeat split; reflexivity.
Qed.

Lemma same_measurement_trans t t' t'' :
  same_measurement t t' -> same_measurement t' t'' -> same_measurement t t''.
Proof. unfold same_measurement. intros H1 H2. repeat split; intuition congruence. Qed.

Lemma irqs_counted d es : forall t,
  0 <= PIXELS <= 255 -> length (PovDisplayData d) = Z.to_nat RESOLUTION ->
  no_reference es -> is_u16 (ICU_TIM2_OVC t) -> is_u8 (PixelsCounter t) ->
  exists t', run_irqs RESOLUTION PIXELS d es t = Done t' /\
    ICU_TIM2_OVC t' = (ICU_TIM2_OVC t + count_overflows es) mod 65536 /\
    PixelsCounter t' = (PixelsCounter t + count_ticks es) mod 256 /\
    same_measurement t t'.
Proof.
  induction es as [|e es IH]; intros t HP Hlen Hnr Hovc Hpc.
  - exists t. split; [reflexivity|]. simpl. rewrite !Z.add_0_r.
    rewrite !Z.mod_small by (unfold is_u16, is_u8 in *; lia).
    repeat split; reflexivity.
  - inversion Hnr as [|? ? He Hes]; subst.
    assert (exists inst, inst <> TIM_other /\
              handle_irq RESOLUTION PIXELS d e t
              = HAL_TIM_PeriodElapsedCallback RESOLUTION PIXELS inst d t /\
              count_overflows (e :: es)
              = (if inst is TIM2 then 1 else 0) + count_overflows es /\
              count_ticks (e :: es) = (if inst is TIM3 then 1 else 0) + count_ticks es)
      as (inst & Hinst & Hh & Hco & Hct).
    { destruct e; [exists TIM3 | exists TIM2 | congruence]; repeat split; congruence. }
    destruct (PeriodElapsed_counts inst d t HP Hlen Hinst) as (t1 & H1 & Ho1 & Hp1 & Hs1).
    cbn [run_irqs]. rewrite Hh, H1, bind_Done.
    destruct (IH t1 HP Hlen Hes) as (t' & Hrun & Ho & Hp & Hs).
    { rewrite Ho1. destruct inst; try exact Hovc. apply Z.mod_pos_bound. lia. }
    { rewrite Hp1. destruct inst; try exact Hpc. apply Z.mod_pos_bound. lia. }
    exists t'. split; [exact Hrun|]. rewrite Ho, Hp, Ho1, Hp1, Hco, Hct.
    split; [|split; [|eapply same_measurement_trans; eauto]].
    + destruct inst; try (f_equal; lia).
      rewrite Z.add_mod_idemp_l by lia. f_equal. lia.
    + destruct inst; try (f_equal; lia).
      rewrite Z.add_mod_idemp_l by lia. f_equal. lia.
Qed.

(** X17: between reference events the two counters count independently:
    after any mix of period ticks and tick-counter overflows the overflow
    tally has grown by the number of overflows (modulo 65536), the column
    index by the number of ticks (modulo 256), and the measurement and
    timer registers are as they were. *)
Theorem irqs_count_independently (d : Display) (es : list irq) (t : Timing) :
  0 <= PIXELS <= 255 -> length (PovDisplayData d) = Z.to_nat RESOLUTION ->
  no_reference es -> is_u16 (ICU_TIM2_OVC t) -> is_u8 (PixelsCounter t) ->
  exists t', run_irqs RESOLUTION PIXELS d es t = Done t' /\
    ICU_TIM2_OVC t' = (ICU_TIM2_OVC t + count_overflows es) mod 65536 /\
    PixelsCounter t' = (PixelsCounter t + count_ticks es) mod 256 /\
    same_measurement t t'.
Proof. intros. apply irqs_counted; auto. Qed.

(** X18: the elapsed time is reconstructed across the callbacks: if after
    a reference event the tick counter overflows n <= 65535 times (period
    ticks coming in between as they may) and the next reference event
    captures the value c, that event records TimeDifference = c + n*65536
    and programs the period from it. *)
Theorem elapsed_time_measured (d : Display) (es : list irq) (t : Timing) (c : Z) :
  0 <= PIXELS <= 255 -> 0 < RESOLUTION ->
  length (PovDisplayData d) = Z.to_nat RESOLUTION ->
  is_u16 (ICU_TIM2_OVC t) -> is_u16 (TIM2_CCR1 t) ->
  no_reference es -> count_overflows es <= 65535 -> is_u16 c ->
  exists t0 t1 t2,
    handle_irq RESOLUTION PIXELS d ReferenceEvent t = Done t0 /\
    run_irqs RESOLUTION PIXELS d es t0 = Done t1 /\
    handle_irq RESOLUTION PIXELS d ReferenceEvent (latch_capture c t1) = Done t2 /\
    TimeDifference t2 = c + count_overflows es * 65536 /\
    TIM3_ARR t2
    = autoReloadValue (((c + count_overflows es * 65536) / RESOLUTION) mod 65536)
        (sysClockFreq t) /\
    ICU_TIM2_OVC t2 = 0 /\ PixelsCounter t2 = 0.
Proof.
  intros HP HR Hlen Hovc Hccr Hnr Hn Hc.
  destruct (IC_CaptureCallback_Done RESOLUTION PIXELS d t HP HR Hlen Hovc Hccr)
    as (v & Hv & Hrun0).
  match type of Hrun0 with _ = Done ?x =>
    destruct (irqs_counted d es x HP Hlen Hnr) as (t1 & Hrun1 & Ho1 & _ & Hs1)
  end.
  { unfold is_u16. cbn [ICU_TIM2_OVC]. lia. }
  { unfold is_u8. cbn [PixelsCounter]. lia. }
  assert (0 <= count_overflows es) as Hn0.
  { clear. induction es as [|[] es IH]; simpl; lia. }
  cbn [ICU_TIM2_OVC] in Ho1. rewrite Z.add_0_l, Z.mod_small in Ho1 by lia.
  destruct (IC_CaptureCallback_Done RESOLUTION PIXELS d (latch_capture c t1) HP HR Hlen)
    as (v' & Hv' & Hrun2).
  { cbn [latch_capture ICU_TIM2_OVC]. rewrite Ho1. unfold is_u16. lia. }
  { exact Hc. }
  cbn [latch_capture ICU_TIM2_OVC TIM2_CCR1 sysClockFreq gpio] in Hrun2.
  rewrite Ho1 in Hrun2.
  destruct Hs1 as (_ & _ & Hf & _). cbn [sysClockFreq] in Hf. rewrite Hf in Hrun2.
  eexists. exists t1. eexists.
  split; [exact Hrun0|]. split; [exact Hrun1|]. split; [exact Hrun2|].
  repeat split; reflexivity.
Qed.

Lemma autoReloadValue_mod P f :
  is_u8 f -> autoReloadValue (P mod 65536) f = (P * f - 1) mod 65536.
Proof.
  intros [Hf0 Hf1]. unfold autoReloadValue. rewrite (to_u16_small f) by (unfold is_u16; lia).
  unfold to_u16. rewrite <- Zminus_mod_idemp_l, Zmult_mod_idemp_l, Zminus_mod_idemp_l.
  reflexivity.
Qed.

(** X19: what the reference event leaves in TIM3's auto-reload register
    is floor(E / RESOLUTION) * sysClockFreq - 1 modulo 65536, whether or
    not the quotient fits 16 bits; when 1 <= floor(E / RESOLUTION) *
    sysClockFreq <= 65536 the register plus one is that product exactly. *)
Theorem reference_event_auto_reload (d : Display) (t : Timing) :
  0 <= PIXELS <= 255 -> 0 < RESOLUTION ->
  length (PovDisplayData d) = Z.to_nat RESOLUTION ->
  is_u16 (ICU_TIM2_OVC t) -> is_u16 (TIM2_CCR1 t) -> is_u8 (sysClockFreq t) ->
  let E := TIM2_CCR1 t + ICU_TIM2_OVC t * 65536 in
  exists t', HAL_TIM_IC_CaptureCallback RESOLUTION PIXELS TIM2 d t = Done t' /\
    TIM3_ARR t' = (E / RESOLUTION * sysClockFreq t - 1) mod 65536 /\
    (1 <= E / RESOLUTION * sysClockFreq t <= 65536 ->
       TIM3_ARR t' + 1 = E / RESOLUTION * sysClockFreq t) /\
    TIM3_CNT t' = 0.
Proof.
  intros HP HR Hlen Hovc Hccr Hf E.
  destruct (IC_CaptureCallback_Done RESOLUTION PIXELS d t HP HR Hlen Hovc Hccr)
    as (v & Hv & Hrun).
  eexists. split; [exact Hrun|]. cbn [TIM3_ARR TIM3_CNT]. fold E.
  rewrite autoReloadValue_mod by exact Hf.
  split; [reflexivity|]. split; [|reflexivity].
  intros Hfit. rewrite Z.mod_small by lia. lia.
Qed.

(** X20: a reference event that comes after fewer than RESOLUTION ticks
    computes the period 0, and setTIM3InterruptPeriod(0) wraps the
    auto-reload value to 65535, the longest period of the timer. *)
Theorem reference_event_zero_period (d : Display) (t : Timing) :
  0 <= PIXELS <= 255 -> 0 < RESOLUTION ->
  length (PovDisplayData d) = Z.to_nat RESOLUTION ->
  is_u16 (ICU_TIM2_OVC t) -> is_u16 (TIM2_CCR1 t) -> is_u8 (sysClockFreq t) ->
  TIM2_CCR1 t + ICU_TIM2_OVC t * 65536 < RESOLUTION ->
  exists t', HAL_TIM_IC_CaptureCallback RESOLUTION PIXELS TIM2 d t = Done t' /\
    IC_Period RESOLUTION (TimeDifference t') = 0 /\
    TIM3_ARR t' = 65535.
Proof.
  intros HP HR Hlen Hovc Hccr Hf Hsmall.
  destruct (IC_CaptureCallback_Done RESOLUTION PIXELS d t HP HR Hlen Hovc Hccr)
    as (v & Hv & Hrun).
  eexists. split; [exact Hrun|]. cbn [TIM3_ARR TimeDifference].
  assert (0 <= TIM2_CCR1 t + ICU_TIM2_OVC t * 65536) by (unfold is_u16 in *; lia).
  rewrite IC_Period_mod by lia.
  rewrite autoReloadValue_mod by exact Hf.
  rewrite Z.div_small by lia. split; reflexivity.
Qed.

(** X21: one sweep: a reference event followed by RESOLUTION - 1 period
    ticks puts every column of the framebuffer on the output lines exactly
    once, in order from column 0, the debug line toggling after each of
    columns 1 onwards, and leaves the index on the last column. *)
Theorem full_sweep (d : Display) (t : Timing) :
  0 <= PIXELS <= 255 -> 0 < RESOLUTION <= 256 ->
  length (PovDisplayData d) = Z.to_nat RESOLUTION ->
  is_u16 (ICU_TIM2_OVC t) -> is_u16 (TIM2_CCR1 t) ->
  exists v0 t',
    PovDisplayData d !! 0%nat = Some v0 /\
    run_irqs RESOLUTION PIXELS d
      (ReferenceEvent :: replicate (Z.to_nat (RESOLUTION - 1)) PeriodTick) t = Done t' /\
    gpio t' = gpio t ++ column_pins PIXELS v0
                ++ sweep_trace PIXELS (PovDisplayData d) 1 (RESOLUTION - 1) /\
    PixelsCounter t' = RESOLUTION - 1.
Proof.
  intros HP HR Hlen Hovc Hccr.
  destruct (IC_CaptureCallback_Done RESOLUTION PIXELS d t HP (proj1 HR) Hlen Hovc Hccr)
    as (v & Hv & Hrun).
  exists v. eexists. split; [exact Hv|].
  cbn [run_irqs handle_irq]. rewrite Hrun, bind_Done.
  rewrite pacer_ticks by (auto; lia).
  split; [reflexivity|]. cbn [add_gpio set_PixelsCounter gpio PixelsCounter].
  rewrite Z2Nat.id, Z.min_id by lia. rewrite <- app_assoc. split; reflexivity.
Qed.

End MoreTimers.

Lemma IntervalsDisplay_effect_witness :
  exists t', POV_IntervalsDisplay Sample.PIXELS 165 (Sample.idle 3 1000) = Done t' /\
    (exists pins, gpio t' = gpio (Sample.idle 3 1000) ++ pins /\
       length pins = Z.to_nat Sample.PIXELS /\
       forall k : nat, Z.of_nat k < Sample.PIXELS ->
         pins !! k = Some (WritePin (Z.of_nat k) (Z.testbit 165 (Z.of_nat k)))) /\
    same_measurement (Sample.idle 3 1000) t' /\
    ICU_TIM2_OVC t' = ICU_TIM2_OVC (Sample.idle 3 1000) /\
    PixelsCounter t' = PixelsCounter (Sample.idle 3 1000).
Proof.
  apply (IntervalsDisplay_effect Sample.PIXELS 165 (Sample.idle 3 1000)).
  unfold Sample.PIXELS. lia.
Defined.

Lemma irqs_count_independently_witness :
  exists t', run_irqs Sample.RESOLUTION Sample.PIXELS Sample.lit
               [PeriodTick; CounterOverflow; PeriodTick; PeriodTick; CounterOverflow]
               (Sample.idle 3 1000) = Done t' /\
    ICU_TIM2_OVC t'
    = (ICU_TIM2_OVC (Sample.idle 3 1000)
       + count_overflows [PeriodTick; CounterOverflow; PeriodTick; PeriodTick; CounterOverflow])
      mod 65536 /\
    PixelsCounter t'
    = (PixelsCounter (Sample.idle 3 1000)
       + count_ticks [PeriodTick; CounterOverflow; PeriodTick; PeriodTick; CounterOverflow])
      mod 256 /\
    same_measurement (Sample.idle 3 1000) t'.
Proof.
  apply (irqs_count_independently Sample.RESOLUTION Sample.PIXELS Sample.lit
           [PeriodTick; CounterOverflow; PeriodTick; PeriodTick; CounterOverflow]
           (Sample.idle 3 1000));
    unfold is_u8, is_u16, Sample.PIXELS, Sample.RESOLUTION, Sample.FONTSIZE; simpl; try lia;
    auto using sample_blank_wf, sample_lit_wf.
  unfold no_reference. repeat constructor; discriminate.
Defined.

Lemma elapsed_time_measured_witness :
  exists t0 t1 t2,
    handle_irq Sample.RESOLUTION Sample.PIXELS Sample.lit ReferenceEvent (Sample.idle 3 1000) = Done t0 /\
    run_irqs Sample.RESOLUTION Sample.PIXELS Sample.lit
      [PeriodTick; CounterOverflow; PeriodTick; PeriodTick; CounterOverflow] t0 = Done t1 /\
    handle_irq Sample.RESOLUTION Sample.PIXELS Sample.lit ReferenceEvent (latch_capture 500 t1) = Done t2 /\
    TimeDifference t2
    = 500 + count_overflows [PeriodTick; CounterOverflow; PeriodTick; PeriodTick; CounterOverflow] * 65536 /\
    TIM3_ARR t2
    = autoReloadValue
        (((500 + count_overflows [PeriodTick; CounterOverflow; PeriodTick; PeriodTick; CounterOverflow] * 65536)
          / Sample.RESOLUTION) mod 65536)
        (sysClockFreq (Sample.idle 3 1000)) /\
    ICU_TIM2_OVC t2 = 0 /\ PixelsCounter t2 = 0.
Proof.
  apply (elapsed_time_measured Sample.RESOLUTION Sample.PIXELS Sample.lit
           [PeriodTick; CounterOverflow; PeriodTick; PeriodTick; CounterOverflow]
           (Sample.idle 3 1000) 500);
    unfold is_u8, is_u16, Sample.PIXELS, Sample.RESOLUTION, Sample.FONTSIZE; simpl; try lia;
    auto using sample_blank_wf, sample_lit_wf.
  unfold no_reference. repeat constructor; discriminate.
Defined.

Lemma reference_event_auto_reload_witness :
  let E := TIM2_CCR1 (Sample.idle 3 1000) + ICU_TIM2_OVC (Sample.idle 3 1000) * 65536 in
  exists t', HAL_TIM_IC_CaptureCallback Sample.RESOLUTION Sample.PIXELS TIM2 Sample.lit (Sample.idle 3 1000)
             = Done t' /\
    TIM3_ARR t' = (E / Sample.RESOLUTION * sysClockFreq (Sample.idle 3 1000) - 1) mod 65536 /\
    (1 <= E / Sample.RESOLUTION * sysClockFreq (Sample.idle 3 1000) <= 65536 ->
       TIM3_ARR t' + 1 = E / Sample.RESOLUTION * sysClockFreq (Sample.idle 3 1000)) /\
    TIM3_CNT t' = 0.
Proof.
  apply (reference_event_auto_reload Sample.RESOLUTION Sample.PIXELS Sample.lit (Sample.idle 3 1000));
    unfold is_u8, is_u16, Sample.PIXELS, Sample.RESOLUTION, Sample.FONTSIZE; simpl; try lia;
    auto using sample_blank_wf, sample_lit_wf.
Defined.

Lemma reference_event_zero_period_witness :
  exists t', HAL_TIM_IC_CaptureCallback Sample.RESOLUTION Sample.PIXELS TIM2 Sample.lit (Sample.idle 0 150)
             = Done t' /\
    IC_Period Sample.RESOLUTION (TimeDifference t') = 0 /\
    TIM3_ARR t' = 65535.
Proof.
  apply (reference_event_zero_period Sample.RESOLUTION Sample.PIXELS Sample.lit (Sample.idle 0 150));
    unfold is_u8, is_u16, Sample.PIXELS, Sample.RESOLUTION, Sample.FONTSIZE; simpl; try lia;
    auto using sample_blank_wf, sample_lit_wf.
Defined.

Lemma full_sweep_witness :
  exists v0 t',
    PovDisplayData Sample.lit !! 0%nat = Some v0 /\
    run_irqs Sample.RESOLUTION Sample.PIXELS Sample.lit
      (ReferenceEvent :: replicate (Z.to_nat (Sample.RESOLUTION - 1)) PeriodTick)
      (Sample.idle 3 1000) = Done t' /\
    gpio t' = gpio (Sample.idle 3 1000) ++ column_pins Sample.PIXELS v0
                ++ sweep_trace Sample.PIXELS (PovDisplayData Sample.lit) 1 (Sample.RESOLUTION - 1) /\
    PixelsCounter t' = Sample.RESOLUTION - 1.
Proof.
  apply (full_sweep Sample.RESOLUTION Sample.PIXELS Sample.lit (Sample.idle 3 1000));
    unfold is_u8, is_u16, Sample.PIXELS, Sample.RESOLUTION, Sample.FONTSIZE; simpl; try lia;
    auto using sample_blank_wf, sample_lit_wf.
Defined.
